(** * DISBELIEVE: the simulation core of game.js

    A shallow embedding of the level parser, the physics stepper, the spike
    trigger engine and the gravity-zone state machine of [game.js] (the
    chapter/gravity-zone revision of the file), together with the
    properties its specification states about them.

    Numbers.  JavaScript numbers are modelled as exact rationals [Q]: the
    properties below are about the control flow of the simulation and the
    algebra of its updates.  Values the code copies are compared with
    Leibniz equality, values the code computes with [==].  Where the
    rounding of the IEEE doubles decides a test, as it does for the timer
    of a moving spike, the arithmetic is given on doubles as well (module
    [Doubles]).

    Not modelled: rendering, audio, the particle list (its contents come
    from [Math.random]), the trail history and the mouse; none of them is
    read by the simulation. *)

From Stdlib Require Import QArith Qabs Qminmax Lqa ZArith Lia List Bool String Ascii.
From Stdlib Require Import Floats.
Import ListNotations.

Open Scope Q_scope.

(** ** Comparisons of numbers, as booleans *)

Definition Qleb (a b : Q) : bool := Qle_bool a b.
Definition Qltb (a b : Q) : bool := negb (Qle_bool b a).
Definition Qgeb (a b : Q) : bool := Qleb b a.
Definition Qgtb (a b : Q) : bool := Qltb b a.
Definition Qneqb (a b : Q) : bool := negb (Qeq_bool a b).

(** ** Game constants *)

Definition TILE_SIZE : Q := 60.
Definition GRAVITY : Q := 2100 * (3 # 2).
Definition JUMP_FORCE : Q := - (840) * (5 # 4).
Definition MOVE_SPEED : Q := 380.
Definition DEATH_FLASH_DURATION : Q := 1 # 5.
Definition LEVEL_COMPLETE_DURATION : Q := 3 # 2.
Definition ENABLE_GRAVITY_ZONES : bool := true.

(** ** Data model *)

(** The four fields [checkCollision] reads; platforms, fake blocks,
    invisible platforms and the door are such rectangles and nothing more. *)
Module Rect.
Record t : Type := mk { x : Q; y : Q; width : Q; height : Q }.
End Rect.

Module Canvas.
Record t : Type := mk { width : Q; height : Q }.
End Canvas.

Module Keys.
Record t : Type := mk { left : bool; right : bool; space : bool; r : bool }.
End Keys.

Module Player.
Record t : Type := mk {
  x : Q;
  y : Q;
  width : Q;
  height : Q;
  vx : Q;
  vy : Q;
  onGround : bool;
  hasJumped : bool;
  gravityScale : Q;
  currentGravityZone : list nat;
  gravityFlipTimer : Q;
  gravityFlipCooldown : Q;
  gravityLocked : bool;
  hasBeenFlipped : bool;
  gravityIndicatorAlpha : Q
}.

Definition set_x (p : t) (v : Q) : t :=
  mk v (y p) (width p) (height p) (vx p) (vy p) (onGround p) (hasJumped p)
     (gravityScale p) (currentGravityZone p) (gravityFlipTimer p)
     (gravityFlipCooldown p) (gravityLocked p) (hasBeenFlipped p)
     (gravityIndicatorAlpha p).
Definition set_y (p : t) (v : Q) : t :=
  mk (x p) v (width p) (height p) (vx p) (vy p) (onGround p) (hasJumped p)
     (gravityScale p) (currentGravityZone p) (gravityFlipTimer p)
     (gravityFlipCooldown p) (gravityLocked p) (hasBeenFlipped p)
     (gravityIndicatorAlpha p).
Definition set_vx (p : t) (v : Q) : t :=
  mk (x p) (y p) (width p) (height p) v (vy p) (onGround p) (hasJumped p)
     (gravityScale p) (currentGravityZone p) (gravityFlipTimer p)
     (gravityFlipCooldown p) (gravityLocked p) (hasBeenFlipped p)
     (gravityIndicatorAlpha p).
Definition set_vy (p : t) (v : Q) : t :=
  mk (x p) (y p) (width p) (height p) (vx p) v (onGround p) (hasJumped p)
     (gravityScale p) (currentGravityZone p) (gravityFlipTimer p)
     (gravityFlipCooldown p) (gravityLocked p) (hasBeenFlipped p)
     (gravityIndicatorAlpha p).
Definition set_onGround (p : t) (v : bool) : t :=
  mk (x p) (y p) (width p) (height p) (vx p) (vy p) v (hasJumped p)
     (gravityScale p) (currentGravityZone p) (gravityFlipTimer p)
     (gravityFlipCooldown p) (gravityLocked p) (hasBeenFlipped p)
     (gravityIndicatorAlpha p).
Definition set_hasJumped (p : t) (v : bool) : t :=
  mk (x p) (y p) (width p) (height p) (vx p) (vy p) (onGround p) v
     (gravityScale p) (currentGravityZone p) (gravityFlipTimer p)
     (gravityFlipCooldown p) (gravityLocked p) (hasBeenFlipped p)
     (gravityIndicatorAlpha p).
Definition set_gravityScale (p : t) (v : Q) : t :=
  mk (x p) (y p) (width p) (height p) (vx p) (vy p) (onGround p) (hasJumped p)
     v (currentGravityZone p) (gravityFlipTimer p)
     (gravityFlipCooldown p) (gravityLocked p) (hasBeenFlipped p)
     (gravityIndicatorAlpha p).
Definition set_currentGravityZone (p : t) (v : list nat) : t :=
  mk (x p) (y p) (width p) (height p) (vx p) (vy p) (onGround p) (hasJumped p)
     (gravityScale p) v (gravityFlipTimer p)
     (gravityFlipCooldown p) (gravityLocked p) (hasBeenFlipped p)
     (gravityIndicatorAlpha p).
Definition set_gravityFlipTimer (p : t) (v : Q) : t :=
  mk (x p) (y p) (width p) (height p) (vx p) (vy p) (onGround p) (hasJumped p)
     (gravityScale p) (currentGravityZone p) v
     (gravityFlipCooldown p) (gravityLocked p) (hasBeenFlipped p)
     (gravityIndicatorAlpha p).
Definition set_gravityFlipCooldown (p : t) (v : Q) : t :=
  mk (x p) (y p) (width p) (height p) (vx p) (vy p) (onGround p) (hasJumped p)
     (gravityScale p) (currentGravityZone p) (gravityFlipTimer p)
     v (gravityLocked p) (hasBeenFlipped p)
     (gravityIndicatorAlpha p).
Definition set_hasBeenFlipped (p : t) (v : bool) : t :=
  mk (x p) (y p) (width p) (height p) (vx p) (vy p) (onGround p) (hasJumped p)
     (gravityScale p) (currentGravityZone p) (gravityFlipTimer p)
     (gravityFlipCooldown p) (gravityLocked p) v
     (gravityIndicatorAlpha p).
Definition set_gravityIndicatorAlpha (p : t) (v : Q) : t :=
  mk (x p) (y p) (width p) (height p) (vx p) (vy p) (onGround p) (hasJumped p)
     (gravityScale p) (currentGravityZone p) (gravityFlipTimer p)
     (gravityFlipCooldown p) (gravityLocked p) (hasBeenFlipped p)
     v.

Definition rect (p : t) : Rect.t := Rect.mk (x p) (y p) (width p) (height p).
End Player.

Module Spike.
Record t : Type := mk {
  x : Q;
  y : Q;
  originalX : Q;
  width : Q;
  height : Q;
  moveDistance : Q;
  triggerX : Q;
  triggerY : Q;
  triggerHeight : Q;
  triggerOffset : Q;
  triggerLength : option Q;   (* [None] is JavaScript's [null] *)
  triggered : bool;
  moved : bool;
  moving : bool;
  moveTimer : Q
}.

(** The five fields the frame loop and [resetPlayer] write. *)
Definition set_runtime (s : t) (x' : Q) (triggered' moved' moving' : bool)
    (moveTimer' : Q) : t :=
  mk x' (y s) (originalX s) (width s) (height s) (moveDistance s)
     (triggerX s) (triggerY s) (triggerHeight s) (triggerOffset s)
     (triggerLength s) triggered' moved' moving' moveTimer'.

Definition rect (s : t) : Rect.t := Rect.mk (x s) (y s) (width s) (height s).
End Spike.

Module Zone.
Record t : Type := mk {
  id : nat;
  x : Q;
  y : Q;
  width : Q;
  height : Q;
  type : string;
  trigger : string;
  duration : option Q;        (* [None] is [null]: permanent *)
  cooldown : Q;
  oneShot : bool;
  initialActive : bool;
  hasActivated : bool;
  cooldownTimer : option Q    (* [None]: the property is still undefined *)
}.

(** The two fields the zone state machine writes. *)
Definition set_runtime (z : t) (hasActivated' : bool)
    (cooldownTimer' : option Q) : t :=
  mk (id z) (x z) (y z) (width z) (height z) (type z) (trigger z)
     (duration z) (cooldown z) (oneShot z) (initialActive z)
     hasActivated' cooldownTimer'.

Definition rect (z : t) : Rect.t := Rect.mk (x z) (y z) (width z) (height z).
End Zone.

(** ** Collision primitive *)

Definition checkCollision (rect1 rect2 : Rect.t) : bool :=
  Qltb (Rect.x rect1) (Rect.x rect2 + Rect.width rect2) &&
  Qgtb (Rect.x rect1 + Rect.width rect1) (Rect.x rect2) &&
  Qltb (Rect.y rect1) (Rect.y rect2 + Rect.height rect2) &&
  Qgtb (Rect.y rect1 + Rect.height rect1) (Rect.y rect2).

(** ** Hazard trigger engine *)

(** The body [checkSpikeTriggers] runs for one spike. *)
Definition checkSpikeTrigger (player : Player.t) (spike : Spike.t) : Spike.t :=
  if negb (Spike.triggered spike) && negb (Spike.moved spike) then
    let playerRightEdge := Player.x player + Player.width player in
    let playerLeftEdge := Player.x player in
    let playerTop := Player.y player in
    let playerBottom := Player.y player + Player.height player in
    let withinVerticalBounds :=
      Qgeb playerBottom (Spike.triggerY spike) &&
      Qleb playerTop (Spike.triggerY spike + Spike.triggerHeight spike) in
    let currentlyCrossingLine :=
      Qltb playerLeftEdge (Spike.triggerX spike) &&
      Qgeb playerRightEdge (Spike.triggerX spike) in
    if currentlyCrossingLine && withinVerticalBounds then
      Spike.set_runtime spike (Spike.x spike) true (Spike.moved spike) true 0
    else spike
  else spike.

Definition checkSpikeTriggers (player : Player.t) (spikes : list Spike.t)
    : list Spike.t :=
  map (checkSpikeTrigger player) spikes.

(** The body of the "update moving spikes" loop of [update], the sum and
    the products taken exactly; [Doubles.advanceSpike] further down is the
    same body on doubles, where the rounding of the sum decides the frame
    in which the test [moveTimer >= 1] first succeeds. *)
Definition advanceSpike (deltaTime : Q) (spike : Spike.t) : Spike.t :=
  if Spike.moving spike then
    let t1 := Spike.moveTimer spike + deltaTime * 5 in
    let done := Qgeb t1 1 in
    let moveTimer' := if done then 1 else t1 in
    let moving' := if done then false else Spike.moving spike in
    let moved' := if done then true else Spike.moved spike in
    let targetX := Spike.originalX spike + Spike.moveDistance spike in
    Spike.set_runtime spike
      (Spike.originalX spike + (targetX - Spike.originalX spike) * moveTimer')
      (Spike.triggered spike) moved' moving' moveTimer'
  else spike.

Definition advanceSpikes (deltaTime : Q) (spikes : list Spike.t) : list Spike.t :=
  map (advanceSpike deltaTime) spikes.

(** The spike loop of [resetPlayer]. *)
Definition resetSpike (spike : Spike.t) : Spike.t :=
  Spike.set_runtime spike (Spike.originalX spike) false false false 0.

(** ** Gravity zone state machine *)

(** [zone.cooldownTimer] is not set by the parser: until [checkGravityZones]
    initialises it, it is [undefined], for which [!t] holds and both [t > 0]
    and [t <= 0] are false. *)
Definition timerFalsy (t : option Q) : bool :=
  match t with Some q => Qeq_bool q 0 | None => true end.
Definition timerGt0 (t : option Q) : bool :=
  match t with Some q => Qgtb q 0 | None => false end.
Definition timerLe0 (t : option Q) : bool :=
  match t with Some q => Qleb q 0 | None => false end.

(** [if (zone.duration)]: neither [null] nor zero. *)
Definition durationTruthy (d : option Q) : bool :=
  match d with Some q => Qneqb q 0 | None => false end.

(** The [switch (zone.type)] of [activateGravityZone]; it has no default
    case, so any other type leaves the scale alone. *)
Definition applyGravityChange (type : string) (player : Player.t) : Player.t :=
  if String.eqb type "flip" then
    Player.set_gravityScale player (Player.gravityScale player * (-1))
  else if String.eqb type "toggle" then
    Player.set_gravityScale player (Player.gravityScale player * (-1))
  else if String.eqb type "momentary" then
    Player.set_gravityScale player (-1)
  else player.

Definition activateGravityZone (zone : Zone.t) (player : Player.t)
    : Zone.t * Player.t :=
  if Zone.oneShot zone && Zone.hasActivated zone then (zone, player)
  else if timerGt0 (Zone.cooldownTimer zone) then (zone, player)
  else
    let oldGravity := Player.gravityScale player in
    let player := applyGravityChange (Zone.type zone) player in
    if Qneqb oldGravity (Player.gravityScale player) then
      let player :=
        match Zone.duration zone with
        | Some d => if Qneqb d 0 then Player.set_gravityFlipTimer player d
                    else player
        | None => player
        end in
      let zone :=
        Zone.set_runtime zone true
          (Some (if Qeq_bool (Zone.cooldown zone) 0 then 1 else Zone.cooldown zone)) in
      let player := Player.set_hasBeenFlipped player true in
      let player := Player.set_gravityIndicatorAlpha player 1 in
      let player := Player.set_vy player (Player.vy player * (1 # 2)) in
      (zone, player)
    else (zone, player).

Definition deactivateGravityZone (zone : Zone.t) (player : Player.t) : Player.t :=
  if Qneqb (Player.gravityScale player) 1 then
    Player.set_gravityIndicatorAlpha (Player.set_gravityScale player 1) 1
  else player.

(** [player.currentGravityZone] is a [Set] of zone ids. *)
Definition setHas (s : list nat) (k : nat) : bool := existsb (Nat.eqb k) s.
Definition setAdd (s : list nat) (k : nat) : list nat :=
  if setHas s k then s else s ++ [k].
Definition setDelete (s : list nat) (k : nat) : list nat :=
  filter (fun j => negb (Nat.eqb k j)) s.

(** The body [checkGravityZones] runs for one zone. *)
Definition checkGravityZone (deltaTime : Q) (zone : Zone.t) (player : Player.t)
    : Zone.t * Player.t :=
  let isInZone := checkCollision (Player.rect player) (Zone.rect zone) in
  let wasInZone := setHas (Player.currentGravityZone player) (Zone.id zone) in
  let zone :=
    if timerFalsy (Zone.cooldownTimer zone)
    then Zone.set_runtime zone (Zone.hasActivated zone) (Some 0)
    else zone in
  let zone :=
    match Zone.cooldownTimer zone with
    | Some t => if Qgtb t 0
                then Zone.set_runtime zone (Zone.hasActivated zone) (Some (t - deltaTime))
                else zone
    | None => zone
    end in
  let '(zone, player) :=
    if isInZone && negb wasInZone then
      let player :=
        Player.set_currentGravityZone player
          (setAdd (Player.currentGravityZone player) (Zone.id zone)) in
      if String.eqb (Zone.trigger zone) "enter"
         && timerLe0 (Zone.cooldownTimer zone)
         && negb (Player.gravityLocked player)
      then activateGravityZone zone player
      else (zone, player)
    else if negb isInZone && wasInZone then
      let player :=
        Player.set_currentGravityZone player
          (setDelete (Player.currentGravityZone player) (Zone.id zone)) in
      if String.eqb (Zone.type zone) "momentary"
      then (zone, deactivateGravityZone zone player)
      else (zone, player)
    else (zone, player) in
  if isInZone
     && String.eqb (Zone.trigger zone) "contact"
     && timerLe0 (Zone.cooldownTimer zone)
     && negb (Player.gravityLocked player)
  then activateGravityZone zone player
  else (zone, player).

(** [gravityZones.forEach]: the zones in list order, the player threaded
    through them. *)
Fixpoint checkGravityZones (deltaTime : Q) (zones : list Zone.t) (player : Player.t)
    : list Zone.t * Player.t :=
  match zones with
  | [] => ([], player)
  | zone :: rest =>
      let '(zone', player') := checkGravityZone deltaTime zone player in
      let '(rest', player'') := checkGravityZones deltaTime rest player' in
      (zone' :: rest', player'')
  end.

(** ** Physics stepper: collision resolution *)

(** The body of the two horizontal [forEach] loops of [update]. *)
Definition resolveHorizontal (player : Player.t) (platform : Rect.t) : Player.t :=
  if checkCollision (Player.rect player) platform then
    if Qgtb (Player.vx player) 0 then
      Player.set_x player (Rect.x platform - Player.width player)
    else if Qltb (Player.vx player) 0 then
      Player.set_x player (Rect.x platform + Rect.width platform)
    else player
  else player.

Definition land (player : Player.t) (y' : Q) (grounded : bool) : Player.t :=
  let player := Player.set_vy (Player.set_y player y') 0 in
  if grounded then Player.set_onGround player true else player.

(** The body of the two vertical [forEach] loops of [update]. *)
Definition resolveVertical (player : Player.t) (platform : Rect.t) : Player.t :=
  if checkCollision (Player.rect player) platform then
    if Qgtb (Player.gravityScale player) 0 then
      if Qgtb (Player.vy player) 0 then
        land player (Rect.y platform - Player.height player) true
      else if Qltb (Player.vy player) 0 then
        land player (Rect.y platform + Rect.height platform) false
      else player
    else
      if Qltb (Player.vy player) 0 then
        land player (Rect.y platform + Rect.height platform) true
      else if Qgtb (Player.vy player) 0 then
        land player (Rect.y platform - Player.height player) false
      else player
  else player.

(** Horizontal resolution: platforms, then invisible platforms. *)
Definition horizontalResolution (platforms invisiblePlatforms : list Rect.t)
    (player : Player.t) : Player.t :=
  fold_left resolveHorizontal invisiblePlatforms
    (fold_left resolveHorizontal platforms player).

(** Vertical resolution: platforms, then invisible platforms. *)
Definition verticalResolution (platforms invisiblePlatforms : list Rect.t)
    (player : Player.t) : Player.t :=
  fold_left resolveVertical invisiblePlatforms
    (fold_left resolveVertical platforms player).

(** ** Level definitions and the global game state *)

(** One entry of a [gravityZones] parameter list; [None] is a property the
    object literal does not have. *)
Module ZoneConfig.
Record t : Type := mk {
  type : option string;
  trigger : option string;
  duration : option Q;
  cooldown : option Q;
  oneShot : option bool;
  initialActive : option bool
}.
(** The object literal [{}]. *)
Definition empty : t := mk None None None None None None.
End ZoneConfig.

Module Level.
Record t : Type := mk {
  map : list string;
  spikeTriggers : option (list Q);
  spikeTriggerLengths : option (list (option Q));  (* entries may be [null] *)
  gravityZones : option (list ZoneConfig.t)
}.
End Level.

Module Chapter.
Record t : Type := mk {
  levels : list Level.t;
  bonusLevel : option Level.t;
  gravityZones : option (list ZoneConfig.t)
}.
End Chapter.

(** The flattened [levels] array built when the script loads. *)
Definition levels (chapters : list Chapter.t) : list Level.t :=
  flat_map (fun chapter =>
              Chapter.levels chapter ++
              match Chapter.bonusLevel chapter with
              | Some l => [l]
              | None => []
              end) chapters.

Inductive GameState : Type :=
  | menu | settings | chapterSelect | levelSelect | customize
  | playing | paused | levelComplete.

Module Game.
Record t : Type := mk {
  canvas : Canvas.t;
  chapters : list Chapter.t;
  currentChapter : nat;
  currentLevel : nat;
  keys : Keys.t;
  gameState : GameState;
  player : Player.t;
  platforms : list Rect.t;
  fakeBlocks : list Rect.t;
  invisiblePlatforms : list Rect.t;
  spikes : list Spike.t;
  gravityZones : list Zone.t;
  door : option Rect.t;
  spawnPoint : option (Q * Q);
  deaths : nat;
  levelDeaths : nat;
  levelTime : Q;
  isDead : bool;
  deathFlashTimer : Q;
  levelCompleteTimer : Q
}.

Definition set_player (g : t) (v : Player.t) : t :=
  mk (canvas g) (chapters g) (currentChapter g) (currentLevel g) (keys g)
     (gameState g) v (platforms g) (fakeBlocks g) (invisiblePlatforms g)
     (spikes g) (gravityZones g) (door g) (spawnPoint g) (deaths g)
     (levelDeaths g) (levelTime g) (isDead g) (deathFlashTimer g)
     (levelCompleteTimer g).
(** Written by the key handlers, between frames. *)
Definition set_keys (g : t) (v : Keys.t) : t :=
  mk (canvas g) (chapters g) (currentChapter g) (currentLevel g) v
     (gameState g) (player g) (platforms g) (fakeBlocks g) (invisiblePlatforms g)
     (spikes g) (gravityZones g) (door g) (spawnPoint g) (deaths g)
     (levelDeaths g) (levelTime g) (isDead g) (deathFlashTimer g)
     (levelCompleteTimer g).
Definition set_spikes (g : t) (v : list Spike.t) : t :=
  mk (canvas g) (chapters g) (currentChapter g) (currentLevel g) (keys g)
     (gameState g) (player g) (platforms g) (fakeBlocks g) (invisiblePlatforms g)
     v (gravityZones g) (door g) (spawnPoint g) (deaths g)
     (levelDeaths g) (levelTime g) (isDead g) (deathFlashTimer g)
     (levelCompleteTimer g).
Definition set_gravityZones (g : t) (v : list Zone.t) : t :=
  mk (canvas g) (chapters g) (currentChapter g) (currentLevel g) (keys g)
     (gameState g) (player g) (platforms g) (fakeBlocks g) (invisiblePlatforms g)
     (spikes g) v (door g) (spawnPoint g) (deaths g)
     (levelDeaths g) (levelTime g) (isDead g) (deathFlashTimer g)
     (levelCompleteTimer g).
Definition set_levelTime (g : t) (v : Q) : t :=
  mk (canvas g) (chapters g) (currentChapter g) (currentLevel g) (keys g)
     (gameState g) (player g) (platforms g) (fakeBlocks g) (invisiblePlatforms g)
     (spikes g) (gravityZones g) (door g) (spawnPoint g) (deaths g)
     (levelDeaths g) v (isDead g) (deathFlashTimer g)
     (levelCompleteTimer g).
(** The four variables [die] and [resetPlayer] write. *)
Definition set_death (g : t) (isDead' : bool) (deathFlashTimer' : Q)
    (deaths' levelDeaths' : nat) : t :=
  mk (canvas g) (chapters g) (currentChapter g) (currentLevel g) (keys g)
     (gameState g) (player g) (platforms g) (fakeBlocks g) (invisiblePlatforms g)
     (spikes g) (gravityZones g) (door g) (spawnPoint g) deaths'
     levelDeaths' (levelTime g) isDead' deathFlashTimer'
     (levelCompleteTimer g).
(** The two variables [completeLevel] writes. *)
Definition set_flow (g : t) (gameState' : GameState) (levelCompleteTimer' : Q) : t :=
  mk (canvas g) (chapters g) (currentChapter g) (currentLevel g) (keys g)
     gameState' (player g) (platforms g) (fakeBlocks g) (invisiblePlatforms g)
     (spikes g) (gravityZones g) (door g) (spawnPoint g) (deaths g)
     (levelDeaths g) (levelTime g) (isDead g) (deathFlashTimer g)
     levelCompleteTimer'.
(** The lists and the two optional objects the first pass of [parseLevel]
    rebuilds. *)
Definition set_geometry (g : t) (platforms' fakeBlocks' invisiblePlatforms' : list Rect.t)
    (spikes' : list Spike.t) (door' : option Rect.t) (spawnPoint' : option (Q * Q)) : t :=
  mk (canvas g) (chapters g) (currentChapter g) (currentLevel g) (keys g)
     (gameState g) (player g) platforms' fakeBlocks' invisiblePlatforms'
     spikes' (gravityZones g) door' spawnPoint' (deaths g)
     (levelDeaths g) (levelTime g) (isDead g) (deathFlashTimer g)
     (levelCompleteTimer g).
End Game.

(** ** Death, completion, respawn *)

(** The assignments of [die()]: nothing when the player is dead already,
    else the flag, the flash timer and the two counters.  The call of
    [updateStats()] that closes [die()] changes none of them but can throw;
    the whole function, with that call, is [die] further down. *)
Definition dieWrites (g : Game.t) : Game.t :=
  if negb (Game.isDead g) then
    Game.set_death g true DEATH_FLASH_DURATION (S (Game.deaths g)) (S (Game.levelDeaths g))
  else g.

Definition completeLevel (g : Game.t) : Game.t :=
  Game.set_flow g levelComplete LEVEL_COMPLETE_DURATION.

Definition resetPlayer (g : Game.t) : Game.t :=
  let startX := match Game.spawnPoint g with
                | Some sp => fst sp
                | None => TILE_SIZE + 15
                end in
  let startY := match Game.spawnPoint g with
                | Some sp => snd sp
                | None => TILE_SIZE * 2
                end in
  let player :=
    Player.mk startX startY 45 45 0 0 false false 1 [] 0 0 false false 0 in
  let g := Game.set_player g player in
  let g := Game.set_spikes g (map resetSpike (Game.spikes g)) in
  Game.set_death g false 0 (Game.deaths g) (Game.levelDeaths g).

(** ** Physics stepper: one frame of the playing state *)

(** The gravity timers at the top of the playing branch. *)
Definition updateGravityTimers (deltaTime : Q) (player : Player.t) : Player.t :=
  let player :=
    if Qgtb (Player.gravityFlipTimer player) 0 then
      let player :=
        Player.set_gravityFlipTimer player (Player.gravityFlipTimer player - deltaTime) in
      if Qleb (Player.gravityFlipTimer player) 0 then
        Player.set_gravityIndicatorAlpha (Player.set_gravityScale player 1) 1
      else player
    else player in
  let player :=
    if Qgtb (Player.gravityFlipCooldown player) 0 then
      Player.set_gravityFlipCooldown player (Player.gravityFlipCooldown player - deltaTime)
    else player in
  if Qgtb (Player.gravityIndicatorAlpha player) 0 then
    Player.set_gravityIndicatorAlpha player
      (Player.gravityIndicatorAlpha player - deltaTime * 2)
  else player.

(** Horizontal intent, jump and gravity: the velocity part of the frame. *)
Definition applyInput (keys : Keys.t) (deltaTime : Q) (player : Player.t) : Player.t :=
  let player :=
    if Keys.left keys then Player.set_vx player (- MOVE_SPEED)
    else if Keys.right keys then Player.set_vx player MOVE_SPEED
    else Player.set_vx player 0 in
  let player :=
    if Keys.space keys && Player.onGround player && negb (Player.hasJumped player) then
      Player.set_hasJumped
        (Player.set_onGround
           (Player.set_vy player (JUMP_FORCE * Player.gravityScale player)) false) true
    else player in
  let player :=
    if negb (Keys.space keys) then Player.set_hasJumped player false else player in
  let effectiveGravity := GRAVITY * Player.gravityScale player in
  Player.set_vy player (Player.vy player + effectiveGravity * deltaTime).

(** [x += vx * dt], the clamp to the canvas, and horizontal resolution. *)
Definition moveHorizontal (canvas : Canvas.t) (platforms invisiblePlatforms : list Rect.t)
    (deltaTime : Q) (player : Player.t) : Player.t :=
  let player := Player.set_x player (Player.x player + Player.vx player * deltaTime) in
  let player := if Qltb (Player.x player) 0 then Player.set_x player 0 else player in
  let player :=
    if Qgtb (Player.x player + Player.width player) (Canvas.width canvas)
    then Player.set_x player (Canvas.width canvas - Player.width player)
    else player in
  horizontalResolution platforms invisiblePlatforms player.

(** [y += vy * dt], the reset of [onGround], and vertical resolution. *)
Definition moveVertical (platforms invisiblePlatforms : list Rect.t)
    (deltaTime : Q) (player : Player.t) : Player.t :=
  let player := Player.set_y player (Player.y player + Player.vy player * deltaTime) in
  let player := Player.set_onGround player false in
  verticalResolution platforms invisiblePlatforms player.

(** The player after the physics of one frame, as [checkSpikeTriggers]
    sees it. *)
Definition stepPlayer (g : Game.t) (deltaTime : Q) : Player.t :=
  let player :=
    if ENABLE_GRAVITY_ZONES then updateGravityTimers deltaTime (Game.player g)
    else Game.player g in
  let player := applyInput (Game.keys g) deltaTime player in
  let player :=
    moveHorizontal (Game.canvas g) (Game.platforms g) (Game.invisiblePlatforms g)
      deltaTime player in
  moveVertical (Game.platforms g) (Game.invisiblePlatforms g) deltaTime player.

(** The playing branch of [update] in its successive steps.  First the
    level time and the physics of the player. *)
Definition physicsStep (deltaTime : Q) (g : Game.t) : Game.t :=
  let g := Game.set_levelTime g (Game.levelTime g + deltaTime) in
  Game.set_player g (stepPlayer g deltaTime).

(** [checkSpikeTriggers()]. *)
Definition triggerStep (g : Game.t) : Game.t :=
  Game.set_spikes g (checkSpikeTriggers (Game.player g) (Game.spikes g)).

(** [checkGravityZones(deltaTime)]. *)
Definition zoneStep (deltaTime : Q) (g : Game.t) : Game.t :=
  if ENABLE_GRAVITY_ZONES then
    let result := checkGravityZones deltaTime (Game.gravityZones g) (Game.player g) in
    Game.set_player (Game.set_gravityZones g (fst result)) (snd result)
  else g.

(** "Update moving spikes". *)
Definition animateStep (deltaTime : Q) (g : Game.t) : Game.t :=
  Game.set_spikes g (advanceSpikes deltaTime (Game.spikes g)).

(** The writes of "Spike collision (death)": [die()] acts once, at the
    first hit. *)
Definition spikeDeathStep (g : Game.t) : Game.t :=
  if existsb (fun spike => checkCollision (Player.rect (Game.player g)) (Spike.rect spike))
       (Game.spikes g)
  then dieWrites g else g.

(** "Door collision (level complete)". *)
Definition doorStep (g : Game.t) : Game.t :=
  match Game.door g with
  | Some door =>
      if checkCollision (Player.rect (Game.player g)) door then completeLevel g else g
  | None => g
  end.

(** The writes of "Fall off screen = death". *)
Definition fallStep (g : Game.t) : Game.t :=
  if Qgtb (Player.y (Game.player g)) (Canvas.height (Game.canvas g) + 100)
  then dieWrites g else g.

(** The part of [update] that runs when no transition is in progress,
    [gameState] is ['playing'], the player is alive and the game is not
    paused: the game state it computes.  Whether the frame returns at all
    is decided by the [updateStats()] of [die()]; [updatePlayingSession]
    further down is the same branch with that call and with the progress
    [completeLevel] records. *)
Definition updatePlaying (deltaTime : Q) (g : Game.t) : Game.t :=
  fallStep
    (doorStep
       (spikeDeathStep
          (animateStep deltaTime
             (zoneStep deltaTime
                (triggerStep
                   (physicsStep deltaTime g)))))).

(** The playing branch while the death flash runs. *)
Definition updateDead (deltaTime : Q) (g : Game.t) : Game.t :=
  let g :=
    Game.set_death g (Game.isDead g) (Game.deathFlashTimer g - deltaTime)
      (Game.deaths g) (Game.levelDeaths g) in
  if Qleb (Game.deathFlashTimer g) 0 then resetPlayer g else g.

(** ** Frame loop *)

(** [gameLoop]: the delta time it hands to [update] and the new [lastTime],
    or [None] when the game is paused and the frame is skipped.  Times are
    the milliseconds of [requestAnimationFrame]. *)
Definition gameLoop (isPaused : bool) (lastTime currentTime : Q) : option (Q * Q) :=
  if isPaused then None
  else
    let deltaTime := (currentTime - lastTime) / 1000 in
    Some (deltaTime, currentTime).

(** ** Level parser *)

(** A call that reads a property of [undefined] throws a [TypeError]. *)
Inductive Result (A : Type) : Type :=
  | Ok (a : A)
  | TypeError.
Arguments Ok {A} a.
Arguments TypeError {A}.

(** The elements of an array (or the characters of a string) with their
    indices, as a counting [for] loop visits them. *)
Definition indexed {A : Type} (l : list A) : list (Z * A) :=
  combine (List.map Z.of_nat (seq 0 (List.length l))) l.

(** The cells [(row, col, char)] of a level map in the order of the two
    nested [for] loops: row-major. *)
Definition cells (levelMap : list string) : list (Z * Z * ascii) :=
  flat_map (fun '(row, line) =>
              map (fun '(col, char) => (row, col, char))
                  (indexed (list_ascii_of_string line)))
           (indexed levelMap).

(** [/^[0-9]$/.test(char)] together with [parseInt(char, 10)]. *)
Definition digitValue (char : ascii) : option Z :=
  let n := nat_of_ascii char in
  if (48 <=? n)%nat && (n <=? 57)%nat then Some (Z.of_nat (n - 48)) else None.

(** What the first pass of [parseLevel] builds. *)
Module Pass1.
Record t : Type := mk {
  platforms : list Rect.t;
  fakeBlocks : list Rect.t;
  invisiblePlatforms : list Rect.t;
  spikes : list Spike.t;
  door : option Rect.t;
  spawnPoint : option (Q * Q);
  spikeIndex : nat
}.
(** The state after the six assignments that open [parseLevel]. *)
Definition init : t := mk [] [] [] [] None None 0.
End Pass1.

Definition defaultTriggerOffset : Q := - (1 # 2).

(** The spike object pushed for a digit or [^] cell. *)
Definition makeSpike (canvas : Canvas.t) (customTriggers : list Q)
    (customTriggerLengths : list (option Q)) (spikeIndex : nat)
    (x y moveDistance : Q) : Spike.t :=
  let triggerOffset :=
    match nth_error customTriggers spikeIndex with
    | Some o => o
    | None => defaultTriggerOffset
    end in
  let triggerX := x - (triggerOffset * TILE_SIZE) in
  let triggerLength :=
    match nth_error customTriggerLengths spikeIndex with
    | Some (Some l) => Some l
    | _ => None
    end in
  let fullHeight := (0, Canvas.height canvas) in
  let '(triggerY, triggerHeight) :=
    match triggerLength with
    | None => fullHeight
    | Some l =>
        if Qeq_bool l 0 then fullHeight
        else
          let spikeTopY := y + 20 in
          if Qgtb l 0 then (spikeTopY - l, l)
          else (spikeTopY, Qabs l)
    end in
  Spike.mk x (y + 20) x TILE_SIZE (TILE_SIZE - 20) moveDistance
           triggerX triggerY triggerHeight triggerOffset triggerLength
           false false false 0.

(** The body of the inner loop of the first pass. *)
Definition parseCell (canvas : Canvas.t) (customTriggers : list Q)
    (customTriggerLengths : list (option Q))
    (st : Pass1.t) (cell : Z * Z * ascii) : Pass1.t :=
  let '(row, col, char) := cell in
  let x := inject_Z col * TILE_SIZE in
  let y := inject_Z row * TILE_SIZE in
  let tile := Rect.mk x y TILE_SIZE TILE_SIZE in
  let '(Pass1.mk platforms fakeBlocks invisiblePlatforms spikes door spawnPoint spikeIndex) := st in
  if Ascii.eqb char "#" then
    Pass1.mk (platforms ++ [tile]) fakeBlocks invisiblePlatforms spikes door spawnPoint spikeIndex
  else if Ascii.eqb char "F" then
    Pass1.mk platforms (fakeBlocks ++ [tile]) invisiblePlatforms spikes door spawnPoint spikeIndex
  else if Ascii.eqb char "I" then
    Pass1.mk platforms fakeBlocks (invisiblePlatforms ++ [tile]) spikes door spawnPoint spikeIndex
  else
    match (if Ascii.eqb char "^" then Some (TILE_SIZE * 2)
           else match digitValue char with
                | Some d => Some (TILE_SIZE * inject_Z d)
                | None => None
                end) with
    | Some moveDistance =>
        Pass1.mk platforms fakeBlocks invisiblePlatforms
          (spikes ++ [makeSpike canvas customTriggers customTriggerLengths
                        spikeIndex x y moveDistance])
          door spawnPoint (S spikeIndex)
    | None =>
        if Ascii.eqb char "D" then
          Pass1.mk platforms fakeBlocks invisiblePlatforms spikes (Some tile) spawnPoint spikeIndex
        else if Ascii.eqb char "S" then
          Pass1.mk platforms fakeBlocks invisiblePlatforms spikes door (Some (x + 15, y)) spikeIndex
        else st
    end.

Definition orEmpty {A : Type} (o : option (list A)) : list A :=
  match o with Some l => l | None => [] end.

Definition parseGeometry (canvas : Canvas.t) (levelData : Level.t) : Pass1.t :=
  fold_left
    (parseCell canvas (orEmpty (Level.spikeTriggers levelData))
               (orEmpty (Level.spikeTriggerLengths levelData)))
    (cells (Level.map levelData)) Pass1.init.

(** *** Gravity-zone detection *)

Definition isZoneChar (char : ascii) : bool :=
  Ascii.eqb char "G" || Ascii.eqb char "g".

Definition zoneMarkers (levelMap : list string) : list (Z * Z * ascii) :=
  filter (fun '(_, _, char) => isZoneChar char) (cells levelMap).

Module Bounds.
Record t : Type := mk { minRow : Z; maxRow : Z; minCol : Z; maxCol : Z }.
End Bounds.

(** [processedPositions]: a [Set] of the keys ["row,col"]. *)
Definition posHas (s : list (Z * Z)) (row col : Z) : bool :=
  existsb (fun '(r, c) => Z.eqb r row && Z.eqb c col) s.

(** [levelMap[row][col]] under the bounds test of the flood fill. *)
Definition charAt (levelMap : list string) (row col : Z) : option ascii :=
  if (0 <=? row)%Z && (row <? Z.of_nat (List.length levelMap))%Z then
    match nth_error levelMap (Z.to_nat row) with
    | Some line =>
        if (0 <=? col)%Z && (col <? Z.of_nat (String.length line))%Z
        then nth_error (list_ascii_of_string line) (Z.to_nat col)
        else None
    | None => None
    end
  else None.

Definition directions : list (Z * Z) := [(0, 1); (0, -1); (1, 0); (-1, 0)]%Z.

(** The "check adjacent cells" loop; the head of [stack] is its top. *)
Definition pushNeighbours (levelMap : list string) (processed : list (Z * Z))
    (row col : Z) (stack : list (Z * Z * ascii)) : list (Z * Z * ascii) :=
  fold_left
    (fun stack '(dr, dc) =>
       let newRow := (row + dr)%Z in
       let newCol := (col + dc)%Z in
       match charAt levelMap newRow newCol with
       | Some char =>
           if isZoneChar char && negb (posHas processed newRow newCol)
           then (newRow, newCol, char) :: stack
           else stack
       | None => stack
       end)
    directions stack.

(** The [while (stack.length > 0)] loop, [fuel] iterations at most; it
    returns the stack it stopped with, [[]] when the loop ran to its end. *)
Fixpoint floodFill (levelMap : list string) (fuel : nat)
    (stack : list (Z * Z * ascii)) (processed : list (Z * Z)) (zone : Bounds.t)
    : list (Z * Z * ascii) * list (Z * Z) * Bounds.t :=
  match fuel with
  | O => (stack, processed, zone)
  | S fuel =>
      match stack with
      | [] => (stack, processed, zone)
      | (row, col, _) :: stack =>
          if posHas processed row col then floodFill levelMap fuel stack processed zone
          else
            let processed := (row, col) :: processed in
            let zone :=
              Bounds.mk (Z.min (Bounds.minRow zone) row) (Z.max (Bounds.maxRow zone) row)
                        (Z.min (Bounds.minCol zone) col) (Z.max (Bounds.maxCol zone) col) in
            floodFill levelMap fuel (pushNeighbours levelMap processed row col stack)
                      processed zone
      end
  end.

(** Iterations that always suffice: a marker is processed once and pushes
    four cells at most. *)
Definition floodFuel (levelMap : list string) : nat :=
  4 * List.length (zoneMarkers levelMap) + 2.

(** [zoneMarkers.forEach]: group the connected markers. *)
Definition detectZones (levelMap : list string) : list Bounds.t :=
  snd
    (fold_left
       (fun '(processed, detectedZones) '(row, col, char) =>
          if posHas processed row col then (processed, detectedZones)
          else
            let zone := Bounds.mk row row col col in
            let '(_, processed, zone) :=
              floodFill levelMap (floodFuel levelMap) [(row, col, char)] processed zone in
            (processed, detectedZones ++ [zone]))
       (zoneMarkers levelMap) ([], [])).

(** [a || b] on strings: the empty string is falsy. *)
Definition stringOr (o : option string) (default : string) : string :=
  match o with
  | Some s => if String.eqb s "" then default else s
  | None => default
  end.

Definition lookupConfig (configs : option (list ZoneConfig.t)) (index : nat)
    : option ZoneConfig.t :=
  match configs with
  | Some l => nth_error l index
  | None => None
  end.

(** [(chapterData.gravityZones && chapterData.gravityZones[index]) ||
    (levelData.gravityZones && levelData.gravityZones[index]) || {}]. *)
Definition selectConfig (chapterData : Chapter.t) (levelData : Level.t)
    (index : nat) : ZoneConfig.t :=
  match lookupConfig (Chapter.gravityZones chapterData) index with
  | Some c => c
  | None =>
      match lookupConfig (Level.gravityZones levelData) index with
      | Some c => c
      | None => ZoneConfig.empty
      end
  end.

(** The gravity-zone object pushed for the detected zone [index]. *)
Definition makeZone (chapterData : Chapter.t) (levelData : Level.t)
    (index : nat) (zone : Bounds.t) : Zone.t :=
  let zoneConfig := selectConfig chapterData levelData index in
  let x := inject_Z (Bounds.minCol zone) * TILE_SIZE in
  let y := inject_Z (Bounds.minRow zone) * TILE_SIZE in
  let width := inject_Z (Bounds.maxCol zone - Bounds.minCol zone + 1) * TILE_SIZE in
  let height := inject_Z (Bounds.maxRow zone - Bounds.minRow zone + 1) * TILE_SIZE in
  Zone.mk index x y width height
    (stringOr (ZoneConfig.type zoneConfig) "flip")
    (stringOr (ZoneConfig.trigger zoneConfig) "enter")
    (ZoneConfig.duration zoneConfig)
    (match ZoneConfig.cooldown zoneConfig with Some c => c | None => 1 # 2 end)
    (match ZoneConfig.oneShot zoneConfig with Some b => b | None => false end)
    (match ZoneConfig.initialActive zoneConfig with Some b => b | None => false end)
    false None.

(** [detectedZones.forEach((zone, index) => ...)]; [chapterData] is
    [chapters[currentChapter]], and reading [gravityZones] of an undefined
    chapter throws at the first detected zone. *)
Definition parseGravityZones (chapterData : option Chapter.t) (levelData : Level.t)
    : Result (list Zone.t) :=
  let detectedZones := detectZones (Level.map levelData) in
  match chapterData, detectedZones with
  | None, _ :: _ => TypeError
  | None, [] => Ok []
  | Some chapterData, _ =>
      Ok (map (fun '(index, zone) => makeZone chapterData levelData (Z.to_nat index) zone)
              (indexed detectedZones))
  end.

(** [parseLevel]: everything it builds is a function of the canvas and of
    the static level and chapter definitions. *)
Definition parseLevel (g : Game.t) : Result Game.t :=
  match nth_error (levels (Game.chapters g)) (Game.currentLevel g) with
  | None => TypeError
  | Some levelData =>
      let st := parseGeometry (Game.canvas g) levelData in
      let g :=
        Game.set_geometry g (Pass1.platforms st) (Pass1.fakeBlocks st)
          (Pass1.invisiblePlatforms st) (Pass1.spikes st) (Pass1.door st)
          (Pass1.spawnPoint st) in
      if ENABLE_GRAVITY_ZONES then
        match parseGravityZones (nth_error (Game.chapters g) (Game.currentChapter g))
                levelData with
        | Ok zones => Ok (Game.set_gravityZones g zones)
        | TypeError => TypeError
        end
      else Ok g
  end.

(** ** Vocabulary of the properties: spikes *)

(** What one frame of the playing state does to a spike: the trigger test
    against the player the physics produced, then the animation step. *)
Definition spikeFrame (player : Player.t) (deltaTime : Q) (spike : Spike.t) : Spike.t :=
  advanceSpike deltaTime (checkSpikeTrigger player spike).

(** A spike over a sequence of frames, each given by the player the
    trigger test sees and the frame's delta time. *)
Definition spikeRun (frames : list (Player.t * Q)) (spike : Spike.t) : Spike.t :=
  fold_left (fun s f => spikeFrame (fst f) (snd f) s) frames spike.

Definition totalTime (frames : list (Player.t * Q)) : Q :=
  fold_right (fun f acc => snd f + acc) 0 frames.


(** The player's horizontal span contains the trigger line: left edge
    strictly before it, right edge at or past it. *)
Definition straddles (player : Player.t) (spike : Spike.t) : Prop :=
  Player.x player < Spike.triggerX spike /\
  Spike.triggerX spike <= Player.x player + Player.width player.

(** The player's vertical span meets [[triggerY, triggerY + triggerHeight]]. *)
Definition withinWindow (player : Player.t) (spike : Spike.t) : Prop :=
  Spike.triggerY spike <= Player.y player + Player.height player /\
  Player.y player <= Spike.triggerY spike + Spike.triggerHeight spike.



(** ** A level for the spike scenarios *)

(** The spawn tile is in the top-left corner with nothing beneath it; the
    one spike (row 3, column 2) has its trigger line 1.5 tiles to its left,
    at x = 30, inside the spawn position's span [[15, 60]], and a trigger
    window of 80 pixels above the spike top: [[120, 200]]. *)
Definition dropLevel : Level.t :=
  Level.mk ["S....."; "......"; "......"; "..2..."; "######"]%string
           (Some [3 # 2]) (Some [Some 80]) None.



(** [n] frames of the playing state at a constant delta time. *)
Fixpoint frames (n : nat) (deltaTime : Q) (g : Game.t) : Game.t :=
  match n with
  | O => g
  | S n => updatePlaying deltaTime (frames n deltaTime g)
  end.


(** A spike in the state [checkSpikeTriggers] leaves it in when it fires,
    and a player standing away from every trigger line. *)
Definition firedSpike : Spike.t :=
  Spike.mk 120 200 120 60 40 120 30 0 720 (3 # 2) None true false true 0.
Definition farPlayer : Player.t :=
  Player.mk 600 15 45 45 0 0 true false 1 [] 0 0 false false 0.

(** ** Vocabulary of the properties: gravity zones *)

(** The two early returns of [activateGravityZone]. *)
Definition refuses (zone : Zone.t) : bool :=
  (Zone.oneShot zone && Zone.hasActivated zone) || timerGt0 (Zone.cooldownTimer zone).

(** [zone.cooldown || 1.0]. *)
Definition cooldownOrDefault (zone : Zone.t) : Q :=
  if Qeq_bool (Zone.cooldown zone) 0 then 1 else Zone.cooldown zone.

(** [activateGravityZone] called [n] times in a row on the same zone, the
    player replaced by an arbitrary one between the calls. *)
Fixpoint activateMany (players : list Player.t) (zone : Zone.t) (player : Player.t)
    : Zone.t * Player.t :=
  match players with
  | [] => activateGravityZone zone player
  | next :: rest =>
      let '(zone', _) := activateGravityZone zone player in
      activateMany rest zone' next
  end.

Definition flipZone : Zone.t :=
  Zone.mk 0 120 0 120 120 "flip" "enter" (Some 2) 0 false false false (Some 0).
Definition usedOneShotZone : Zone.t :=
  Zone.mk 0 120 0 120 120 "flip" "enter" None (1 # 2) true false true (Some 0).
(** A flip zone 0.3 s into its cooldown. *)
Definition coolingZone : Zone.t :=
  Zone.mk 0 120 0 120 120 "flip" "contact" None (1 # 2) false false true (Some (3 # 10)).
Definition fallingPlayer : Player.t :=
  Player.mk 130 15 45 45 0 400 false false 1 [] 0 0 false false 0.

(** A chapter whose first gravity zone is configured with a negative
    cooldown, and the zone the parser makes of it. *)
Definition negativeCooldownChapter : Chapter.t :=
  Chapter.mk [dropLevel] None
    (Some [ZoneConfig.mk (Some "flip"%string) None None (Some (- (1))) None None]).
Definition negativeCooldownZone : Zone.t :=
  makeZone negativeCooldownChapter dropLevel 0 (Bounds.mk 0 1 2 3).

(** A chapter whose first gravity zone is configured with a zero cooldown. *)
Definition zeroCooldownChapter : Chapter.t :=
  Chapter.mk [dropLevel] None
    (Some [ZoneConfig.mk (Some "flip"%string) None None (Some 0) None None]).

(** ** Vocabulary of the properties: physics *)



(** A spawn tile directly above a two-tile floor. *)
Definition floorLevel : Level.t :=
  Level.mk ["S."; "##"]%string None None None.







(** A player inside a solid tile, with and without velocity. *)
Definition solidTile : Rect.t := Rect.mk 60 60 60 60.


(** ** Vocabulary of the properties: parser *)

(** The lists and objects [parseLevel] builds. *)
Definition geometry (g : Game.t)
    : list Rect.t * list Rect.t * list Rect.t * list Spike.t
      * option Rect.t * option (Q * Q) * list Zone.t :=
  (Game.platforms g, Game.fakeBlocks g, Game.invisiblePlatforms g, Game.spikes g,
   Game.door g, Game.spawnPoint g, Game.gravityZones g).

(** Two game states with the same canvas and the same selected level of
    the same chapter list: everything else may differ. *)
Definition sameDefinition (g1 g2 : Game.t) : Prop :=
  Game.canvas g1 = Game.canvas g2 /\
  Game.chapters g1 = Game.chapters g2 /\
  Game.currentChapter g1 = Game.currentChapter g2 /\
  Game.currentLevel g1 = Game.currentLevel g2.

(** The markers not yet in [processedPositions]. *)
Definition unprocessed (levelMap : list string) (processed : list (Z * Z)) : nat :=
  List.length
    (filter (fun '(row, col, _) => negb (posHas processed row col))
            (zoneMarkers levelMap)).

(** A level with three spikes, a trigger override for the first only and
    a length override for the second only. *)
Definition spikesLevel : Level.t :=
  Level.mk ["S.1.2.3"; "#######"]%string (Some [-3]) (Some [None; Some 80]) None.

Definition spikesGame : Game.t :=
  Game.mk (Canvas.mk 1200 720) [Chapter.mk [spikesLevel] None None] 0 0
          (Keys.mk false false false false) playing
          (Player.mk 0 0 45 45 0 0 false false 1 [] 0 0 false false 0)
          [] [] [] [] [] None None 0 0 0 false 0 0.

(** The first pass keeps [spikeIndex] equal to the number of spikes pushed
    so far, so the spike at list index [i] was built with [spikeIndex = i]. *)
Definition spikesIndexed (canvas : Canvas.t) (customTriggers : list Q)
    (customTriggerLengths : list (option Q)) (st : Pass1.t) : Prop :=
  Pass1.spikeIndex st = List.length (Pass1.spikes st) /\
  forall i spike, nth_error (Pass1.spikes st) i = Some spike ->
    exists x y moveDistance,
      spike = makeSpike canvas customTriggers customTriggerLengths i x y moveDistance.

(** [spikesGame] after [parseLevel]. *)
Definition spikesParsed : Game.t :=
  match parseLevel spikesGame with
  | Ok g' => g'
  | TypeError => spikesGame
  end.

(** What [parseLevel] builds, as a function of the canvas and the static
    definitions alone. *)
Definition parsed (canvas : Canvas.t) (chapters : list Chapter.t)
    (currentChapter currentLevel : nat) : Result (Pass1.t * list Zone.t) :=
  match nth_error (levels chapters) currentLevel with
  | None => TypeError
  | Some levelData =>
      match parseGravityZones (nth_error chapters currentChapter) levelData with
      | Ok zones => Ok (parseGeometry canvas levelData, zones)
      | TypeError => TypeError
      end
  end.

(** The parsed lists stored in the game state. *)
Definition install (g : Game.t) (st : Pass1.t) (zones : list Zone.t) : Game.t :=
  Game.set_gravityZones
    (Game.set_geometry g (Pass1.platforms st) (Pass1.fakeBlocks st)
       (Pass1.invisiblePlatforms st) (Pass1.spikes st) (Pass1.door st)
       (Pass1.spawnPoint st))
    zones.

(** A game state after play: the spike has moved, a zone has fired, the
    player is elsewhere. *)
Definition playedGame : Game.t :=
  Game.mk (Canvas.mk 1200 720) [Chapter.mk [spikesLevel] None None] 0 0
          (Keys.mk false true false false) playing
          farPlayer
          [solidTile] [solidTile] [] [firedSpike] [usedOneShotZone]
          (Some solidTile) (Some (0, 0)) 3 2 (7 # 2) false 0 0.

(** ** The frame loop of the earlier revision of game.js *)

Module Prototype.
(** [gameLoop] with its two "safety caps": a delta over 100 ms is
    replaced by 16.67 ms, and the delta in seconds is capped at 0.1. *)
Definition gameLoop (isPaused : bool) (lastTime currentTime : Q) : option (Q * Q) :=
  if isPaused then None
  else
    let deltaTime := currentTime - lastTime in
    let deltaTime := if Qgtb deltaTime 100 then 1667 # 100 else deltaTime in
    let deltaTime := Qmin (deltaTime / 1000) (1 # 10) in
    Some (deltaTime, currentTime).
End Prototype.

(** ** Chapter and level indices *)

(** [chapters[i].levels.length + (chapters[i].bonusLevel ? 1 : 0)]. *)
Definition chapterTotalLevels (chapter : Chapter.t) : nat :=
  (List.length (Chapter.levels chapter)
   + match Chapter.bonusLevel chapter with Some _ => 1 | None => 0 end)%nat.

(** The loop of [getChapterFromGlobalLevel], entered at chapter [i] with
    [currentIndex] levels counted so far. *)
Fixpoint getChapterFrom (chapters : list Chapter.t) (i currentIndex globalLevelIndex : nat)
    : nat :=
  match chapters with
  | [] => 0%nat
  | chapter :: rest =>
      if (globalLevelIndex <? currentIndex + chapterTotalLevels chapter)%nat then i
      else getChapterFrom rest (S i) (currentIndex + chapterTotalLevels chapter)
             globalLevelIndex
  end.

Definition getChapterFromGlobalLevel (chapters : list Chapter.t)
    (globalLevelIndex : nat) : nat :=
  getChapterFrom chapters 0 0 globalLevelIndex.

(** The loop of [getLevelInChapterFromGlobalLevel]. *)
Fixpoint getLevelInChapterFrom (chapters : list Chapter.t)
    (currentIndex globalLevelIndex : nat) : nat :=
  match chapters with
  | [] => 0%nat
  | chapter :: rest =>
      if (globalLevelIndex <? currentIndex + chapterTotalLevels chapter)%nat
      then (globalLevelIndex - currentIndex)%nat
      else getLevelInChapterFrom rest (currentIndex + chapterTotalLevels chapter)
             globalLevelIndex
  end.

Definition getLevelInChapterFromGlobalLevel (chapters : list Chapter.t)
    (globalLevelIndex : nat) : nat :=
  getLevelInChapterFrom chapters 0 globalLevelIndex.

(** The loop [for (i = 0; i < chapterIndex; i++)] shared by
    [getGlobalLevelIndex] and [getBonusLevelGlobalIndex]: it reads
    [chapters[i].levels] and throws when there is no such chapter. *)
Fixpoint countLevelsBefore (chapters : list Chapter.t) (chapterIndex globalIndex : nat)
    : Result nat :=
  match chapterIndex with
  | O => Ok globalIndex
  | S n =>
      match chapters with
      | [] => TypeError
      | chapter :: rest =>
          countLevelsBefore rest n (globalIndex + chapterTotalLevels chapter)
      end
  end.

Definition getGlobalLevelIndex (chapters : list Chapter.t)
    (chapterIndex levelInChapter : nat) : Result nat :=
  match countLevelsBefore chapters chapterIndex 0 with
  | Ok globalIndex => Ok (globalIndex + levelInChapter)%nat
  | TypeError => TypeError
  end.

Definition getBonusLevelGlobalIndex (chapters : list Chapter.t) (chapterIndex : nat)
    : Result nat :=
  match countLevelsBefore chapters chapterIndex 0 with
  | Ok globalIndex =>
      match nth_error chapters chapterIndex with
      | Some chapter => Ok (globalIndex + List.length (Chapter.levels chapter))%nat
      | None => TypeError
      end
  | TypeError => TypeError
  end.

(** The levels a chapter contributes to the flattened [levels] array. *)
Definition chapterAllLevels (chapter : Chapter.t) : list Level.t :=
  Chapter.levels chapter ++
  match Chapter.bonusLevel chapter with Some l => [l] | None => [] end.

(** ** Progress: stars, completion, unlocking *)

(** [STAR_THRESHOLDS] and [calculateStars]; deaths are counted from 0. *)
Definition calculateStars (deaths : nat) : nat :=
  if (deaths =? 0)%nat then 3%nat
  else if (deaths <=? 3)%nat then 2%nat
  else if (deaths <=? 10)%nat then 1%nat
  else 0%nat.

Module Progress.
Record t : Type := mk {
  completedLevels : list Z;        (* a [Set] of global level indices *)
  levelStars : list (Z * nat);     (* the object [{ globalLevelIndex: stars }] *)
  playerColor : string;
  playerTrail : string
}.
End Progress.

(** [completedLevels.has] and [completedLevels.add]. *)
Definition completedHas (s : list Z) (k : Z) : bool := existsb (Z.eqb k) s.
Definition completedAdd (s : list Z) (k : Z) : list Z :=
  if completedHas s k then s else s ++ [k].

(** [levelStars[k] || 0] and [levelStars[k] = v]. *)
Fixpoint starsOf (stars : list (Z * nat)) (k : Z) : nat :=
  match stars with
  | [] => 0%nat
  | (j, v) :: rest => if Z.eqb j k then v else starsOf rest k
  end.
Fixpoint starsSet (stars : list (Z * nat)) (k : Z) (v : nat) : list (Z * nat) :=
  match stars with
  | [] => [(k, v)]
  | (j, w) :: rest => if Z.eqb j k then (j, v) :: rest else (j, w) :: starsSet rest k v
  end.

(** What [saveProgress] stores, as [JSON.parse] gives it back: every
    property may be missing from a string written by something else. *)
Module Saved.
Record t : Type := mk {
  completedLevels : option (list Z);
  levelStars : option (list (Z * nat));
  playerColor : option string;
  playerTrail : option string
}.
End Saved.

(** [new Set(array)]: the elements in order, repeats dropped. *)
Definition setOfArray (a : list Z) : list Z := fold_left completedAdd a [].

(** [localStorage]: the item ['disbelieveProgress'], and whether the
    storage can be used at all ([getItem] and [setItem] throw when it
    cannot; both callers swallow the exception). *)
Module Storage.
Record t : Type := mk { available : bool; item : option Saved.t }.
End Storage.

Definition saveProgress (p : Progress.t) (storage : Storage.t) : Storage.t :=
  if Storage.available storage then
    Storage.mk true
      (Some (Saved.mk (Some (Progress.completedLevels p)) (Some (Progress.levelStars p))
                      (Some (Progress.playerColor p)) (Some (Progress.playerTrail p))))
  else storage.

Definition loadProgress (storage : Storage.t) (p : Progress.t) : Progress.t :=
  if Storage.available storage then
    match Storage.item storage with
    | Some parsed =>
        Progress.mk
          (setOfArray (match Saved.completedLevels parsed with Some a => a | None => [] end))
          (match Saved.levelStars parsed with Some o => o | None => [] end)
          (stringOr (Saved.playerColor parsed) "#4488ff")
          (stringOr (Saved.playerTrail parsed) "none")
    | None => p
    end
  else p.

(** [resetProgress], without the [deaths] counter it also clears. *)
Definition resetProgress (storage : Storage.t) : Progress.t * Storage.t :=
  (Progress.mk [] [] "#888888" "none",
   if Storage.available storage then Storage.mk true None else storage).

(** [markLevelComplete(globalIndex)], reading [levelDeaths]. *)
Definition markLevelComplete (globalIndex : Z) (levelDeaths : nat)
    (p : Progress.t) (storage : Storage.t) : Progress.t * Storage.t :=
  let completed := completedAdd (Progress.completedLevels p) globalIndex in
  let stars := calculateStars levelDeaths in
  let currentStars := starsOf (Progress.levelStars p) globalIndex in
  let levelStars :=
    if (currentStars <? stars)%nat
    then starsSet (Progress.levelStars p) globalIndex stars
    else Progress.levelStars p in
  let p := Progress.mk completed levelStars (Progress.playerColor p)
                       (Progress.playerTrail p) in
  (p, saveProgress p storage).

(** [isChapterCompleted]: the regular levels only. *)
Definition isChapterCompleted (chapters : list Chapter.t) (completed : list Z)
    (chapterIndex : nat) : Result bool :=
  match nth_error chapters chapterIndex with
  | None => Ok false
  | Some chapter =>
      match countLevelsBefore chapters chapterIndex 0 with
      | Ok globalIndex =>
          Ok (forallb (fun i => completedHas completed (Z.of_nat (globalIndex + i)))
                      (seq 0 (List.length (Chapter.levels chapter))))
      | TypeError => TypeError
      end
  end.

Definition isLevelUnlocked (chapters : list Chapter.t) (completed : list Z)
    (chapterIndex levelInChapter : nat) : Result bool :=
  if (chapterIndex =? 0)%nat && (levelInChapter =? 0)%nat then Ok true
  else
    match getGlobalLevelIndex chapters chapterIndex levelInChapter with
    | Ok globalIndex => Ok (completedHas completed (Z.of_nat globalIndex - 1))
    | TypeError => TypeError
    end.

Definition isBonusLevelUnlocked (chapters : list Chapter.t) (completed : list Z)
    (chapterIndex : nat) : Result bool :=
  match getGlobalLevelIndex chapters chapterIndex 9 with
  | Ok level10GlobalIndex => Ok (completedHas completed (Z.of_nat level10GlobalIndex))
  | TypeError => TypeError
  end.

(** [getChapterCompletion]: the percentage of the chapter's regular levels
    that are completed. *)
Definition getChapterCompletion (chapters : list Chapter.t) (completed : list Z)
    (chapterIndex : nat) : Result Q :=
  match nth_error chapters chapterIndex with
  | None => Ok 0
  | Some chapter =>
      match countLevelsBefore chapters chapterIndex 0 with
      | Ok globalIndex =>
          let totalLevels := List.length (Chapter.levels chapter) in
          let completedCount :=
            List.length
              (filter (fun i => completedHas completed (Z.of_nat (globalIndex + i)))
                      (seq 0 totalLevels)) in
          Ok (if (0 <? totalLevels)%nat
              then inject_Z (Z.of_nat completedCount) / inject_Z (Z.of_nat totalLevels) * 100
              else 0)
      | TypeError => TypeError
      end
  end.

(** Two chapters for the index scenarios: the first with two levels and a
    bonus level, the second with one level. *)
Definition bookChapters : list Chapter.t :=
  [Chapter.mk [dropLevel; floorLevel] (Some spikesLevel) None;
   Chapter.mk [floorLevel] None None].

(** Progress with the first level done in two stars. *)
Definition someProgress : Progress.t :=
  Progress.mk [0%Z] [(0%Z, 2%nat)] "#8c44ff" "glow".

(** The vocabulary of the respawn property: a spike as [parseLevel] and
    [resetPlayer] leave it. *)
Definition spikeAtRest (spike : Spike.t) : Prop :=
  Spike.x spike = Spike.originalX spike /\
  Spike.triggered spike = false /\ Spike.moved spike = false /\
  Spike.moving spike = false /\ Spike.moveTimer spike = 0.

(** The player [resetPlayer] creates. *)
Definition spawnedPlayer (g : Game.t) : Player.t :=
  Player.mk (match Game.spawnPoint g with Some sp => fst sp | None => TILE_SIZE + 15 end)
            (match Game.spawnPoint g with Some sp => snd sp | None => TILE_SIZE * 2 end)
            45 45 0 0 false false 1 [] 0 0 false false 0.

(** A level with an L-shaped group of three gravity markers and a single
    marker apart from it. *)
Definition zoneLevel : Level.t :=
  Level.mk ["S.GG..g"; "..G...."; "#######"]%string None None None.

(** ** Screen flow: transitions, level loading, the whole of [update] *)

(** [transitionState] with [pendingGameState]: ['fadeOut'] is assigned by
    [transitionToState] only, together with the pending state, which is
    read when the fade-out ends and at no other time; the fade-out
    therefore carries it. *)
Inductive Transition : Type :=
  | NoTransition
  | FadeOut (pendingGameState : GameState)
  | FadeIn.

Definition transitionSpeed : Q := 3.

(** The global variables beside those of [Game.t]. *)
Module Session.
Record t : Type := mk {
  game : Game.t;
  currentLevelInChapter : nat;
  transition : Transition;
  transitionAlpha : Q;
  isPaused : bool;
  lastTime : Q;
  selectedButtonIndex : nat;
  progress : Progress.t;
  storage : Storage.t
}.

Definition set_game (s : t) (v : Game.t) : t :=
  mk v (currentLevelInChapter s) (transition s) (transitionAlpha s) (isPaused s)
     (lastTime s) (selectedButtonIndex s) (progress s) (storage s).
Definition set_transition (s : t) (v : Transition) (alpha : Q) : t :=
  mk (game s) (currentLevelInChapter s) v alpha (isPaused s)
     (lastTime s) (selectedButtonIndex s) (progress s) (storage s).
Definition set_clock (s : t) (paused : bool) (last : Q) : t :=
  mk (game s) (currentLevelInChapter s) (transition s) (transitionAlpha s) paused
     last (selectedButtonIndex s) (progress s) (storage s).
Definition set_progress (s : t) (p : Progress.t) (st : Storage.t) : t :=
  mk (game s) (currentLevelInChapter s) (transition s) (transitionAlpha s) (isPaused s)
     (lastTime s) (selectedButtonIndex s) p st.
Definition set_selectedButtonIndex (s : t) (v : nat) : t :=
  mk (game s) (currentLevelInChapter s) (transition s) (transitionAlpha s) (isPaused s)
     (lastTime s) v (progress s) (storage s).
Definition set_level (s : t) (v : Game.t) (levelInChapter : nat) : t :=
  mk v levelInChapter (transition s) (transitionAlpha s) (isPaused s)
     (lastTime s) (selectedButtonIndex s) (progress s) (storage s).
End Session.

(** The assignments to [currentChapter], [currentLevel], [levelDeaths] and
    [levelTime] that open [loadLevel] and [loadLevelFromChapter]. *)
Definition selectLevel (g : Game.t) (chapterIndex globalLevelIndex : nat) : Game.t :=
  Game.mk (Game.canvas g) (Game.chapters g) chapterIndex globalLevelIndex (Game.keys g)
          (Game.gameState g) (Game.player g) (Game.platforms g) (Game.fakeBlocks g)
          (Game.invisiblePlatforms g) (Game.spikes g) (Game.gravityZones g)
          (Game.door g) (Game.spawnPoint g) (Game.deaths g) 0 0 (Game.isDead g)
          (Game.deathFlashTimer g) (Game.levelCompleteTimer g).

(** [updateStats()]: it writes the death count to the page and, in the
    ['playing'] and ['levelComplete'] states, the name of
    [levels[currentLevel]]; reading the name of an undefined level throws.
    The two page elements are those of the game's page. *)
Definition updateStats (g : Game.t) : Result Game.t :=
  match Game.gameState g with
  | playing | levelComplete =>
      match nth_error (levels (Game.chapters g)) (Game.currentLevel g) with
      | Some _ => Ok g
      | None => TypeError
      end
  | _ => Ok g
  end.

(** Whether [levels[currentLevel]] is defined. *)
Definition hasLevel (g : Game.t) : bool :=
  match nth_error (levels (Game.chapters g)) (Game.currentLevel g) with
  | Some _ => true
  | None => false
  end.

(** [die()]: nothing when the player is dead already, else the
    assignments and the [updateStats()] that closes the function. *)
Definition die (g : Game.t) : Result Game.t :=
  if negb (Game.isDead g) then updateStats (dieWrites g) else Ok g.

(** "Spike collision (death)" and "Fall off screen = death" with the calls
    of [die] in full: [forEach] stops at the call that throws. *)
Definition spikeDeathCall (g : Game.t) : Result Game.t :=
  if existsb (fun spike => checkCollision (Player.rect (Game.player g)) (Spike.rect spike))
       (Game.spikes g)
  then die g else Ok g.

Definition fallCall (g : Game.t) : Result Game.t :=
  if Qgtb (Player.y (Game.player g)) (Canvas.height (Game.canvas g) + 100)
  then die g else Ok g.

(** [parseLevel(); resetPlayer(); gameState = 'playing']. *)
Definition startLevel (g : Game.t) : Result Game.t :=
  match parseLevel g with
  | Ok g => Ok (Game.set_flow (resetPlayer g) playing (Game.levelCompleteTimer g))
  | TypeError => TypeError
  end.

Definition loadLevelFromChapter (chapterIndex levelInChapter : nat) (s : Session.t)
    : Result Session.t :=
  let g := Session.game s in
  match getGlobalLevelIndex (Game.chapters g) chapterIndex levelInChapter with
  | Ok globalIndex =>
      match startLevel (selectLevel g chapterIndex globalIndex) with
      | Ok g => Ok (Session.set_level s g levelInChapter)
      | TypeError => TypeError
      end
  | TypeError => TypeError
  end.

Definition loadLevel (globalLevelIndex : nat) (s : Session.t) : Result Session.t :=
  let g := Session.game s in
  let chapterIndex := getChapterFromGlobalLevel (Game.chapters g) globalLevelIndex in
  let levelInChapter :=
    getLevelInChapterFromGlobalLevel (Game.chapters g) globalLevelIndex in
  match startLevel (selectLevel g chapterIndex globalLevelIndex) with
  | Ok g => Ok (Session.set_level s g levelInChapter)
  | TypeError => TypeError
  end.

(** [transitionToState(newState)]. *)
Definition transitionToState (newState : GameState) (s : Session.t) : Session.t :=
  Session.set_selectedButtonIndex
    (Session.set_transition s (FadeOut newState) 0) 0.

(** The three assignments that close the "chapter complete" branch. *)
Definition leaveChapter (g : Game.t) (gameState : GameState) : Game.t :=
  Game.mk (Game.canvas g) (Game.chapters g) 0 0 (Game.keys g)
          gameState (Game.player g) (Game.platforms g) (Game.fakeBlocks g)
          (Game.invisiblePlatforms g) (Game.spikes g) (Game.gravityZones g)
          (Game.door g) (Game.spawnPoint g) (Game.deaths g) (Game.levelDeaths g)
          (Game.levelTime g) (Game.isDead g) (Game.deathFlashTimer g)
          (Game.levelCompleteTimer g).

(** The ['levelComplete'] branch of [update]. *)
Definition updateLevelComplete (deltaTime : Q) (s : Session.t) : Result Session.t :=
  let g := Session.game s in
  let g := Game.set_flow g (Game.gameState g) (Game.levelCompleteTimer g - deltaTime) in
  let s := Session.set_game s g in
  if Qleb (Game.levelCompleteTimer g) 0 then
    match nth_error (Game.chapters g) (Game.currentChapter g) with
    | None => TypeError
    | Some chapter =>
        if (Z.of_nat (Session.currentLevelInChapter s)
            <? Z.of_nat (List.length (Chapter.levels chapter)) - 1)%Z then
          match loadLevelFromChapter (Game.currentChapter g)
                  (Session.currentLevelInChapter s + 1) s with
          | Ok s =>
              match updateStats (Session.game s) with
              | Ok _ => Ok s
              | TypeError => TypeError
              end
          | TypeError => TypeError
          end
        else if (Z.of_nat (Game.currentChapter g)
                 <? Z.of_nat (List.length (Game.chapters g)) - 1)%Z then
          Ok (Session.set_level s (leaveChapter g chapterSelect) 0)
        else
          Ok (Session.set_level s (leaveChapter g menu) 0)
    end
  else Ok s.

(** The playing branch up to the spike collisions, up to the door test,
    and the door test itself, as the state they write. *)
Definition beforeSpikes (deltaTime : Q) (g : Game.t) : Game.t :=
  animateStep deltaTime (zoneStep deltaTime (triggerStep (physicsStep deltaTime g))).

Definition beforeDoor (deltaTime : Q) (g : Game.t) : Game.t :=
  spikeDeathStep (beforeSpikes deltaTime g).

Definition doorHit (g : Game.t) : bool :=
  match Game.door g with
  | Some door => checkCollision (Player.rect (Game.player g)) door
  | None => false
  end.

(** The playing branch in full: the calls of [die] may throw, and
    [completeLevel] runs [markLevelComplete(currentLevel)] where the door
    test succeeds, with the [levelDeaths] of that moment. *)
Definition updatePlayingSession (deltaTime : Q) (s : Session.t) : Result Session.t :=
  let g := Session.game s in
  match spikeDeathCall (beforeSpikes deltaTime g) with
  | TypeError => TypeError
  | Ok g5 =>
      let s :=
        if doorHit g5 then
          let result :=
            markLevelComplete (Z.of_nat (Game.currentLevel g5)) (Game.levelDeaths g5)
              (Session.progress s) (Session.storage s) in
          Session.set_progress s (fst result) (snd result)
        else s in
      match fallCall (doorStep g5) with
      | TypeError => TypeError
      | Ok g7 => Ok (Session.set_game s g7)
      end
  end.

(** [update(deltaTime)]. *)
Definition update (deltaTime : Q) (s : Session.t) : Result Session.t :=
  match Session.transition s with
  | FadeOut pendingGameState =>
      let alpha := Session.transitionAlpha s + transitionSpeed * deltaTime in
      if Qgeb alpha 1 then
        let g := Session.game s in
        Ok (Session.set_game (Session.set_transition s FadeIn 1)
              (Game.set_flow g pendingGameState (Game.levelCompleteTimer g)))
      else Ok (Session.set_transition s (FadeOut pendingGameState) alpha)
  | FadeIn =>
      let alpha := Session.transitionAlpha s - transitionSpeed * deltaTime in
      if Qleb alpha 0 then Ok (Session.set_transition s NoTransition 0)
      else Ok (Session.set_transition s FadeIn alpha)
  | NoTransition =>
      let g := Session.game s in
      match Game.gameState g with
      | menu | settings | chapterSelect | levelSelect | paused => Ok s
      | levelComplete => updateLevelComplete deltaTime s
      | playing | customize =>
          if Game.isDead g then Ok (Session.set_game s (updateDead deltaTime g))
          else
            match Game.gameState g with
            | playing =>
                if Session.isPaused s then Ok s
                else updatePlayingSession deltaTime s
            | _ => Ok s
            end
      end
  end.

(** [pauseGame], [resumeGame] (at [performance.now() = now]) and one call
    of [gameLoop] by [requestAnimationFrame]. *)
Definition pauseGame (s : Session.t) : Session.t :=
  let g := Session.game s in
  let g := Game.set_keys g (Keys.mk false false false false) in
  let g := Game.set_player g (Player.set_vy (Player.set_vx (Game.player g) 0) 0) in
  Session.set_game (Session.set_clock s true (Session.lastTime s)) g.

Definition resumeGame (now : Q) (s : Session.t) : Session.t :=
  Session.set_clock s false now.

Definition gameLoopFrame (currentTime : Q) (s : Session.t) : Result Session.t :=
  match gameLoop (Session.isPaused s) (Session.lastTime s) currentTime with
  | None => Ok s
  | Some (deltaTime, lastTime) =>
      update deltaTime (Session.set_clock s (Session.isPaused s) lastTime)
  end.

(** Arrow-key navigation of the keydown handler over [n] buttons. *)
Definition arrowDown (n selectedButtonIndex : nat) : nat :=
  if (0 <? n)%nat then ((selectedButtonIndex + 1) mod n)%nat else selectedButtonIndex.
Definition arrowUp (n selectedButtonIndex : nat) : nat :=
  if (0 <? n)%nat
  then Z.to_nat (Z.rem (Z.of_nat selectedButtonIndex - 1 + Z.of_nat n) (Z.of_nat n))
  else selectedButtonIndex.

(** The calls of [gameLoop] that [requestAnimationFrame] makes at the given
    times, one after the other, stopping at a frame that throws. *)
Fixpoint runFrames (times : list Q) (s : Session.t) : Result Session.t :=
  match times with
  | [] => Ok s
  | currentTime :: rest =>
      match gameLoopFrame currentTime s with
      | Ok s => runFrames rest s
      | TypeError => TypeError
      end
  end.

(** ** Vocabulary of the properties: physics and zones *)

(** The jump test of [update]: space held, on the ground, jump not yet
    consumed. *)
Definition jumps (g : Game.t) : bool :=
  Keys.space (Game.keys g) && Player.onGround (Game.player g)
  && negb (Player.hasJumped (Game.player g)).

(** The fields of the player that the gravity zones never write. *)
Definition sameBody (p p' : Player.t) : Prop :=
  Player.x p' = Player.x p /\ Player.y p' = Player.y p /\
  Player.width p' = Player.width p /\ Player.height p' = Player.height p /\
  Player.vx p' = Player.vx p /\ Player.onGround p' = Player.onGround p /\
  Player.hasJumped p' = Player.hasJumped p /\
  Player.gravityFlipCooldown p' = Player.gravityFlipCooldown p /\
  Player.gravityLocked p' = Player.gravityLocked p.

(** [zone.cooldownTimer] after the two statements that open the loop body
    of [checkGravityZones]. *)
Definition cooldownAfter (deltaTime : Q) (timer : option Q) : Q :=
  match timer with
  | None => 0
  | Some t => if Qeq_bool t 0 then 0 else if Qgtb t 0 then t - deltaTime else t
  end.

(** ** Vocabulary of the properties: the level map *)

(** The tile-sized rectangle of the cell [(row, col)]. *)
Definition tile (row col : Z) : Rect.t :=
  Rect.mk (inject_Z col * TILE_SIZE) (inject_Z row * TILE_SIZE) TILE_SIZE TILE_SIZE.

(** The tiles of the cells that hold [char], in scan order. *)
Definition tilesOf (char : ascii) (cs : list (Z * Z * ascii)) : list Rect.t :=
  map (fun '(row, col, _) => tile row col)
      (filter (fun '(_, _, c) => Ascii.eqb c char) cs).

Definition lastOf {A : Type} (l : list A) : option A := last (map Some l) None.

(** The [moveDistance] of the spike a character stands for: two tiles for
    [^], [d] tiles for the digit [d]. *)
Definition spikeDistance (char : ascii) : option Q :=
  if Ascii.eqb char "^" then Some (TILE_SIZE * 2)
  else match digitValue char with
       | Some d => Some (TILE_SIZE * inject_Z d)
       | None => None
       end.

Definition isSpikeChar (char : ascii) : bool :=
  match spikeDistance char with Some _ => true | None => false end.

Definition spikeCells (cs : list (Z * Z * ascii)) : list (Z * Z * ascii) :=
  filter (fun '(_, _, c) => isSpikeChar c) cs.

(** Position and travel of a parsed spike, and what the map cell of a
    spike asks for: the tile's left edge, 20 pixels below its top. *)
Definition spikeShape (s : Spike.t) : Q * Q * option Q :=
  (Spike.x s, Spike.y s, Some (Spike.moveDistance s)).
Definition cellShape (cell : Z * Z * ascii) : Q * Q * option Q :=
  let '(row, col, c) := cell in
  (inject_Z col * TILE_SIZE, inject_Z row * TILE_SIZE + 20, spikeDistance c).

(** The spawn point an [S] tile gives. *)
Definition spawnOf (t : Rect.t) : Q * Q := (Rect.x t + 15, Rect.y t).

(** The cell [(row, col)] lies within the bounds of a detected zone. *)
Definition inside (zone : Bounds.t) (row col : Z) : Prop :=
  (Bounds.minRow zone <= row <= Bounds.maxRow zone)%Z /\
  (Bounds.minCol zone <= col <= Bounds.maxCol zone)%Z.

(** The tile of the cell [(row, col)] lies within the rectangle of a
    gravity zone. *)
Definition covers (zone : Zone.t) (row col : Z) : Prop :=
  Zone.x zone <= inject_Z col * TILE_SIZE /\
  inject_Z col * TILE_SIZE + TILE_SIZE <= Zone.x zone + Zone.width zone /\
  Zone.y zone <= inject_Z row * TILE_SIZE /\
  inject_Z row * TILE_SIZE + TILE_SIZE <= Zone.y zone + Zone.height zone.

(** ** Runs of [update] *)

(** The tests under which [update] reaches the physics of the playing
    state: no fade, ['playing'], the player alive, the game not paused. *)
Definition playingFrame (s : Session.t) : bool :=
  match Session.transition s with NoTransition => true | _ => false end
  && match Game.gameState (Session.game s) with playing => true | _ => false end
  && negb (Game.isDead (Session.game s))
  && negb (Session.isPaused s).

(** The frames in which [update] calls [resetPlayer]: the respawn when the
    death flash ends, and the load of the next level of the chapter when
    the completion timer ends. *)
Definition resetsPlayer (deltaTime : Q) (s : Session.t) : bool :=
  let g := Session.game s in
  match Session.transition s with
  | NoTransition =>
      match Game.gameState g with
      | levelComplete =>
          Qleb (Game.levelCompleteTimer g - deltaTime) 0
          && match nth_error (Game.chapters g) (Game.currentChapter g) with
             | Some chapter =>
                 (Z.of_nat (Session.currentLevelInChapter s)
                  <? Z.of_nat (List.length (Chapter.levels chapter)) - 1)%Z
             | None => false
             end
      | playing | customize =>
          Game.isDead g && Qleb (Game.deathFlashTimer g - deltaTime) 0
      | _ => false
      end
  | _ => false
  end.

(** [update] called with the given delta times, one frame after the
    other; a frame that throws ends the loop, since [gameLoop] then does
    not request another frame. *)
Fixpoint runUpdates (deltaTimes : list Q) (s : Session.t) : Result Session.t :=
  match deltaTimes with
  | [] => Ok s
  | deltaTime :: rest =>
      match update deltaTime s with
      | Ok s => runUpdates rest s
      | TypeError => TypeError
      end
  end.

(** Every frame of the run is a frame of the playing state, and returns. *)
Fixpoint playingRun (deltaTimes : list Q) (s : Session.t) : Prop :=
  match deltaTimes with
  | [] => True
  | deltaTime :: rest =>
      playingFrame s = true /\
      match update deltaTime s with
      | Ok s => playingRun rest s
      | TypeError => False
      end
  end.

Definition elapsedTime (deltaTimes : list Q) : Q :=
  fold_right Qplus 0 deltaTimes.

(** The number of frames of a run that start a jump, and the number that
    call [resetPlayer]; the keys are not touched between the frames. *)
Fixpoint jumpCount (deltaTimes : list Q) (s : Session.t) : nat :=
  match deltaTimes with
  | [] => 0
  | deltaTime :: rest =>
      ((if playingFrame s && jumps (Session.game s) then 1 else 0)
       + match update deltaTime s with
         | Ok s => jumpCount rest s
         | TypeError => 0
         end)%nat
  end.

Fixpoint resetCount (deltaTimes : list Q) (s : Session.t) : nat :=
  match deltaTimes with
  | [] => 0
  | deltaTime :: rest =>
      ((if resetsPlayer deltaTime s then 1 else 0)
       + match update deltaTime s with
         | Ok s => resetCount rest s
         | TypeError => 0
         end)%nat
  end.

(** ** The spike timer in the code's own arithmetic *)

Module Doubles.
(** The fields the "update moving spikes" loop of [update] reads and
    writes, as the IEEE 754 doubles and booleans they are in JavaScript. *)
Record t : Type := mk {
  x : float;
  originalX : float;
  moveDistance : float;
  moveTimer : float;
  moving : bool;
  moved : bool
}.

(** The body of the loop. *)
Definition advanceSpike (deltaTime : float) (spike : t) : t :=
  if moving spike then
    let t1 := (moveTimer spike + deltaTime * 5)%float in
    let done := (1 <=? t1)%float in
    let moveTimer' := if done then 1%float else t1 in
    let moving' := if done then false else moving spike in
    let moved' := if done then true else moved spike in
    let targetX := (originalX spike + moveDistance spike)%float in
    mk (originalX spike + (targetX - originalX spike) * moveTimer')%float
       (originalX spike) (moveDistance spike) moveTimer' moving' moved'
  else spike.

(** [n] frames at the same delta time. *)
Fixpoint advanceFrames (n : nat) (deltaTime : float) (spike : t) : t :=
  match n with
  | O => spike
  | S n => advanceFrames n deltaTime (advanceSpike deltaTime spike)
  end.

(** The double nearest to 0.02, and its exact value. *)
Definition fiftieth : float := 0x1.47ae147ae147bp-6%float.
Definition fiftiethValue : Q := 5764607523034235 # 288230376151711744.

(** A spike as the trigger leaves it. *)
Definition firedSpike : t := mk 120 120 120 0 true false.
End Doubles.

(** ** Sessions for the screen-flow scenarios *)

(** The first level of [bookChapters], not yet parsed. *)
Definition bookGame : Game.t :=
  Game.mk (Canvas.mk 1200 720) bookChapters 0 0
          (Keys.mk false false false false) playing
          (Player.mk 0 0 45 45 0 0 false false 1 [] 0 0 false false 0)
          [] [] [] [] [] None None 0 0 0 false 0 0.

(** A session around a game: no fade, not paused, [someProgress] loaded
    and an empty, usable storage. *)
Definition sessionOf (g : Game.t) (levelInChapter : nat) : Session.t :=
  Session.mk g levelInChapter NoTransition 0 false 0 0 someProgress
             (Storage.mk true None).

Definition menuSession : Session.t :=
  sessionOf (Game.set_flow bookGame menu 0) 0.

(** The player of [playedGame] put where the moving spike arrives. *)
Definition spikedGame : Game.t :=
  Game.set_player playedGame
    (Player.mk 130 190 45 45 0 0 false false 1 [] 0 0 false false 0).

(** [playedGame] in the death flash, 0.2 s left. *)
Definition deadSession : Session.t :=
  sessionOf (Game.set_death playedGame true DEATH_FLASH_DURATION 4 3) 0.

(** The first level of [bookChapters] completed, with the completion
    timer freshly started, and with it run out. *)
Definition completedSession : Session.t :=
  sessionOf (completeLevel bookGame) 0.
Definition expiredSession : Session.t :=
  sessionOf (Game.set_flow bookGame levelComplete 0) 0.

(** The only level of the last chapter completed, the timer run out. *)
Definition lastLevelSession : Session.t :=
  sessionOf (Game.set_flow (selectLevel bookGame 1 3) levelComplete 0) 0.

(** A player in front of the door of a level without platforms. *)
Definition doorSession : Session.t :=
  sessionOf
    (Game.mk (Canvas.mk 1200 720) bookChapters 0 0
             (Keys.mk false false false false) playing
             (Player.mk 70 70 45 45 0 0 false false 1 [] 0 0 false false 0)
             [] [] [] [] [] (Some solidTile) None 0 2 0 false 0 0) 0.

(** A contact zone beside [flipZone], with an id of its own. *)
Definition contactZone : Zone.t :=
  Zone.mk 1 300 0 60 60 "flip" "contact" None (1 # 2) false false false None.

(** * Properties *)

(** ** Booleans to propositions *)

Lemma Qleb_true (a b : Q) : Qleb a b = true <-> a <= b.
Proof. unfold Qleb. apply Qle_bool_iff. Qed.

Lemma Qleb_false (a b : Q) : Qleb a b = false <-> b < a.
Proof.
  unfold Qleb. split; intro H.
  - apply Qnot_le_lt. intro Hle. apply Qle_bool_iff in Hle. congruence.
  - destruct (Qle_bool a b) eqn:E; [|reflexivity].
    apply Qle_bool_iff in E. lra.
Qed.

Lemma Qltb_true (a b : Q) : Qltb a b = true <-> a < b.
Proof.
  unfold Qltb. rewrite negb_true_iff. apply (Qleb_false b a).
Qed.

Lemma Qltb_false (a b : Q) : Qltb a b = false <-> b <= a.
Proof.
  unfold Qltb. rewrite negb_false_iff. apply (Qleb_true b a).
Qed.

Lemma Qgeb_true (a b : Q) : Qgeb a b = true <-> b <= a.
Proof. apply Qleb_true. Qed.

Lemma Qgeb_false (a b : Q) : Qgeb a b = false <-> a < b.
Proof. apply Qleb_false. Qed.

Lemma Qgtb_true (a b : Q) : Qgtb a b = true <-> b < a.
Proof. apply Qltb_true. Qed.

Lemma Qgtb_false (a b : Q) : Qgtb a b = false <-> a <= b.
Proof. apply Qltb_false. Qed.

Lemma Qneqb_true (a b : Q) : Qneqb a b = true <-> ~ a == b.
Proof.
  unfold Qneqb. rewrite negb_true_iff. split; intro H.
  - apply Qeq_bool_neq. exact H.
  - destruct (Qeq_bool a b) eqn:E; [|reflexivity].
    apply Qeq_bool_iff in E. contradiction.
Qed.

Lemma Qneqb_false (a b : Q) : Qneqb a b = false <-> a == b.
Proof.
  unfold Qneqb. rewrite negb_false_iff. apply Qeq_bool_iff.
Qed.

(** Turn every boolean comparison among the hypotheses into its
    proposition. *)
Ltac qprop :=
  repeat match goal with
  | H : Qleb _ _ = true |- _ => apply Qleb_true in H
  | H : Qleb _ _ = false |- _ => apply Qleb_false in H
  | H : Qltb _ _ = true |- _ => apply Qltb_true in H
  | H : Qltb _ _ = false |- _ => apply Qltb_false in H
  | H : Qgeb _ _ = true |- _ => apply Qgeb_true in H
  | H : Qgeb _ _ = false |- _ => apply Qgeb_false in H
  | H : Qgtb _ _ = true |- _ => apply Qgtb_true in H
  | H : Qgtb _ _ = false |- _ => apply Qgtb_false in H
  | H : Qneqb _ _ = true |- _ => apply Qneqb_true in H
  | H : Qneqb _ _ = false |- _ => apply Qneqb_false in H
  | H : Qeq_bool _ _ = true |- _ => apply Qeq_bool_iff in H
  | H : Qeq_bool _ _ = false |- _ => apply Qeq_bool_neq in H
  | H : _ && _ = true |- _ => apply andb_true_iff in H; destruct H
  end.

(** ** Spikes: trigger and animation *)


Lemma checkSpikeTrigger_idle (player : Player.t) (spike : Spike.t) :
  Spike.triggered spike = true \/ Spike.moved spike = true \/
  ~ straddles player spike \/ ~ withinWindow player spike ->
  checkSpikeTrigger player spike = spike.
Proof.
  intros H. unfold checkSpikeTrigger.
  destruct (Spike.triggered spike); [reflexivity|].
  destruct (Spike.moved spike); [reflexivity|]. cbn [negb andb].
  match goal with |- (if ?c then _ else _) = _ => destruct c eqn:E end;
    [|reflexivity].
  exfalso. qprop.
  destruct H as [H|[H|[H|H]]]; try discriminate;
    apply H; split; assumption.
Qed.


Lemma advanceSpike_triggered (dt : Q) (spike : Spike.t) :
  Spike.triggered (advanceSpike dt spike) = Spike.triggered spike.
Proof. unfold advanceSpike. destruct (Spike.moving spike); reflexivity. Qed.

Lemma advanceSpike_static (dt : Q) (spike : Spike.t) :
  Spike.originalX (advanceSpike dt spike) = Spike.originalX spike /\
  Spike.moveDistance (advanceSpike dt spike) = Spike.moveDistance spike.
Proof. unfold advanceSpike. destruct (Spike.moving spike); split; reflexivity. Qed.

Lemma advanceSpike_idle (dt : Q) (spike : Spike.t) :
  Spike.moving spike = false -> advanceSpike dt spike = spike.
Proof. intro H. unfold advanceSpike. rewrite H. reflexivity. Qed.

(** A spike that has moved and stopped is a fixed point of every frame. *)
Lemma spikeFrame_frozen (player : Player.t) (dt : Q) (spike : Spike.t) :
  Spike.moved spike = true -> Spike.moving spike = false ->
  spikeFrame player dt spike = spike.
Proof.
  intros Hm Hv. unfold spikeFrame.
  rewrite checkSpikeTrigger_idle by auto.
  apply advanceSpike_idle. exact Hv.
Qed.

Lemma spikeRun_frozen (frames : list (Player.t * Q)) (spike : Spike.t) :
  Spike.moved spike = true -> Spike.moving spike = false ->
  spikeRun frames spike = spike.
Proof.
  intros Hm Hv. induction frames as [|f rest IH]; [reflexivity|].
  unfold spikeRun in *. cbn [fold_left].
  rewrite spikeFrame_frozen by assumption. exact IH.
Qed.



Lemma totalTime_nonneg (frames : list (Player.t * Q)) :
  Forall (fun f => 0 <= snd f) frames -> 0 <= totalTime frames.
Proof.
  induction 1 as [|f fs Hf Hfs IH]; cbn [totalTime fold_right].
  - lra.
  - fold (totalTime fs). lra.
Qed.

Lemma advanceSpike_step (dt : Q) (spike : Spike.t) :
  Spike.moving spike = true ->
  let t1 := Spike.moveTimer spike + dt * 5 in
  let spike' := advanceSpike dt spike in
  (1 <= t1 ->
     Spike.moveTimer spike' = 1 /\ Spike.moving spike' = false /\
     Spike.moved spike' = true /\
     Spike.x spike' == Spike.originalX spike + Spike.moveDistance spike) /\
  (t1 < 1 ->
     Spike.moveTimer spike' = t1 /\ Spike.moving spike' = true /\
     Spike.moved spike' = Spike.moved spike /\
     Spike.x spike' == Spike.originalX spike + Spike.moveDistance spike * t1).
Proof.
  intros Hm t1 spike'. subst spike'. unfold advanceSpike. rewrite Hm.
  fold t1. split; intro Ht.
  - assert (E : Qgeb t1 1 = true) by (apply Qgeb_true; exact Ht).
    rewrite E. cbn. repeat split; try reflexivity. ring.
  - assert (E : Qgeb t1 1 = false) by (apply Qgeb_false; exact Ht).
    rewrite E. cbn. repeat split; try reflexivity. ring.
Qed.

(** The animation of a moving spike over a run of frames with
    non-negative delta times, started anywhere on its way. *)
Lemma spikeRun_moving (frames : list (Player.t * Q)) :
  forall spike : Spike.t,
  Spike.triggered spike = true -> Spike.moving spike = true ->
  Spike.moveTimer spike < 1 ->
  Spike.x spike == Spike.originalX spike + Spike.moveDistance spike * Spike.moveTimer spike ->
  Forall (fun f => 0 <= snd f) frames ->
  let progress := Spike.moveTimer spike + totalTime frames * 5 in
  let spike' := spikeRun frames spike in
  Spike.originalX spike' = Spike.originalX spike /\
  Spike.triggered spike' = true /\
  (progress < 1 ->
     Spike.moving spike' = true /\ Spike.moved spike' = Spike.moved spike /\
     Spike.moveTimer spike' == progress /\
     Spike.x spike' == Spike.originalX spike + Spike.moveDistance spike * progress) /\
  (1 <= progress ->
     Spike.moving spike' = false /\ Spike.moved spike' = true /\
     Spike.moveTimer spike' == 1 /\
     Spike.x spike' == Spike.originalX spike + Spike.moveDistance spike).
Proof.
  induction frames as [|[p dt] rest IH]; intros spike Ht Hm Hlt Hx Hnn.
  - cbn. split; [reflexivity|]. split; [exact Ht|]. split; intro Hp.
    + split; [exact Hm|]. split; [reflexivity|]. split; [ring|].
      rewrite Hx. ring.
    + lra.
  - inversion Hnn as [|f fs Hdt Hrest]; subst. cbn [snd] in Hdt.
    cbn zeta. unfold spikeRun. cbn [fold_left fst snd].
    fold (spikeRun rest (spikeFrame p dt spike)).
    unfold spikeFrame.
    rewrite (checkSpikeTrigger_idle p spike) by auto.
    destruct (advanceSpike_step dt spike Hm) as [Hdone Hgo].
    destruct (advanceSpike_static dt spike) as [Hox Hmd].
    assert (Hsum : totalTime ((p, dt) :: rest) == dt + totalTime rest)
      by (cbn; reflexivity).
    assert (Hrest0 : 0 <= totalTime rest).
    { apply totalTime_nonneg. exact Hrest. }
    destruct (Qlt_le_dec (Spike.moveTimer spike + dt * 5) 1) as [Hc|Hc].
    + destruct (Hgo Hc) as (Hmt & Hmv & Hmvd & Hx1).
      specialize (IH (advanceSpike dt spike)).
      rewrite advanceSpike_triggered in IH.
      rewrite Hox, Hmd, Hmt, Hmvd in IH.
      destruct (IH Ht Hmv Hc Hx1 Hrest) as (I0 & I1 & I2 & I3).
      split; [exact I0|]. split; [exact I1|]. split.
      * intro Hp. rewrite Hsum in Hp.
        destruct I2 as (J1 & J2 & J3 & J4); [lra|].
        split; [exact J1|]. split; [exact J2|]. split.
        -- rewrite J3, Hsum. ring.
        -- rewrite J4, Hsum. ring.
      * intro Hp. rewrite Hsum in Hp.
        destruct I3 as (J1 & J2 & J3 & J4); [lra|].
        repeat split; assumption.
    + destruct (Hdone Hc) as (Hmt & Hmv & Hmvd & Hx1).
      rewrite (spikeRun_frozen rest (advanceSpike dt spike)) by assumption.
      rewrite advanceSpike_triggered.
      split; [exact Hox|]. split; [exact Ht|]. split.
      * intro Hp. rewrite Hsum in Hp. lra.
      * intros _. rewrite Hmt. split; [exact Hmv|]. split; [exact Hmvd|]. split; [reflexivity|exact Hx1].
Qed.

(** ** What a playing frame does to the spike list *)

Lemma dieWrites_spikes (g : Game.t) : Game.spikes (dieWrites g) = Game.spikes g.
Proof. unfold dieWrites. destruct (negb (Game.isDead g)); reflexivity. Qed.

Lemma dieWrites_player (g : Game.t) : Game.player (dieWrites g) = Game.player g.
Proof. unfold dieWrites. destruct (negb (Game.isDead g)); reflexivity. Qed.

Lemma completeLevel_spikes (g : Game.t) : Game.spikes (completeLevel g) = Game.spikes g.
Proof. reflexivity. Qed.

Lemma fallStep_spikes (g : Game.t) : Game.spikes (fallStep g) = Game.spikes g.
Proof. unfold fallStep. destruct (Qgtb _ _); [apply dieWrites_spikes|reflexivity]. Qed.

Lemma doorStep_spikes (g : Game.t) : Game.spikes (doorStep g) = Game.spikes g.
Proof.
  unfold doorStep. destruct (Game.door g) as [door|]; [|reflexivity].
  destruct (checkCollision _ _); reflexivity.
Qed.

Lemma spikeDeathStep_spikes (g : Game.t) : Game.spikes (spikeDeathStep g) = Game.spikes g.
Proof. unfold spikeDeathStep. destruct (existsb _ _); [apply dieWrites_spikes|reflexivity]. Qed.

Lemma zoneStep_spikes (dt : Q) (g : Game.t) : Game.spikes (zoneStep dt g) = Game.spikes g.
Proof. reflexivity. Qed.

Lemma updatePlaying_spikes (dt : Q) (g : Game.t) :
  Game.spikes (updatePlaying dt g)
  = map (spikeFrame (stepPlayer g dt) dt) (Game.spikes g).
Proof.
  unfold updatePlaying.
  rewrite fallStep_spikes, doorStep_spikes, spikeDeathStep_spikes.
  unfold animateStep. cbn [Game.spikes Game.set_spikes].
  rewrite zoneStep_spikes.
  unfold triggerStep, physicsStep. cbn [Game.spikes Game.set_spikes Game.player Game.set_player Game.set_levelTime].
  unfold advanceSpikes, checkSpikeTriggers. rewrite map_map. reflexivity.
Qed.





(** ** Gravity zones *)

Lemma applyGravityChange_frame (type : string) (player : Player.t) :
  Player.set_gravityScale (applyGravityChange type player) (Player.gravityScale player)
  = player.
Proof.
  unfold applyGravityChange.
  destruct (String.eqb type "flip"); [destruct player; reflexivity|].
  destruct (String.eqb type "toggle"); [destruct player; reflexivity|].
  destruct (String.eqb type "momentary"); destruct player; reflexivity.
Qed.

Lemma applyGravityChange_scale (type : string) (player : Player.t) :
  let player' := applyGravityChange type player in
  (type = "flip"%string \/ type = "toggle"%string ->
   Player.gravityScale player' == - Player.gravityScale player) /\
  (type = "momentary"%string -> Player.gravityScale player' = - (1)) /\
  (type <> "flip"%string -> type <> "toggle"%string -> type <> "momentary"%string ->
   player' = player).
Proof.
  unfold applyGravityChange. split; [|split].
  - intros [->| ->]; cbn; ring.
  - intros ->. reflexivity.
  - intros H1 H2 H3.
    apply String.eqb_neq in H1, H2, H3. rewrite H1, H2, H3. reflexivity.
Qed.

Lemma activateGravityZone_refused (zone : Zone.t) (player : Player.t) :
  refuses zone = true -> activateGravityZone zone player = (zone, player).
Proof.
  unfold refuses, activateGravityZone. intro H.
  destruct (Zone.oneShot zone && Zone.hasActivated zone); [reflexivity|].
  cbn in H. rewrite H. reflexivity.
Qed.

(** The result of an activation that passes both early returns. *)
Lemma activateGravityZone_accepted (zone : Zone.t) (player : Player.t) :
  refuses zone = false ->
  let changed := applyGravityChange (Zone.type zone) player in
  activateGravityZone zone player
  = if Qneqb (Player.gravityScale player) (Player.gravityScale changed) then
      (Zone.set_runtime zone true (Some (cooldownOrDefault zone)),
       Player.set_vy
         (Player.set_gravityIndicatorAlpha
            (Player.set_hasBeenFlipped
               (if durationTruthy (Zone.duration zone)
                then Player.set_gravityFlipTimer changed
                       (match Zone.duration zone with Some d => d | None => 0 end)
                else changed) true) 1)
         (Player.vy changed * (1 # 2)))
    else (zone, changed).
Proof.
  unfold refuses, activateGravityZone. intro H.
  apply orb_false_iff in H. destruct H as [H1 H2]. rewrite H1, H2.
  cbv zeta.
  destruct (Qneqb (Player.gravityScale player)
              (Player.gravityScale (applyGravityChange (Zone.type zone) player)));
    [|reflexivity].
  unfold cooldownOrDefault, durationTruthy.
  destruct (Zone.duration zone) as [d|]; [destruct (Qneqb d 0)|]; reflexivity.
Qed.

Lemma applyGravityChange_other (type : string) (player : Player.t) :
  let player' := applyGravityChange type player in
  Player.vy player' = Player.vy player /\
  Player.gravityFlipTimer player' = Player.gravityFlipTimer player /\
  Player.y player' = Player.y player /\
  Player.onGround player' = Player.onGround player.
Proof.
  unfold applyGravityChange.
  destruct (String.eqb type "flip"); [repeat split|].
  destruct (String.eqb type "toggle"); [repeat split|].
  destruct (String.eqb type "momentary"); repeat split.
Qed.

(** C3 (as the code has it).  An activation that is not refused by the
    one-shot guard ([oneShot] with [hasActivated]) or the cooldown guard
    ([cooldownTimer > 0]) inverts [gravityScale] for the types flip and
    toggle and sets it to -1 for the type momentary.  In every activation,
    refused or not, if [gravityScale]
    changed value then the zone's cooldown timer is set (to [cooldown], or
    to 1.0 when that is zero), [hasActivated] is true, [gravityFlipTimer]
    is the zone's duration when the zone has one, and [vy] is halved; and
    if [gravityScale] did not change value then the zone is untouched and
    so is every other field of the player. *)
Theorem activate_changes_gravity_and_gates_effects (zone : Zone.t) (player : Player.t) :
  let zone' := fst (activateGravityZone zone player) in
  let player' := snd (activateGravityZone zone player) in
  (refuses zone = false ->
     (Zone.type zone = "flip"%string \/ Zone.type zone = "toggle"%string ->
      Player.gravityScale player' == - Player.gravityScale player) /\
     (Zone.type zone = "momentary"%string -> Player.gravityScale player' = - (1))) /\
  (~ Player.gravityScale player' == Player.gravityScale player ->
     Zone.cooldownTimer zone' = Some (cooldownOrDefault zone) /\
     Zone.hasActivated zone' = true /\
     (forall d, Zone.duration zone = Some d -> ~ d == 0 ->
                Player.gravityFlipTimer player' = d) /\
     (durationTruthy (Zone.duration zone) = false ->
      Player.gravityFlipTimer player' = Player.gravityFlipTimer player) /\
     Player.vy player' == Player.vy player / 2) /\
  (Player.gravityScale player' == Player.gravityScale player ->
     zone' = zone /\
     Player.set_gravityScale player' (Player.gravityScale player) = player).
Proof.
  cbv zeta. destruct (refuses zone) eqn:R.
  - rewrite (activateGravityZone_refused zone player R). cbn [fst snd].
    split; [discriminate|]. split.
    + intro H. exfalso. apply H. reflexivity.
    + intros _. split; [reflexivity|]. destruct player; reflexivity.
  - rewrite (activateGravityZone_accepted zone player R). cbv zeta.
    pose proof (applyGravityChange_scale (Zone.type zone) player) as (Hflip & Hmom & _).
    pose proof (applyGravityChange_other (Zone.type zone) player) as (Hvy & Htm & _).
    pose proof (applyGravityChange_frame (Zone.type zone) player) as Hframe.
    cbv zeta in Hflip, Hmom, Hvy, Htm.
    set (changed := applyGravityChange (Zone.type zone) player) in *.
    destruct (Qneqb (Player.gravityScale player) (Player.gravityScale changed)) eqn:E;
      qprop; cbn [fst snd].
    + split; [|split].
      * intros _. split.
        -- intro Ht. destruct (durationTruthy (Zone.duration zone)); cbn; apply Hflip, Ht.
        -- intro Ht. destruct (durationTruthy (Zone.duration zone)); cbn; apply Hmom, Ht.
      * intros _. split; [reflexivity|]. split; [reflexivity|]. split; [|split].
        -- intros d Hd Hnz. rewrite Hd. cbn.
           apply Qneqb_true in Hnz. rewrite Hnz. reflexivity.
        -- intros Hd. rewrite Hd. cbn. exact Htm.
        -- destruct (durationTruthy (Zone.duration zone)); cbn; rewrite Hvy; field.
      * intro H. exfalso. apply E.
        destruct (durationTruthy (Zone.duration zone)); cbn in H; rewrite H; reflexivity.
    + split; [|split].
      * intros _. split.
        -- intro Ht. apply Hflip, Ht.
        -- intro Ht. apply Hmom, Ht.
      * intro H. exfalso. apply H. rewrite E. reflexivity.
      * intros _. split; [reflexivity|]. exact Hframe.
Qed.

Lemma activate_changes_gravity_and_gates_effects_witness :
  let zone' := fst (activateGravityZone flipZone fallingPlayer) in
  let player' := snd (activateGravityZone flipZone fallingPlayer) in
  Player.gravityScale player' == - (1) /\
  Zone.cooldownTimer zone' = Some 1 /\ Zone.hasActivated zone' = true /\
  Player.gravityFlipTimer player' = 2 /\ Player.vy player' == 200.
Proof.
  destruct (activate_changes_gravity_and_gates_effects flipZone fallingPlayer)
    as (Hscale & Heffects & _).
  destruct Hscale as (Hflip & _); [reflexivity|].
  destruct Heffects as (Hcd & Hact & Htimer & _ & Hvy).
  - vm_compute. discriminate.
  - cbv zeta. split; [rewrite Hflip by (left; reflexivity); reflexivity|].
    split; [exact Hcd|]. split; [exact Hact|].
    split; [apply Htimer; [reflexivity | vm_compute; discriminate]|].
    rewrite Hvy. reflexivity.
Defined.

(** C3, as stated, fails for a refused activation: a flip zone that is
    one-shot and has activated, or one whose cooldown is running, returns
    at once and [gravityScale] stays 1 instead of becoming -1. *)
Lemma refused_activation_does_not_invert :
  (Zone.type usedOneShotZone = "flip"%string /\
   Player.gravityScale fallingPlayer = 1 /\
   Player.gravityScale (snd (activateGravityZone usedOneShotZone fallingPlayer)) = 1 /\
   ~ Player.gravityScale (snd (activateGravityZone usedOneShotZone fallingPlayer))
     == - Player.gravityScale fallingPlayer) /\
  (Zone.type coolingZone = "flip"%string /\
   Player.gravityScale (snd (activateGravityZone coolingZone fallingPlayer)) = 1 /\
   ~ Player.gravityScale (snd (activateGravityZone coolingZone fallingPlayer))
     == - Player.gravityScale fallingPlayer).
Proof.
  repeat split; try reflexivity; vm_compute; discriminate.
Qed.

Lemma activateGravityZone_static (zone : Zone.t) (player : Player.t) :
  let zone' := fst (activateGravityZone zone player) in
  Zone.oneShot zone' = Zone.oneShot zone /\
  Zone.type zone' = Zone.type zone /\
  Zone.cooldown zone' = Zone.cooldown zone /\
  (Zone.hasActivated zone = true -> Zone.hasActivated zone' = true).
Proof.
  cbv zeta. destruct (refuses zone) eqn:R.
  - rewrite activateGravityZone_refused by exact R. cbn. auto.
  - rewrite activateGravityZone_accepted by exact R. cbv zeta.
    destruct (Qneqb _ _); cbn; auto.
Qed.

Lemma last_default {A : Type} (l : list A) :
  forall a d1 d2 : A, last (a :: l) d1 = last (a :: l) d2.
Proof.
  induction l as [|b l IH]; intros a d1 d2; [reflexivity|].
  change (last (b :: l) d1 = last (b :: l) d2). apply IH.
Qed.

Lemma last_cons {A : Type} (l : list A) (a d : A) : last (a :: l) d = last l a.
Proof.
  destruct l as [|b l]; [reflexivity|].
  change (last (b :: l) d = last (b :: l) a). apply last_default.
Qed.

Lemma activateMany_oneShot (players : list Player.t) :
  forall (zone : Zone.t) (player : Player.t),
  Zone.oneShot zone = true -> Zone.hasActivated zone = true ->
  activateMany players zone player = (zone, last players player).
Proof.
  induction players as [|next rest IH]; intros zone player Ho Ha.
  - cbn. apply activateGravityZone_refused. unfold refuses. rewrite Ho, Ha. reflexivity.
  - cbn [activateMany].
    rewrite activateGravityZone_refused by (unfold refuses; rewrite Ho, Ha; reflexivity).
    rewrite IH by assumption. rewrite last_cons. reflexivity.
Qed.

(** The zone written by one pass of [checkGravityZones] keeps a one-shot
    zone that has activated in that state. *)
Lemma checkGravityZone_oneShot (dt : Q) (zone : Zone.t) (player : Player.t) :
  Zone.oneShot zone = true -> Zone.hasActivated zone = true ->
  let zone' := fst (checkGravityZone dt zone player) in
  Zone.oneShot zone' = true /\ Zone.hasActivated zone' = true.
Proof.
  intros Ho Ha. unfold checkGravityZone.
  set (z1 := if timerFalsy (Zone.cooldownTimer zone)
             then Zone.set_runtime zone (Zone.hasActivated zone) (Some 0) else zone).
  assert (H1 : Zone.oneShot z1 = true /\ Zone.hasActivated z1 = true).
  { subst z1. destruct (timerFalsy _); cbn; auto. }
  set (z2 := match Zone.cooldownTimer z1 with
             | Some t => if Qgtb t 0
                         then Zone.set_runtime z1 (Zone.hasActivated z1) (Some (t - dt))
                         else z1
             | None => z1
             end).
  assert (H2 : Zone.oneShot z2 = true /\ Zone.hasActivated z2 = true).
  { subst z2. destruct (Zone.cooldownTimer z1) as [t|]; [destruct (Qgtb t 0)|];
      cbn; tauto. }
  clearbody z2. clear z1 H1. destruct H2 as [Ho2 Ha2].
  assert (Hact : forall p, activateGravityZone z2 p = (z2, p)).
  { intro p. apply activateGravityZone_refused. unfold refuses.
    rewrite Ho2, Ha2. reflexivity. }
  cbv zeta.
  repeat match goal with
  | |- context [activateGravityZone z2 ?p] => rewrite (Hact p)
  end.
  repeat match goal with
  | |- context [if ?c then _ else _] => destruct c
  end; cbn; rewrite ?Hact; cbn; auto.
Qed.

(** C5.  For a one-shot zone whose [hasActivated] is true, [activate]
    returns with the zone and the actor (its timers included) exactly as
    they were; this holds for any number of further calls, whatever the
    actor is by then, and a pass of the zone check keeps the zone in that
    state. *)
Theorem oneShot_zone_never_reactivates (zone : Zone.t) (player : Player.t) :
  Zone.oneShot zone = true -> Zone.hasActivated zone = true ->
  activateGravityZone zone player = (zone, player) /\
  (forall players : list Player.t,
     activateMany players zone player = (zone, last players player)) /\
  (forall (dt : Q) (other : Player.t),
     let zone' := fst (checkGravityZone dt zone other) in
     Zone.oneShot zone' = true /\ Zone.hasActivated zone' = true).
Proof.
  intros Ho Ha. split; [|split].
  - apply activateGravityZone_refused. unfold refuses. rewrite Ho, Ha. reflexivity.
  - intro players. apply activateMany_oneShot; assumption.
  - intros dt other. apply checkGravityZone_oneShot; assumption.
Qed.

Lemma oneShot_zone_never_reactivates_witness :
  activateGravityZone usedOneShotZone fallingPlayer = (usedOneShotZone, fallingPlayer).
Proof.
  destruct (oneShot_zone_never_reactivates usedOneShotZone fallingPlayer) as (H & _).
  - reflexivity.
  - reflexivity.
  - exact H.
Defined.

Lemma makeZone_cooldown (chapterData : Chapter.t) (levelData : Level.t)
    (index : nat) (bounds : Bounds.t) :
  Zone.cooldown (makeZone chapterData levelData index bounds)
  = match ZoneConfig.cooldown (selectConfig chapterData levelData index) with
    | Some c => c
    | None => 1 # 2
    end.
Proof. reflexivity. Qed.

Lemma activateGravityZone_timer (zone : Zone.t) (player : Player.t) :
  ~ Player.gravityScale (snd (activateGravityZone zone player))
    == Player.gravityScale player ->
  Zone.cooldownTimer (fst (activateGravityZone zone player))
  = Some (cooldownOrDefault zone).
Proof.
  destruct (refuses zone) eqn:R.
  - rewrite activateGravityZone_refused by exact R. cbn.
    intro H. exfalso. apply H. reflexivity.
  - rewrite activateGravityZone_accepted by exact R. cbv zeta.
    destruct (Qneqb _ _) eqn:E; cbn; [reflexivity|].
    qprop. intro H. exfalso. apply H. rewrite E. reflexivity.
Qed.

(** C10 (as the code has it).  A zone configured with [cooldown = 0] is
    parsed with that zero (the 0.5 default is for an absent entry only),
    and an activation of it that changes gravity sets [cooldownTimer] to
    1.0, so that the next activation is refused.  Every other configured
    cooldown, strictly positive or negative, is the value the timer is set
    to: the timer is the configured value exactly when that is not zero. *)
Theorem zero_cooldown_becomes_one_second (chapterData : Chapter.t) (levelData : Level.t)
    (index : nat) (bounds : Bounds.t) (c : Q) (zone : Zone.t) (player : Player.t) :
  ZoneConfig.cooldown (selectConfig chapterData levelData index) = Some c ->
  Zone.cooldown zone = Zone.cooldown (makeZone chapterData levelData index bounds) ->
  let zone' := fst (activateGravityZone zone player) in
  let player' := snd (activateGravityZone zone player) in
  ~ Player.gravityScale player' == Player.gravityScale player ->
  Zone.cooldown zone = c /\
  (c == 0 ->
     Zone.cooldownTimer zone' = Some 1 /\
     forall next : Player.t, activateGravityZone zone' next = (zone', next)) /\
  (~ c == 0 -> Zone.cooldownTimer zone' = Some c) /\
  (0 < c -> Zone.cooldownTimer zone' = Some c) /\
  (Zone.cooldownTimer zone' = Some c <-> ~ c == 0).
Proof.
  intros Hc Hz zone' player' Hchanged.
  assert (Hcd : Zone.cooldown zone = c).
  { rewrite Hz, makeZone_cooldown, Hc. reflexivity. }
  assert (Htimer : Zone.cooldownTimer zone' = Some (cooldownOrDefault zone)).
  { apply activateGravityZone_timer. exact Hchanged. }
  unfold cooldownOrDefault in Htimer. rewrite Hcd in Htimer.
  split; [exact Hcd|].
  assert (Hzero : c == 0 -> Zone.cooldownTimer zone' = Some 1).
  { intro H0. apply Qeq_bool_iff in H0. rewrite H0 in Htimer. exact Htimer. }
  assert (Hnz : ~ c == 0 -> Zone.cooldownTimer zone' = Some c).
  { intro Hn. destruct (Qeq_bool c 0) eqn:E; [|exact Htimer].
    apply Qeq_bool_iff in E. contradiction. }
  split; [|split; [|split; [|split]]].
  - intro H0. split; [apply Hzero, H0|].
    intro next. apply activateGravityZone_refused. unfold refuses.
    rewrite (Hzero H0). cbn. apply orb_true_r.
  - exact Hnz.
  - intro H. apply Hnz. lra.
  - intros H H0. rewrite (Hzero H0) in H.
    injection H as H. rewrite <- H in H0. discriminate H0.
  - exact Hnz.
Qed.

(** C10, as stated, fails for a negative configured cooldown: it is not
    strictly positive, yet a gravity-changing activation sets the timer to
    exactly that value, and the zone can fire again at once. *)
Lemma negative_cooldown_is_kept_as_given :
  ZoneConfig.cooldown (selectConfig negativeCooldownChapter dropLevel 0) = Some (- (1)) /\
  Zone.cooldown negativeCooldownZone = - (1) /\
  ~ 0 < Zone.cooldown negativeCooldownZone /\
  let zone' := fst (activateGravityZone negativeCooldownZone fallingPlayer) in
  let player' := snd (activateGravityZone negativeCooldownZone fallingPlayer) in
  ~ Player.gravityScale player' == Player.gravityScale fallingPlayer /\
  Zone.cooldownTimer zone' = Some (Zone.cooldown negativeCooldownZone) /\
  refuses zone' = false /\
  ~ Player.gravityScale (snd (activateGravityZone zone' player'))
    == Player.gravityScale player'.
Proof.
  split; [reflexivity|]. split; [reflexivity|].
  split; [vm_compute; discriminate|]. cbv zeta.
  split; [vm_compute; discriminate|]. split; [reflexivity|].
  split; [reflexivity|]. vm_compute. discriminate.
Qed.

Lemma zero_cooldown_becomes_one_second_witness :
  let zone := makeZone zeroCooldownChapter dropLevel 0 (Bounds.mk 0 1 2 3) in
  Zone.cooldown zone = 0 /\
  Zone.cooldownTimer (fst (activateGravityZone zone fallingPlayer)) = Some 1.
Proof.
  destruct (zero_cooldown_becomes_one_second zeroCooldownChapter dropLevel 0
              (Bounds.mk 0 1 2 3) 0
              (makeZone zeroCooldownChapter dropLevel 0 (Bounds.mk 0 1 2 3))
              fallingPlayer)
    as (Hc & Hzero & _).
  - reflexivity.
  - reflexivity.
  - vm_compute. discriminate.
  - cbv zeta. split; [exact Hc|]. apply Hzero. reflexivity.
Defined.

(** ** Physics: collision resolution *)


Lemma resolveVertical_still (player : Player.t) (platform : Rect.t) :
  Player.vy player == 0 -> resolveVertical player platform = player.
Proof.
  intro H. unfold resolveVertical.
  destruct (checkCollision _ _); [|reflexivity].
  assert (E1 : Qgtb (Player.vy player) 0 = false) by (apply Qgtb_false; lra).
  assert (E2 : Qltb (Player.vy player) 0 = false) by (apply Qltb_false; lra).
  rewrite E1, E2. destruct (Qgtb (Player.gravityScale player) 0); reflexivity.
Qed.


Lemma fold_resolveVertical_still (solids : list Rect.t) (player : Player.t) :
  Player.vy player == 0 -> fold_left resolveVertical solids player = player.
Proof.
  intro H. induction solids as [|s rest IH]; [reflexivity|].
  cbn [fold_left]. rewrite resolveVertical_still by exact H. exact IH.
Qed.


(** ** Physics: an actor at rest on a platform *)



Lemma updateGravityTimers_body (dt : Q) (player : Player.t) :
  let player' := updateGravityTimers dt player in
  Player.x player' = Player.x player /\ Player.y player' = Player.y player /\
  Player.width player' = Player.width player /\
  Player.height player' = Player.height player /\
  Player.vy player' = Player.vy player /\
  Player.onGround player' = Player.onGround player /\
  Player.hasJumped player' = Player.hasJumped player /\
  (Player.gravityScale player' = Player.gravityScale player \/
   Player.gravityScale player' = 1).
Proof.
  unfold updateGravityTimers.
  repeat match goal with
  | |- context [if ?c then _ else _] => destruct c
  end; cbn; repeat split; auto.
Qed.







Lemma completeLevel_player (g : Game.t) : Game.player (completeLevel g) = Game.player g.
Proof. reflexivity. Qed.

Lemma fallStep_player (g : Game.t) : Game.player (fallStep g) = Game.player g.
Proof. unfold fallStep. destruct (Qgtb _ _); [apply dieWrites_player|reflexivity]. Qed.

Lemma doorStep_player (g : Game.t) : Game.player (doorStep g) = Game.player g.
Proof.
  unfold doorStep. destruct (Game.door g) as [door|]; [|reflexivity].
  destruct (checkCollision _ _); reflexivity.
Qed.

Lemma spikeDeathStep_player (g : Game.t) : Game.player (spikeDeathStep g) = Game.player g.
Proof. unfold spikeDeathStep. destruct (existsb _ _); [apply dieWrites_player|reflexivity]. Qed.

Lemma animateStep_player (dt : Q) (g : Game.t) :
  Game.player (animateStep dt g) = Game.player g.
Proof. reflexivity. Qed.

Lemma zoneStep_player (dt : Q) (g : Game.t) :
  Game.player (zoneStep dt g)
  = snd (checkGravityZones dt (Game.gravityZones g) (Game.player g)).
Proof. reflexivity. Qed.

Lemma triggerStep_player (g : Game.t) :
  Game.player (triggerStep g) = Game.player g /\
  Game.gravityZones (triggerStep g) = Game.gravityZones g.
Proof. split; reflexivity. Qed.

Lemma physicsStep_player (dt : Q) (g : Game.t) :
  Game.player (physicsStep dt g) = stepPlayer g dt /\
  Game.gravityZones (physicsStep dt g) = Game.gravityZones g.
Proof. split; reflexivity. Qed.

Lemma updatePlaying_player (dt : Q) (g : Game.t) :
  Game.player (updatePlaying dt g)
  = snd (checkGravityZones dt (Game.gravityZones g) (stepPlayer g dt)).
Proof.
  unfold updatePlaying.
  rewrite fallStep_player, doorStep_player, spikeDeathStep_player,
    animateStep_player, zoneStep_player.
  destruct (triggerStep_player (physicsStep dt g)) as [-> ->].
  destruct (physicsStep_player dt g) as [-> ->].
  reflexivity.
Qed.

(** Reduce the projections of a player built by setters. *)
Ltac pfields :=
  cbn [Player.x Player.y Player.width Player.height Player.vx Player.vy
       Player.onGround Player.hasJumped Player.gravityScale
       Player.set_x Player.set_y Player.set_vx Player.set_vy
       Player.set_onGround Player.set_hasJumped Player.set_gravityScale].






(** ** Parser: spike defaults *)

Section SpikeDefaults.

Variable canvas : Canvas.t.
Variable customTriggers : list Q.
Variable customTriggerLengths : list (option Q).

Lemma makeSpike_defaults (i : nat) (x y moveDistance : Q) :
  let spike := makeSpike canvas customTriggers customTriggerLengths i x y moveDistance in
  (nth_error customTriggers i = None ->
     Spike.triggerOffset spike = defaultTriggerOffset /\
     Spike.triggerX spike == Spike.x spike + (1 # 2) * TILE_SIZE) /\
  (nth_error customTriggerLengths i = None \/
   nth_error customTriggerLengths i = Some None ->
     Spike.triggerLength spike = None /\
     Spike.triggerY spike = 0 /\
     Spike.triggerHeight spike = Canvas.height canvas).
Proof.
  unfold makeSpike. split.
  - intro H. rewrite H.
    destruct (match nth_error customTriggerLengths i with
              | Some (Some l) => Some l | _ => None end) as [l|];
      [destruct (Qeq_bool l 0); [|destruct (Qgtb l 0)]|];
      cbn; (split; [reflexivity|unfold defaultTriggerOffset; ring]).
  - intros [H|H]; rewrite H; cbn; auto.
Qed.

Lemma parseCell_spikesIndexed (st : Pass1.t) (cell : Z * Z * ascii) :
  spikesIndexed canvas customTriggers customTriggerLengths st ->
  spikesIndexed canvas customTriggers customTriggerLengths
    (parseCell canvas customTriggers customTriggerLengths st cell).
Proof.
  intros [Hidx Hall]. destruct cell as [[row col] char].
  destruct st as [pl fb ip sp dr sw si]. cbn [Pass1.spikeIndex Pass1.spikes] in *.
  unfold parseCell.
  destruct (Ascii.eqb char "#"); [split; assumption|].
  destruct (Ascii.eqb char "F"); [split; assumption|].
  destruct (Ascii.eqb char "I"); [split; assumption|].
  match goal with
  | |- context [match ?e with Some _ => _ | None => _ end] => destruct e as [md|]
  end.
  - split; cbn [Pass1.spikeIndex Pass1.spikes].
    + rewrite length_app. cbn. lia.
    + intros i spike Hn.
      destruct (Nat.lt_ge_cases i (List.length sp)) as [Hlt|Hge].
      * rewrite nth_error_app1 in Hn by exact Hlt. apply Hall. exact Hn.
      * rewrite nth_error_app2 in Hn by exact Hge.
        destruct (i - List.length sp)%nat as [|k] eqn:Ek.
        -- cbn in Hn. injection Hn as <-.
           assert (i = si) by lia. subst i. eauto.
        -- destruct k; discriminate Hn.
  - destruct (Ascii.eqb char "D"); [split; assumption|].
    destruct (Ascii.eqb char "S"); split; assumption.
Qed.

End SpikeDefaults.

Lemma parseGeometry_spikesIndexed (canvas : Canvas.t) (levelData : Level.t) :
  spikesIndexed canvas (orEmpty (Level.spikeTriggers levelData))
    (orEmpty (Level.spikeTriggerLengths levelData))
    (parseGeometry canvas levelData).
Proof.
  unfold parseGeometry.
  assert (H : spikesIndexed canvas (orEmpty (Level.spikeTriggers levelData))
                (orEmpty (Level.spikeTriggerLengths levelData)) Pass1.init).
  { split; [reflexivity|]. intros i spike Hn. destruct i; discriminate Hn. }
  revert H. generalize Pass1.init.
  induction (cells (Level.map levelData)) as [|cell rest IH]; intros st H.
  - exact H.
  - cbn [fold_left]. apply IH. apply parseCell_spikesIndexed. exact H.
Qed.

Lemma parseLevel_spikes (g g' : Game.t) (levelData : Level.t) :
  nth_error (levels (Game.chapters g)) (Game.currentLevel g) = Some levelData ->
  parseLevel g = Ok g' ->
  Game.spikes g' = Pass1.spikes (parseGeometry (Game.canvas g) levelData).
Proof.
  intros Hl Hp. unfold parseLevel in Hp. rewrite Hl in Hp.
  unfold ENABLE_GRAVITY_ZONES in Hp.
  destruct (parseGravityZones _ _) as [zones|]; [|discriminate Hp].
  injection Hp as <-. reflexivity.
Qed.

(** C6.  In the parsed level, the spike at discovery index [i] whose index
    the [spikeTriggers] array does not cover has the default trigger
    offset of -0.5 tiles, that is [triggerX = x + 0.5 * TILE_SIZE]; and
    one whose index the [spikeTriggerLengths] array does not cover, or
    whose entry there is [null], has the full-height window [triggerY = 0],
    [triggerHeight = canvas.height].  The two fallbacks are independent. *)
Theorem missing_overrides_fall_back (g g' : Game.t) (levelData : Level.t)
    (i : nat) (spike : Spike.t) :
  nth_error (levels (Game.chapters g)) (Game.currentLevel g) = Some levelData ->
  parseLevel g = Ok g' ->
  nth_error (Game.spikes g') i = Some spike ->
  let customTriggers := orEmpty (Level.spikeTriggers levelData) in
  let customTriggerLengths := orEmpty (Level.spikeTriggerLengths levelData) in
  (nth_error customTriggers i = None ->
     Spike.triggerOffset spike = - (1 # 2) /\
     Spike.triggerX spike == Spike.x spike + (1 # 2) * TILE_SIZE) /\
  (nth_error customTriggerLengths i = None \/
   nth_error customTriggerLengths i = Some None ->
     Spike.triggerY spike = 0 /\
     Spike.triggerHeight spike = Canvas.height (Game.canvas g)).
Proof.
  intros Hl Hp Hn customTriggers customTriggerLengths.
  rewrite (parseLevel_spikes g g' levelData Hl Hp) in Hn.
  destruct (parseGeometry_spikesIndexed (Game.canvas g) levelData) as [_ Hall].
  destruct (Hall i spike Hn) as (x & y & md & ->).
  destruct (makeSpike_defaults (Game.canvas g) customTriggers customTriggerLengths
              i x y md) as [H1 H2].
  split.
  - intro H. apply H1. exact H.
  - intro H. destruct (H2 H) as (_ & Hy & Hh). split; assumption.
Qed.

Lemma missing_overrides_fall_back_witness :
  let spike := nth 2 (Game.spikes spikesParsed) firedSpike in
  Spike.triggerX spike == Spike.x spike + 30 /\
  Spike.triggerY spike = 0 /\ Spike.triggerHeight spike = 720.
Proof.
  destruct (missing_overrides_fall_back spikesGame spikesParsed spikesLevel 2
              (nth 2 (Game.spikes spikesParsed) firedSpike))
    as [H1 H2].
  - reflexivity.
  - vm_compute. reflexivity.
  - vm_compute. reflexivity.
  - destruct H1 as [_ H1]; [reflexivity|].
    destruct H2 as [H2 H3]; [left; reflexivity|].
    cbv zeta. split; [rewrite H1; unfold TILE_SIZE; ring|]. split; assumption.
Defined.

(** ** Parser: the flood fill runs to its end *)

Lemma indexed_from_In {A : Type} (l : list A) :
  forall (s n : nat) (a : A),
  nth_error l n = Some a ->
  In (Z.of_nat (s + n), a) (combine (List.map Z.of_nat (seq s (List.length l))) l).
Proof.
  induction l as [|b l IH]; intros s n a Hn.
  - destruct n; discriminate Hn.
  - destruct n as [|n]; cbn in Hn |- *.
    + injection Hn as ->. left. rewrite Nat.add_0_r. reflexivity.
    + right. replace (s + S n)%nat with (S s + n)%nat by lia. apply IH. exact Hn.
Qed.

Lemma indexed_In {A : Type} (l : list A) (n : nat) (a : A) :
  nth_error l n = Some a -> In (Z.of_nat n, a) (indexed l).
Proof. intro H. apply (indexed_from_In l 0 n a H). Qed.

Section FloodFill.

Variable levelMap : list string.

Lemma charAt_cells (row col : Z) (char : ascii) :
  charAt levelMap row col = Some char -> In (row, col, char) (cells levelMap).
Proof.
  unfold charAt. intro H.
  destruct ((0 <=? row)%Z && (row <? Z.of_nat (List.length levelMap))%Z) eqn:Er;
    [|discriminate H].
  destruct (nth_error levelMap (Z.to_nat row)) as [line|] eqn:El; [|discriminate H].
  destruct ((0 <=? col)%Z && (col <? Z.of_nat (String.length line))%Z) eqn:Ec;
    [|discriminate H].
  apply andb_true_iff in Er, Ec. destruct Er as [Er _], Ec as [Ec _].
  apply Z.leb_le in Er, Ec.
  unfold cells. apply in_flat_map. exists (row, line). split.
  - rewrite <- (Z2Nat.id row Er). apply indexed_In. exact El.
  - apply in_map_iff. exists (col, char). split; [reflexivity|].
    rewrite <- (Z2Nat.id col Ec). apply indexed_In. exact H.
Qed.

Lemma charAt_marker (row col : Z) (char : ascii) :
  charAt levelMap row col = Some char -> isZoneChar char = true ->
  In (row, col, char) (zoneMarkers levelMap).
Proof.
  intros H Hz. unfold zoneMarkers. apply filter_In. split.
  - apply charAt_cells. exact H.
  - exact Hz.
Qed.

Lemma pushNeighbours_bound (processed : list (Z * Z))
    (row col : Z) (stack : list (Z * Z * ascii)) :
  Forall (fun m => In m (zoneMarkers levelMap)) stack ->
  let stack' := pushNeighbours levelMap processed row col stack in
  Forall (fun m => In m (zoneMarkers levelMap)) stack' /\
  (List.length stack' <= List.length stack + 4)%nat.
Proof.
  unfold pushNeighbours.
  change 4%nat with (List.length directions).
  generalize directions. intros dirs. revert stack.
  induction dirs as [|[dr dc] dirs IH]; intros stack Hall.
  - cbn. split; [exact Hall|lia].
  - cbn [fold_left List.length].
    set (next := match charAt levelMap (row + dr) (col + dc) with
                 | Some char =>
                     if isZoneChar char && negb (posHas processed (row + dr) (col + dc))
                     then (row + dr, col + dc, char)%Z :: stack
                     else stack
                 | None => stack
                 end).
    assert (Hnext : Forall (fun m => In m (zoneMarkers levelMap)) next /\
                    (List.length next <= S (List.length stack))%nat).
    { subst next. destruct (charAt levelMap (row + dr) (col + dc)) as [char|] eqn:Ec;
        [|split; [exact Hall|lia]].
      destruct (isZoneChar char && negb (posHas processed (row + dr) (col + dc))) eqn:Ez;
        [|split; [exact Hall|lia]].
      apply andb_true_iff in Ez. destruct Ez as [Ez _].
      split; [|cbn; lia].
      constructor; [|exact Hall]. apply charAt_marker; assumption. }
    destruct Hnext as [Hn1 Hn2]. destruct (IH next Hn1) as [I1 I2].
    split; [exact I1|]. lia.
Qed.

Lemma filter_length_le {A : Type} (f g : A -> bool) (l : list A) :
  (forall x, g x = true -> f x = true) ->
  (List.length (filter g l) <= List.length (filter f l))%nat.
Proof.
  intro H. induction l as [|a l IH]; [cbn; lia|].
  cbn. destruct (g a) eqn:Eg.
  - rewrite (H a Eg). cbn. lia.
  - destruct (f a); cbn; lia.
Qed.

Lemma filter_length_lt {A : Type} (f g : A -> bool) (l : list A) (a : A) :
  (forall x, g x = true -> f x = true) ->
  In a l -> f a = true -> g a = false ->
  (List.length (filter g l) < List.length (filter f l))%nat.
Proof.
  intros H Hin Hf Hg. induction l as [|b l IH]; [destruct Hin|].
  cbn. destruct Hin as [->|Hin].
  - rewrite Hf, Hg. cbn. pose proof (filter_length_le f g l H). lia.
  - specialize (IH Hin). destruct (g b) eqn:Eg.
    + rewrite (H b Eg). cbn. lia.
    + destruct (f b); cbn; lia.
Qed.

Lemma unprocessed_decreases (processed : list (Z * Z))
    (row col : Z) (char : ascii) :
  In (row, col, char) (zoneMarkers levelMap) ->
  posHas processed row col = false ->
  (unprocessed levelMap ((row, col) :: processed) < unprocessed levelMap processed)%nat.
Proof.
  intros Hin Hp. unfold unprocessed.
  apply (filter_length_lt _ _ _ (row, col, char)).
  - intros [[r c] ch] H. cbn in H. apply negb_true_iff in H.
    apply orb_false_iff in H. destruct H as [_ H]. rewrite negb_true_iff. exact H.
  - exact Hin.
  - rewrite Hp. reflexivity.
  - cbn. rewrite !Z.eqb_refl. reflexivity.
Qed.

(** The [while] loop of the flood fill ends with an empty stack whenever
    the fuel exceeds the stack size plus four times the markers still
    unprocessed. *)
Lemma floodFill_completes (fuel : nat) :
  forall (stack : list (Z * Z * ascii)) (processed : list (Z * Z)) (zone : Bounds.t),
  Forall (fun m => In m (zoneMarkers levelMap)) stack ->
  (List.length stack + 4 * unprocessed levelMap processed < fuel)%nat ->
  fst (fst (floodFill levelMap fuel stack processed zone)) = [].
Proof.
  induction fuel as [|fuel IH]; intros stack processed zone Hall Hlt; [lia|].
  cbn [floodFill]. destruct stack as [|[[row col] char] stack]; [reflexivity|].
  inversion Hall as [|m ms Hm Hms]; subst.
  cbn [List.length] in Hlt.
  destruct (posHas processed row col) eqn:Ep.
  - apply IH; [exact Hms|lia].
  - destruct (pushNeighbours_bound ((row, col) :: processed) row col stack Hms)
      as [P1 P2].
    pose proof (unprocessed_decreases processed row col char Hm Ep).
    apply IH; [exact P1|lia].
Qed.

(** Every flood fill [detectZones] starts has fuel enough: it stops
    because its stack is empty. *)
Lemma floodFill_fuel_suffices (marker : Z * Z * ascii)
    (processed : list (Z * Z)) (zone : Bounds.t) :
  In marker (zoneMarkers levelMap) ->
  fst (fst (floodFill levelMap (floodFuel levelMap) [marker] processed zone)) = [].
Proof.
  intro Hin. apply floodFill_completes.
  - constructor; [exact Hin|constructor].
  - unfold floodFuel. cbn [List.length].
    assert (unprocessed levelMap processed <= List.length (zoneMarkers levelMap))%nat.
    { unfold unprocessed. generalize (zoneMarkers levelMap). intro l.
      induction l as [|a l IHl]; cbn; [lia|].
      destruct (let '(row, col, _) := a in negb (posHas processed row col));
        cbn; lia. }
    lia.
Qed.

End FloodFill.

(** ** Parser: idempotence *)

Lemma parseLevel_parsed (g : Game.t) :
  parseLevel g
  = match parsed (Game.canvas g) (Game.chapters g) (Game.currentChapter g)
            (Game.currentLevel g) with
    | Ok (st, zones) => Ok (install g st zones)
    | TypeError => TypeError
    end.
Proof.
  unfold parseLevel, parsed, install, ENABLE_GRAVITY_ZONES.
  destruct (nth_error (levels (Game.chapters g)) (Game.currentLevel g)) as [levelData|];
    [|reflexivity].
  cbn [Game.chapters Game.currentChapter Game.set_geometry].
  destruct (parseGravityZones _ _); reflexivity.
Qed.

Lemma install_geometry (g : Game.t) (st : Pass1.t) (zones : list Zone.t) :
  geometry (install g st zones)
  = (Pass1.platforms st, Pass1.fakeBlocks st, Pass1.invisiblePlatforms st,
     Pass1.spikes st, Pass1.door st, Pass1.spawnPoint st, zones).
Proof. reflexivity. Qed.

Lemma install_install (g : Game.t) (st : Pass1.t) (zones : list Zone.t) :
  install (install g st zones) st zones = install g st zones.
Proof. reflexivity. Qed.

Lemma install_sameDefinition (g : Game.t) (st : Pass1.t) (zones : list Zone.t) :
  sameDefinition g (install g st zones).
Proof. repeat split. Qed.

Lemma parsed_total (canvas : Canvas.t) (chapters : list Chapter.t)
    (currentChapter currentLevel : nat) :
  (currentLevel < List.length (levels chapters))%nat ->
  (currentChapter < List.length chapters)%nat ->
  exists st zones, parsed canvas chapters currentChapter currentLevel = Ok (st, zones).
Proof.
  intros Hl Hc. unfold parsed.
  destruct (nth_error (levels chapters) currentLevel) as [levelData|] eqn:El.
  - destruct (nth_error chapters currentChapter) as [chapterData|] eqn:Ec.
    + unfold parseGravityZones. eauto.
    + apply nth_error_None in Ec. lia.
  - apply nth_error_None in El. lia.
Qed.

(** C7.  [parseLevel] is a function of the canvas and of the selected
    level of the static chapter list: from two game states that agree on
    these, whatever their old lists hold, it builds identical platforms,
    fake blocks, invisible platforms, spikes, door, spawn point and gravity
    zones (or fails alike); parsing the parsed state again changes
    nothing; and the chapter list, with the level maps and override arrays
    in it, is the same after the call.  It returns for every level and
    chapter index in range. *)
Theorem parseLevel_idempotent (g1 g2 : Game.t) :
  sameDefinition g1 g2 ->
  (forall g1', parseLevel g1 = Ok g1' ->
     (exists g2', parseLevel g2 = Ok g2' /\ geometry g2' = geometry g1') /\
     parseLevel g1' = Ok g1' /\
     sameDefinition g1 g1') /\
  (parseLevel g1 = TypeError -> parseLevel g2 = TypeError) /\
  ((Game.currentLevel g1 < List.length (levels (Game.chapters g1)))%nat ->
   (Game.currentChapter g1 < List.length (Game.chapters g1))%nat ->
   exists g1', parseLevel g1 = Ok g1').
Proof.
  intros (Hcv & Hch & Hcc & Hcl).
  rewrite (parseLevel_parsed g1), (parseLevel_parsed g2).
  rewrite <- Hcv, <- Hch, <- Hcc, <- Hcl.
  split; [|split].
  - intros g1' H1.
    destruct (parsed _ _ _ _) as [[st zones]|] eqn:Ep; [|discriminate H1].
    injection H1 as <-. split; [|split].
    + exists (install g2 st zones). split; [reflexivity|].
      rewrite !install_geometry. reflexivity.
    + rewrite parseLevel_parsed.
      destruct (install_sameDefinition g1 st zones) as (E1 & E2 & E3 & E4).
      rewrite <- E1, <- E2, <- E3, <- E4, Ep, install_install. reflexivity.
    + apply install_sameDefinition.
  - destruct (parsed _ _ _ _) as [[st zones]|]; [discriminate|reflexivity].
  - intros Hl Hc.
    destruct (parsed_total (Game.canvas g1) (Game.chapters g1) (Game.currentChapter g1)
                (Game.currentLevel g1) Hl Hc) as (st & zones & ->).
    eauto.
Qed.

Lemma parseLevel_idempotent_witness :
  exists g', parseLevel spikesGame = Ok g' /\
             (exists g'', parseLevel playedGame = Ok g'' /\ geometry g'' = geometry g') /\
             parseLevel g' = Ok g'.
Proof.
  destruct (parseLevel_idempotent spikesGame playedGame) as (H & _ & Htotal).
  - repeat split.
  - destruct Htotal as [g' Hg']; [vm_compute; lia | vm_compute; lia |].
    exists g'. destruct (H g' Hg') as (H1 & H2 & _).
    split; [exact Hg'|]. split; assumption.
Defined.

(** ** Frame loop *)

Lemma prototype_gameLoop_capped (lastTime currentTime dt last : Q) :
  Prototype.gameLoop false lastTime currentTime = Some (dt, last) ->
  dt <= 1 # 10 /\
  (100 < currentTime - lastTime -> dt == 1667 # 100000).
Proof.
  unfold Prototype.gameLoop. intro H. injection H as <- _. split.
  - apply Q.le_min_r.
  - intro Hbig. apply Qgtb_true in Hbig. rewrite Hbig.
    rewrite Q.min_l; [reflexivity|]. vm_compute. discriminate.
Qed.

(** C8 fails on this revision of [gameLoop]: with [lastTime = 0] and an
    animation-frame callback at 5000 ms, the delta time handed to
    [update] is 5 seconds; nothing caps it and no fallback replaces it. *)
Theorem gameLoop_delta_is_uncapped :
  exists dt last,
    gameLoop false 0 5000 = Some (dt, last) /\ dt == 5 /\ ~ dt <= 1 # 10 /\
    (forall lastTime currentTime : Q,
       gameLoop false lastTime currentTime
       = Some ((currentTime - lastTime) / 1000, currentTime)).
Proof.
  eexists. eexists. split; [reflexivity|].
  split; [reflexivity|]. split; [|reflexivity].
  vm_compute. intro H. apply H. reflexivity.
Qed.

(** ** Chapter and level indices *)

Lemma levels_cons (chapter : Chapter.t) (rest : list Chapter.t) :
  levels (chapter :: rest) = chapterAllLevels chapter ++ levels rest.
Proof. reflexivity. Qed.

Lemma chapterAllLevels_length (chapter : Chapter.t) :
  List.length (chapterAllLevels chapter) = chapterTotalLevels chapter.
Proof.
  unfold chapterAllLevels, chapterTotalLevels. rewrite length_app.
  destruct (Chapter.bonusLevel chapter); reflexivity.
Qed.

Lemma countLevelsBefore_spec (chapters : list Chapter.t) :
  forall chapterIndex globalIndex : nat,
  countLevelsBefore chapters chapterIndex globalIndex
  = if (chapterIndex <=? List.length chapters)%nat
    then Ok (globalIndex + List.length (levels (firstn chapterIndex chapters)))%nat
    else TypeError.
Proof.
  induction chapters as [|chapter rest IH]; intros [|n] acc; cbn [countLevelsBefore].
  - cbn. rewrite Nat.add_0_r. reflexivity.
  - reflexivity.
  - cbn. rewrite Nat.add_0_r. reflexivity.
  - rewrite IH. cbn [List.length firstn]. change (S n <=? S (List.length rest))%nat
      with (n <=? List.length rest)%nat.
    destruct (n <=? List.length rest)%nat; [|reflexivity].
    rewrite levels_cons, length_app, chapterAllLevels_length. f_equal. lia.
Qed.

(** Where the walk over the chapters stops for an index that lies [l]
    levels into chapter [c]. *)
Lemma walk_finds_chapter (chapters : list Chapter.t) :
  forall (c i currentIndex l : nat) (chapter : Chapter.t),
  nth_error chapters c = Some chapter ->
  (l < chapterTotalLevels chapter)%nat ->
  let g := (currentIndex + List.length (levels (firstn c chapters)) + l)%nat in
  getChapterFrom chapters i currentIndex g = (i + c)%nat /\
  getLevelInChapterFrom chapters currentIndex g = l.
Proof.
  induction chapters as [|first rest IH]; intros c i cur l chapter Hc Hl.
  - destruct c; discriminate Hc.
  - destruct c as [|c]; cbn [nth_error] in Hc.
    + injection Hc as ->. cbn [firstn levels flat_map List.length getChapterFrom
                               getLevelInChapterFrom].
      assert (E : (cur + 0 + l <? cur + chapterTotalLevels chapter)%nat = true)
        by (apply Nat.ltb_lt; lia).
      rewrite E. split; lia.
    + cbn [firstn]. rewrite levels_cons, length_app, chapterAllLevels_length.
      cbn [getChapterFrom getLevelInChapterFrom].
      assert (E : (cur + (chapterTotalLevels first
                          + List.length (levels (firstn c rest))) + l
                   <? cur + chapterTotalLevels first)%nat = false)
        by (apply Nat.ltb_ge; lia).
      rewrite E.
      destruct (IH c (S i) (cur + chapterTotalLevels first)%nat l chapter Hc Hl)
        as [I1 I2].
      replace (cur + (chapterTotalLevels first + List.length (levels (firstn c rest))) + l)%nat
        with (cur + chapterTotalLevels first + List.length (levels (firstn c rest)) + l)%nat
        by lia.
      split; [rewrite I1; lia | exact I2].
Qed.

Lemma levels_firstn_lookup (chapters : list Chapter.t) :
  forall (c l : nat) (chapter : Chapter.t),
  nth_error chapters c = Some chapter ->
  (l < chapterTotalLevels chapter)%nat ->
  nth_error (levels chapters) (List.length (levels (firstn c chapters)) + l)
  = nth_error (chapterAllLevels chapter) l.
Proof.
  induction chapters as [|first rest IH]; intros c l chapter Hc Hl.
  - destruct c; discriminate Hc.
  - destruct c as [|c]; cbn [nth_error] in Hc.
    + injection Hc as ->. cbn [firstn]. rewrite levels_cons.
      change (levels []) with (@nil Level.t). cbn [List.length Nat.add].
      apply nth_error_app1. rewrite chapterAllLevels_length. exact Hl.
    + cbn [firstn]. rewrite !levels_cons, length_app.
      rewrite nth_error_app2 by lia.
      replace (List.length (chapterAllLevels first)
               + List.length (levels (firstn c rest)) + l
               - List.length (chapterAllLevels first))%nat
        with (List.length (levels (firstn c rest)) + l)%nat by lia.
      apply IH; assumption.
Qed.

Lemma level_index_round_trip_aux (chapters : list Chapter.t) (c l : nat)
    (chapter : Chapter.t) :
  nth_error chapters c = Some chapter ->
  (l < chapterTotalLevels chapter)%nat ->
  exists g,
    getGlobalLevelIndex chapters c l = Ok g /\
    getChapterFromGlobalLevel chapters g = c /\
    getLevelInChapterFromGlobalLevel chapters g = l /\
    nth_error (levels chapters) g = nth_error (chapterAllLevels chapter) l.
Proof.
  intros Hc Hl.
  assert (Hlen : (c < List.length chapters)%nat)
    by (apply nth_error_Some; congruence).
  exists (List.length (levels (firstn c chapters)) + l)%nat.
  unfold getGlobalLevelIndex. rewrite countLevelsBefore_spec.
  assert (E : (c <=? List.length chapters)%nat = true) by (apply Nat.leb_le; lia).
  rewrite E. cbn [Nat.add]. split; [reflexivity|].
  destruct (walk_finds_chapter chapters c 0 0 l chapter Hc Hl) as [W1 W2].
  cbn [Nat.add] in W1, W2. split; [exact W1|]. split; [exact W2|].
  apply levels_firstn_lookup; assumption.
Qed.

(** X1.  A chapter index in range and a level index within that chapter
    (its bonus level counted last) give a global index from which
    [getChapterFromGlobalLevel] and [getLevelInChapterFromGlobalLevel]
    recover the two, and at which the flattened [levels] array holds that
    level of that chapter. *)
Theorem level_index_round_trip (chapters : list Chapter.t) (c l : nat)
    (chapter : Chapter.t) :
  nth_error chapters c = Some chapter ->
  (l < chapterTotalLevels chapter)%nat ->
  exists g,
    getGlobalLevelIndex chapters c l = Ok g /\
    getChapterFromGlobalLevel chapters g = c /\
    getLevelInChapterFromGlobalLevel chapters g = l /\
    nth_error (levels chapters) g = nth_error (chapterAllLevels chapter) l.
Proof. apply level_index_round_trip_aux. Qed.

Lemma walk_decomposes (chapters : list Chapter.t) :
  forall i currentIndex g : nat,
  (currentIndex <= g)%nat ->
  (g < currentIndex + List.length (levels chapters))%nat ->
  exists c l chapter,
    nth_error chapters c = Some chapter /\
    (l < chapterTotalLevels chapter)%nat /\
    g = (currentIndex + List.length (levels (firstn c chapters)) + l)%nat /\
    getChapterFrom chapters i currentIndex g = (i + c)%nat /\
    getLevelInChapterFrom chapters currentIndex g = l.
Proof.
  induction chapters as [|first rest IH]; intros i cur g Hle Hlt.
  - cbn in Hlt. lia.
  - rewrite levels_cons, length_app, chapterAllLevels_length in Hlt.
    destruct (Nat.lt_ge_cases g (cur + chapterTotalLevels first)) as [Hin|Hout].
    + exists 0%nat, (g - cur)%nat, first.
      split; [reflexivity|]. split; [lia|]. split; [cbn; lia|].
      cbn [getChapterFrom getLevelInChapterFrom].
      apply Nat.ltb_lt in Hin. rewrite Hin. split; lia.
    + destruct (IH (S i) (cur + chapterTotalLevels first)%nat g Hout)
        as (c & l & chapter & Hc & Hl & Hg & W1 & W2); [lia|].
      exists (S c), l, chapter.
      split; [exact Hc|]. split; [exact Hl|]. split.
      * cbn [firstn]. rewrite levels_cons, length_app, chapterAllLevels_length. lia.
      * cbn [getChapterFrom getLevelInChapterFrom].
        apply Nat.ltb_ge in Hout. rewrite Hout. split; [rewrite W1; lia | exact W2].
Qed.

Lemma walk_defaults (chapters : list Chapter.t) :
  forall i currentIndex g : nat,
  (currentIndex + List.length (levels chapters) <= g)%nat ->
  getChapterFrom chapters i currentIndex g = 0%nat /\
  getLevelInChapterFrom chapters currentIndex g = 0%nat.
Proof.
  induction chapters as [|first rest IH]; intros i cur g Hge; [split; reflexivity|].
  rewrite levels_cons, length_app, chapterAllLevels_length in Hge.
  cbn [getChapterFrom getLevelInChapterFrom].
  assert (E : (g <? cur + chapterTotalLevels first)%nat = false)
    by (apply Nat.ltb_ge; lia).
  rewrite E. apply IH. lia.
Qed.

(** X2.  Every index into the flattened [levels] array decomposes: the
    chapter and the level in the chapter computed from it are in range and
    map back to it.  An index past the end gives chapter 0, level 0. *)
Theorem global_index_decomposes (chapters : list Chapter.t) (g : nat) :
  ((g < List.length (levels chapters))%nat ->
   exists chapter,
     nth_error chapters (getChapterFromGlobalLevel chapters g) = Some chapter /\
     (getLevelInChapterFromGlobalLevel chapters g < chapterTotalLevels chapter)%nat /\
     getGlobalLevelIndex chapters (getChapterFromGlobalLevel chapters g)
       (getLevelInChapterFromGlobalLevel chapters g) = Ok g) /\
  ((List.length (levels chapters) <= g)%nat ->
   getChapterFromGlobalLevel chapters g = 0%nat /\
   getLevelInChapterFromGlobalLevel chapters g = 0%nat).
Proof.
  split; intro H.
  - destruct (walk_decomposes chapters 0 0 g) as (c & l & chapter & Hc & Hl & Hg & W1 & W2);
      [lia | lia |].
    unfold getChapterFromGlobalLevel, getLevelInChapterFromGlobalLevel.
    rewrite W1, W2. cbn [Nat.add]. exists chapter.
    split; [exact Hc|]. split; [exact Hl|].
    unfold getGlobalLevelIndex. rewrite countLevelsBefore_spec.
    assert (Hlen : (c < List.length chapters)%nat)
      by (apply nth_error_Some; congruence).
    assert (E : (c <=? List.length chapters)%nat = true) by (apply Nat.leb_le; lia).
    rewrite E. f_equal. lia.
  - apply (walk_defaults chapters 0 0 g). lia.
Qed.

(** X3.  [getGlobalLevelIndex] throws exactly when the chapter index is
    past the number of chapters, whatever the level index, and
    [getBonusLevelGlobalIndex] throws exactly when the chapter index is
    out of range; it never returns -1.  For a chapter in range it returns
    the index just past the chapter's regular levels: when the chapter has
    a bonus level that is the place of the bonus level in [levels]; when
    it has none it is the index at which the next chapter starts, the
    length of [levels] after the last chapter. *)
Theorem bonus_level_index (chapters : list Chapter.t) (c l : nat) :
  (getGlobalLevelIndex chapters c l = TypeError <-> (List.length chapters < c)%nat) /\
  (getBonusLevelGlobalIndex chapters c = TypeError <-> (List.length chapters <= c)%nat) /\
  (forall chapter,
     nth_error chapters c = Some chapter ->
     exists g,
       getBonusLevelGlobalIndex chapters c = Ok g /\
       getGlobalLevelIndex chapters c (List.length (Chapter.levels chapter)) = Ok g /\
       (forall bonus, Chapter.bonusLevel chapter = Some bonus ->
          nth_error (levels chapters) g = Some bonus /\
          getChapterFromGlobalLevel chapters g = c) /\
       (Chapter.bonusLevel chapter = None ->
          getGlobalLevelIndex chapters (S c) 0 = Ok g /\
          (S c = List.length chapters -> g = List.length (levels chapters)))).
Proof.
  split; [|split].
  - unfold getGlobalLevelIndex. rewrite countLevelsBefore_spec.
    destruct (c <=? List.length chapters)%nat eqn:E.
    + apply Nat.leb_le in E. split; [discriminate | lia].
    + apply Nat.leb_gt in E. split; [intros _; exact E | reflexivity].
  - unfold getBonusLevelGlobalIndex. rewrite countLevelsBefore_spec.
    destruct (c <=? List.length chapters)%nat eqn:E.
    + apply Nat.leb_le in E.
      destruct (nth_error chapters c) as [chapter|] eqn:Hc.
      * assert (c < List.length chapters)%nat by (apply nth_error_Some; congruence).
        split; [discriminate | lia].
      * apply nth_error_None in Hc. split; [intros _; exact Hc | reflexivity].
    + apply Nat.leb_gt in E. split; [intros _; lia | reflexivity].
  - intros chapter Hc.
    assert (Hlen : (c < List.length chapters)%nat) by (apply nth_error_Some; congruence).
    assert (E : (c <=? List.length chapters)%nat = true) by (apply Nat.leb_le; lia).
    assert (E' : (S c <=? List.length chapters)%nat = true) by (apply Nat.leb_le; lia).
    exists (List.length (levels (firstn c chapters))
            + List.length (Chapter.levels chapter))%nat.
    unfold getBonusLevelGlobalIndex, getGlobalLevelIndex.
    rewrite !countLevelsBefore_spec, E, E', Hc.
    split; [reflexivity|]. split; [reflexivity|]. split.
    + intros bonus Hb.
      assert (Hl : (List.length (Chapter.levels chapter) < chapterTotalLevels chapter)%nat)
        by (unfold chapterTotalLevels; rewrite Hb; lia).
      destruct (level_index_round_trip_aux chapters c _ chapter Hc Hl)
        as (g & G1 & G2 & _ & G4).
      unfold getGlobalLevelIndex in G1. rewrite countLevelsBefore_spec, E in G1.
      injection G1 as <-. split; [|exact G2].
      rewrite G4. unfold chapterAllLevels. rewrite Hb.
      rewrite nth_error_app2 by lia. rewrite Nat.sub_diag. reflexivity.
    + intro Hb.
      assert (Hsplit : firstn (S c) chapters = firstn c chapters ++ [chapter]).
      { clear - Hc. revert chapters Hc.
        induction c as [|c IH]; intros [|x xs] Hc; try discriminate Hc.
        - cbn in Hc. injection Hc as ->. reflexivity.
        - cbn [nth_error] in Hc. rewrite (firstn_cons (S c)), (firstn_cons c), (IH xs Hc).
          reflexivity. }
      assert (Hcount : List.length (levels (firstn (S c) chapters))
                       = (List.length (levels (firstn c chapters))
                          + List.length (Chapter.levels chapter))%nat).
      { rewrite Hsplit. unfold levels. rewrite flat_map_app, length_app.
        cbn [flat_map]. rewrite Hb, !app_nil_r. reflexivity. }
      split; [rewrite Nat.add_0_r, Hcount; reflexivity|].
      intro Hlast. rewrite <- Hcount, Hlast, firstn_all. reflexivity.
Qed.

Lemma level_index_round_trip_witness :
  getGlobalLevelIndex bookChapters 1 0 = Ok 3%nat /\
  getChapterFromGlobalLevel bookChapters 3 = 1%nat /\
  getLevelInChapterFromGlobalLevel bookChapters 3 = 0%nat.
Proof.
  destruct (level_index_round_trip bookChapters 1 0 (Chapter.mk [floorLevel] None None))
    as (g & G1 & G2 & G3 & _).
  - reflexivity.
  - cbn. lia.
  - assert (g = 3%nat) by (cbn in G1; congruence). subst g.
    split; [exact G1|]. split; assumption.
Defined.

(** ** Progress *)

Lemma calculateStars_cases (deaths : nat) :
  (deaths = 0%nat /\ calculateStars deaths = 3%nat) \/
  ((1 <= deaths <= 3)%nat /\ calculateStars deaths = 2%nat) \/
  ((4 <= deaths <= 10)%nat /\ calculateStars deaths = 1%nat) \/
  ((10 < deaths)%nat /\ calculateStars deaths = 0%nat).
Proof.
  unfold calculateStars.
  destruct (deaths =? 0)%nat eqn:E0; [apply Nat.eqb_eq in E0; auto|].
  apply Nat.eqb_neq in E0.
  destruct (deaths <=? 3)%nat eqn:E3;
    [apply Nat.leb_le in E3; right; left; split; [lia|reflexivity]|].
  apply Nat.leb_gt in E3.
  destruct (deaths <=? 10)%nat eqn:E10.
  - apply Nat.leb_le in E10. right; right; left. split; [lia|reflexivity].
  - apply Nat.leb_gt in E10. right; right; right. split; [lia|reflexivity].
Qed.

Lemma completedHas_add (s : list Z) (k j : Z) :
  completedHas (completedAdd s k) j = completedHas s j || Z.eqb j k.
Proof.
  unfold completedAdd. destruct (completedHas s k) eqn:E.
  - destruct (Z.eqb j k) eqn:Ej; [|rewrite orb_false_r; reflexivity].
    apply Z.eqb_eq in Ej. subst j. rewrite E. reflexivity.
  - unfold completedHas. rewrite existsb_app. cbn. rewrite orb_false_r. reflexivity.
Qed.

Lemma completedHas_In (s : list Z) (k : Z) : completedHas s k = true <-> In k s.
Proof.
  unfold completedHas. rewrite existsb_exists. split.
  - intros (x & Hx & E). apply Z.eqb_eq in E. subst x. exact Hx.
  - intro H. exists k. split; [exact H|apply Z.eqb_refl].
Qed.

Lemma completedAdd_NoDup (s : list Z) (k : Z) : NoDup s -> NoDup (completedAdd s k).
Proof.
  intro H. unfold completedAdd. destruct (completedHas s k) eqn:E; [exact H|].
  apply NoDup_app; [exact H | constructor; [intros []|constructor] |].
  intros x Hx [<-|[]].
  apply completedHas_In in Hx. congruence.
Qed.

Lemma setOfArray_NoDup_from (a : list Z) :
  forall acc : list Z, NoDup acc -> NoDup (fold_left completedAdd a acc).
Proof.
  induction a as [|x a IH]; intros acc H; [exact H|].
  cbn [fold_left]. apply IH. apply completedAdd_NoDup. exact H.
Qed.

Lemma setOfArray_id_from (a : list Z) :
  forall acc : list Z, NoDup (acc ++ a) -> fold_left completedAdd a acc = acc ++ a.
Proof.
  induction a as [|x a IH]; intros acc H; [rewrite app_nil_r; reflexivity|].
  cbn [fold_left].
  assert (Hx : completedHas acc x = false).
  { destruct (completedHas acc x) eqn:E; [|reflexivity].
    apply completedHas_In in E. apply NoDup_remove_2 in H.
    exfalso. apply H. apply in_or_app. left. exact E. }
  unfold completedAdd at 2. rewrite Hx.
  replace (acc ++ x :: a) with ((acc ++ [x]) ++ a) in * by (rewrite <- app_assoc; reflexivity).
  apply IH. exact H.
Qed.

Lemma starsOf_starsSet (stars : list (Z * nat)) (k j : Z) (v : nat) :
  starsOf (starsSet stars k v) j = if Z.eqb k j then v else starsOf stars j.
Proof.
  induction stars as [|[i w] rest IH]; cbn [starsSet starsOf].
  - destruct (Z.eqb k j); reflexivity.
  - destruct (Z.eqb i k) eqn:Eik; cbn [starsOf].
    + apply Z.eqb_eq in Eik. subst i. destruct (Z.eqb k j); reflexivity.
    + rewrite IH. destruct (Z.eqb i j) eqn:Eij; [|reflexivity].
      apply Z.eqb_eq in Eij. subst i. rewrite Z.eqb_sym, Eik. reflexivity.
Qed.

(** X4.  The star rating never rises with the number of deaths, is at most
    3, is 3 only for a deathless run and 0 only above ten deaths. *)
Theorem stars_fall_with_deaths (d1 d2 : nat) :
  (d1 <= d2)%nat ->
  (calculateStars d2 <= calculateStars d1 <= 3)%nat /\
  (calculateStars d1 = 3%nat <-> d1 = 0%nat) /\
  (calculateStars d1 = 0%nat <-> (10 < d1)%nat).
Proof.
  intro H.
  destruct (calculateStars_cases d1) as [[A ->]|[[A ->]|[[A ->]|[A ->]]]];
    destruct (calculateStars_cases d2) as [[B ->]|[[B ->]|[[B ->]|[B ->]]]];
    repeat split; intros; try lia; try discriminate.
Qed.

Lemma stars_fall_with_deaths_witness :
  (calculateStars 4 <= calculateStars 2)%nat /\ calculateStars 2 = 2%nat.
Proof.
  destruct (stars_fall_with_deaths 2 4) as ((H & _) & _); [lia|].
  split; [exact H|reflexivity].
Defined.

Lemma markLevelComplete_stars (globalIndex : Z) (levelDeaths : nat) (p : Progress.t)
    (j : Z) :
  starsOf (if (starsOf (Progress.levelStars p) globalIndex <? calculateStars levelDeaths)%nat
           then starsSet (Progress.levelStars p) globalIndex (calculateStars levelDeaths)
           else Progress.levelStars p) j
  = if Z.eqb globalIndex j
    then Nat.max (starsOf (Progress.levelStars p) j) (calculateStars levelDeaths)
    else starsOf (Progress.levelStars p) j.
Proof.
  destruct (starsOf (Progress.levelStars p) globalIndex <? calculateStars levelDeaths)%nat
    eqn:E.
  - apply Nat.ltb_lt in E. rewrite starsOf_starsSet.
    destruct (Z.eqb globalIndex j) eqn:Ej; [|reflexivity].
    apply Z.eqb_eq in Ej. subst j. lia.
  - apply Nat.ltb_ge in E.
    destruct (Z.eqb globalIndex j) eqn:Ej; [|reflexivity].
    apply Z.eqb_eq in Ej. subst j. lia.
Qed.

Lemma markLevelComplete_keeps_best_aux (globalIndex : Z) (levelDeaths : nat)
    (p : Progress.t) (storage : Storage.t) :
  let p' := fst (markLevelComplete globalIndex levelDeaths p storage) in
  (forall j, completedHas (Progress.completedLevels p') j
             = completedHas (Progress.completedLevels p) j || Z.eqb j globalIndex) /\
  starsOf (Progress.levelStars p') globalIndex
  = Nat.max (starsOf (Progress.levelStars p) globalIndex) (calculateStars levelDeaths).
Proof.
  cbv zeta. unfold markLevelComplete.
  cbn [fst Progress.completedLevels Progress.levelStars].
  split; [intro j; apply completedHas_add|].
  rewrite markLevelComplete_stars, Z.eqb_refl. reflexivity.
Qed.

(** X5.  [markLevelComplete] adds the level to the completed set and
    nothing else, keeps the set free of repeats, makes the level's rating
    the larger of the old rating and the rating of this attempt and leaves
    every other rating alone; so a rating never goes down, and the stored
    snapshot is the new progress whenever storage can be used. *)
Theorem markLevelComplete_keeps_best (globalIndex : Z) (levelDeaths : nat)
    (p : Progress.t) (storage : Storage.t) :
  let p' := fst (markLevelComplete globalIndex levelDeaths p storage) in
  let storage' := snd (markLevelComplete globalIndex levelDeaths p storage) in
  (forall j, completedHas (Progress.completedLevels p') j
             = completedHas (Progress.completedLevels p) j || Z.eqb j globalIndex) /\
  (NoDup (Progress.completedLevels p) -> NoDup (Progress.completedLevels p')) /\
  starsOf (Progress.levelStars p') globalIndex
  = Nat.max (starsOf (Progress.levelStars p) globalIndex) (calculateStars levelDeaths) /\
  (forall j, j <> globalIndex ->
             starsOf (Progress.levelStars p') j = starsOf (Progress.levelStars p) j) /\
  (forall j, (starsOf (Progress.levelStars p) j <= starsOf (Progress.levelStars p') j)%nat) /\
  Progress.playerColor p' = Progress.playerColor p /\
  Progress.playerTrail p' = Progress.playerTrail p /\
  (Storage.available storage = true ->
   loadProgress storage' p
   = Progress.mk (setOfArray (Progress.completedLevels p')) (Progress.levelStars p')
       (stringOr (Some (Progress.playerColor p)) "#4488ff")
       (stringOr (Some (Progress.playerTrail p)) "none")).
Proof.
  cbv zeta. unfold markLevelComplete. cbn [fst snd Progress.completedLevels
    Progress.levelStars Progress.playerColor Progress.playerTrail].
  pose proof (markLevelComplete_stars globalIndex levelDeaths p) as Hstars.
  split; [intro j; apply completedHas_add|].
  split; [apply completedAdd_NoDup|].
  split; [rewrite Hstars, Z.eqb_refl; reflexivity|].
  split.
  { intros j Hj. rewrite Hstars.
    destruct (Z.eqb globalIndex j) eqn:Ej; [|reflexivity].
    apply Z.eqb_eq in Ej. congruence. }
  split.
  { intro j. rewrite Hstars. destruct (Z.eqb globalIndex j); lia. }
  split; [reflexivity|]. split; [reflexivity|].
  intro Hav. unfold saveProgress, loadProgress. rewrite Hav. reflexivity.
Qed.

(** X6.  Storage round trip: a snapshot saved from progress whose
    completed set has no repeats loads back as the same completed set and
    the same ratings, with the colour and the trail as saved unless they
    are empty strings, which load as ['#4488ff'] and ['none']; loading
    always yields a set without repeats; when the storage cannot be used,
    saving and loading change nothing, and so does loading when nothing is
    stored. *)
Theorem progress_round_trip (p other : Progress.t) (storage : Storage.t) :
  (Storage.available storage = true ->
   NoDup (Progress.completedLevels p) ->
   loadProgress (saveProgress p storage) other
   = Progress.mk (Progress.completedLevels p) (Progress.levelStars p)
       (if String.eqb (Progress.playerColor p) "" then "#4488ff"%string
        else Progress.playerColor p)
       (if String.eqb (Progress.playerTrail p) "" then "none"%string
        else Progress.playerTrail p)) /\
  NoDup (Progress.completedLevels (loadProgress storage (Progress.mk [] [] "" ""))) /\
  (Storage.available storage = false ->
   saveProgress p storage = storage /\ loadProgress storage other = other) /\
  (Storage.item storage = None -> loadProgress storage other = other).
Proof.
  split; [|split; [|split]].
  - intros Hav Hnd. unfold saveProgress, loadProgress. rewrite Hav.
    cbn [Storage.available Storage.item Saved.completedLevels Saved.levelStars
         Saved.playerColor Saved.playerTrail stringOr].
    unfold setOfArray. rewrite (setOfArray_id_from _ []) by exact Hnd. reflexivity.
  - unfold loadProgress. destruct (Storage.available storage); [|constructor].
    destruct (Storage.item storage) as [parsed|]; [|constructor].
    cbn [Progress.completedLevels]. apply setOfArray_NoDup_from. constructor.
  - intro Hav. unfold saveProgress, loadProgress. rewrite Hav. split; reflexivity.
  - intro Hit. unfold loadProgress. rewrite Hit.
    destruct (Storage.available storage); reflexivity.
Qed.

Lemma progress_round_trip_witness :
  loadProgress (saveProgress someProgress (Storage.mk true None))
    (Progress.mk [] [] "#888888" "none")
  = someProgress.
Proof.
  destruct (progress_round_trip someProgress (Progress.mk [] [] "#888888" "none")
              (Storage.mk true None)) as (H & _).
  rewrite H; [reflexivity | reflexivity |].
  repeat constructor. intros [].
Defined.

(** X7.  The first level of the first chapter is always unlocked; with
    nothing completed no other level is; and completing the level with
    global index [g] unlocks the level whose global index is [g + 1], be
    it the next level of the chapter, its bonus level or the first level
    of the next chapter. *)
Theorem completing_unlocks_next (chapters : list Chapter.t) (completed : list Z)
    (c l g : nat) :
  getGlobalLevelIndex chapters c l = Ok (S g) ->
  isLevelUnlocked chapters completed 0 0 = Ok true /\
  isLevelUnlocked chapters [] c l = Ok false /\
  isLevelUnlocked chapters (completedAdd completed (Z.of_nat g)) c l = Ok true /\
  isLevelUnlocked chapters completed c l = Ok (completedHas completed (Z.of_nat g)).
Proof.
  intro Hg. split; [reflexivity|].
  assert (Hgen : forall s,
            isLevelUnlocked chapters s c l = Ok (completedHas s (Z.of_nat g))).
  { intros s. unfold isLevelUnlocked.
    destruct ((c =? 0)%nat && (l =? 0)%nat) eqn:E.
    - apply andb_true_iff in E. destruct E as [E1 E2].
      apply Nat.eqb_eq in E1, E2. subst.
      unfold getGlobalLevelIndex in Hg. rewrite countLevelsBefore_spec in Hg.
      cbn in Hg. discriminate Hg.
    - rewrite Hg. do 2 f_equal. lia. }
  split; [rewrite Hgen; reflexivity|].
  split; [|apply Hgen].
  rewrite Hgen, completedHas_add, Z.eqb_refl. f_equal. apply orb_true_r.
Qed.

Lemma completing_unlocks_next_witness :
  isLevelUnlocked bookChapters [] 1 0 = Ok false /\
  isLevelUnlocked bookChapters (completedAdd [] 2%Z) 1 0 = Ok true.
Proof.
  destruct (completing_unlocks_next bookChapters [] 1 0 2) as (_ & H0 & H1 & _).
  - reflexivity.
  - split; [exact H0 | exact H1].
Defined.

Lemma forallb_seq_spec (f : nat -> bool) (n : nat) :
  forallb f (seq 0 n) = true <-> forall i, (i < n)%nat -> f i = true.
Proof.
  rewrite forallb_forall. split.
  - intros H i Hi. apply H. apply in_seq. lia.
  - intros H i Hi. apply in_seq in Hi. apply H. lia.
Qed.

(** X8.  [isChapterCompleted] never throws; it is false for a chapter
    index out of range and otherwise true exactly when every regular level
    of the chapter is in the completed set: the bonus level does not
    count, and a chapter without regular levels counts as completed. *)
Theorem chapter_completed_iff (chapters : list Chapter.t) (completed : list Z) (c : nat) :
  exists b,
    isChapterCompleted chapters completed c = Ok b /\
    ((List.length chapters <= c)%nat -> b = false) /\
    (forall chapter,
       nth_error chapters c = Some chapter ->
       (b = true <->
        forall i, (i < List.length (Chapter.levels chapter))%nat ->
          exists g, getGlobalLevelIndex chapters c i = Ok g /\
                    completedHas completed (Z.of_nat g) = true) /\
       (Chapter.levels chapter = [] -> b = true)).
Proof.
  unfold isChapterCompleted.
  destruct (nth_error chapters c) as [chapter|] eqn:Hc.
  - assert (Hlen : (c < List.length chapters)%nat)
      by (apply nth_error_Some; congruence).
    assert (Hcount : countLevelsBefore chapters c 0
                     = Ok (List.length (levels (firstn c chapters)))).
    { rewrite countLevelsBefore_spec.
      assert (E : (c <=? List.length chapters)%nat = true) by (apply Nat.leb_le; lia).
      rewrite E. reflexivity. }
    rewrite Hcount. eexists. split; [reflexivity|].
    split; [intro; lia|].
    intros chapter' Hc'. injection Hc' as <-. split.
    + rewrite forallb_seq_spec. unfold getGlobalLevelIndex. rewrite Hcount. split.
      * intros H i Hi. eexists. split; [reflexivity|]. apply H. exact Hi.
      * intros H i Hi. destruct (H i Hi) as (g & Hg & Hhas).
        injection Hg as <-. exact Hhas.
    + intros ->. reflexivity.
  - exists false. split; [reflexivity|]. split; [reflexivity|].
    intros chapter Hc'. discriminate Hc'.
Qed.

Lemma filter_length_all {A : Type} (f : A -> bool) (l : list A) :
  (List.length (filter f l) <= List.length l)%nat /\
  (List.length (filter f l) = List.length l <-> forallb f l = true).
Proof.
  induction l as [|a l [IH1 IH2]]; [cbn; split; [lia|tauto]|].
  cbn [filter forallb List.length]. destruct (f a); cbn [List.length andb].
  - split; [lia|]. rewrite <- IH2. split; lia.
  - split; [lia|]. split; [lia|discriminate].
Qed.

(** X27.  [getChapterCompletion] never throws and returns a percentage
    between 0 and 100: 0 for a chapter index out of range and for a
    chapter without regular levels, and otherwise 100 exactly when
    [isChapterCompleted] holds for the chapter. *)
Theorem chapter_completion_percentage (chapters : list Chapter.t) (completed : list Z)
    (c : nat) :
  exists percent,
    getChapterCompletion chapters completed c = Ok percent /\
    0 <= percent <= 100 /\
    ((List.length chapters <= c)%nat -> percent = 0) /\
    (forall chapter,
       nth_error chapters c = Some chapter ->
       (Chapter.levels chapter = [] -> percent = 0) /\
       (Chapter.levels chapter <> [] ->
        (percent == 100 <-> isChapterCompleted chapters completed c = Ok true))).
Proof.
  unfold getChapterCompletion, isChapterCompleted.
  destruct (nth_error chapters c) as [chapter|] eqn:Hc.
  2:{ exists 0. split; [reflexivity|]. split; [split; lra|].
      split; [reflexivity|]. intros chapter Hc'. discriminate Hc'. }
  assert (Hlen : (c < List.length chapters)%nat) by (apply nth_error_Some; congruence).
  assert (Hcount : countLevelsBefore chapters c 0
                   = Ok (List.length (levels (firstn c chapters)))).
  { rewrite countLevelsBefore_spec.
    assert (E : (c <=? List.length chapters)%nat = true) by (apply Nat.leb_le; lia).
    rewrite E. reflexivity. }
  rewrite Hcount. cbv zeta.
  set (base := List.length (levels (firstn c chapters))).
  set (n := List.length (Chapter.levels chapter)).
  set (f := fun i => completedHas completed (Z.of_nat (base + i))).
  destruct (filter_length_all f (seq 0 n)) as [Hle Hall].
  rewrite length_seq in Hle, Hall.
  set (k := List.length (filter f (seq 0 n))) in *.
  eexists. split; [reflexivity|].
  destruct (0 <? n)%nat eqn:En.
  - apply Nat.ltb_lt in En.
    assert (Hb : 0 < inject_Z (Z.of_nat n)).
    { change 0 with (inject_Z 0). rewrite <- Zlt_Qlt. lia. }
    assert (Ha : 0 <= inject_Z (Z.of_nat k) <= inject_Z (Z.of_nat n)).
    { change 0 with (inject_Z 0). rewrite <- !Zle_Qle. lia. }
    assert (Hq : inject_Z (Z.of_nat n) * (inject_Z (Z.of_nat k) / inject_Z (Z.of_nat n))
                 == inject_Z (Z.of_nat k)) by (apply Qmult_div_r; lra).
    assert (H0 : 0 <= inject_Z (Z.of_nat k) / inject_Z (Z.of_nat n))
      by (apply Qle_shift_div_l; [exact Hb|lra]).
    assert (H1 : inject_Z (Z.of_nat k) / inject_Z (Z.of_nat n) <= 1)
      by (apply Qle_shift_div_r; [exact Hb|lra]).
    split; [split; lra|]. split; [intro; lia|].
    intros chapter' Hc'. injection Hc' as <-. split.
    + intro Hnil. unfold n in En. rewrite Hnil in En. cbn in En. lia.
    + intros _. split.
      * intro H.
        assert (Hone : inject_Z (Z.of_nat k) / inject_Z (Z.of_nat n) == 1) by lra.
        rewrite Hone in Hq.
        assert (Hkn : inject_Z (Z.of_nat k) == inject_Z (Z.of_nat n)) by lra.
        unfold Qeq in Hkn. cbn [Qnum Qden inject_Z] in Hkn.
        f_equal. apply Hall. lia.
      * intro H. injection H as H. apply Hall in H. rewrite H.
        assert (Hone : inject_Z (Z.of_nat n) / inject_Z (Z.of_nat n) == 1)
          by (apply Qmult_inv_r; lra).
        rewrite Hone. lra.
  - apply Nat.ltb_ge in En. split; [split; lra|]. split; [intro; lia|].
    intros chapter' Hc'. injection Hc' as <-. split; [reflexivity|].
    intro Hne. exfalso. apply Hne. apply length_zero_iff_nil. unfold n in En. lia.
Qed.

(** ** Screen flow *)

Lemma set_flow_same (g : Game.t) :
  Game.set_flow g (Game.gameState g) (Game.levelCompleteTimer g) = g.
Proof. destruct g; reflexivity. Qed.

(** X9.  While a fade is in progress, and in the menu, settings, chapter
    select, level select and paused states, [update] never throws and
    touches nothing of the game but [gameState]: the player, the spikes,
    the zones, the counters and the progress stay as they are.  Outside a
    fade the whole state is unchanged; in a fade [gameState] changes only
    in the frame in which a fade-out reaches full opacity, to the pending
    state; and with a non-negative delta time the fade opacity stays
    within [0, 1]. *)
Theorem update_freezes_game_outside_play (dt : Q) (s : Session.t) :
  Session.transition s <> NoTransition \/
  In (Game.gameState (Session.game s)) [menu; settings; chapterSelect; levelSelect; paused] ->
  exists s',
    update dt s = Ok s' /\
    Session.game s'
    = Game.set_flow (Session.game s) (Game.gameState (Session.game s'))
        (Game.levelCompleteTimer (Session.game s)) /\
    Session.progress s' = Session.progress s /\
    Session.storage s' = Session.storage s /\
    Session.currentLevelInChapter s' = Session.currentLevelInChapter s /\
    (Session.transition s = NoTransition -> s' = s) /\
    (Game.gameState (Session.game s') <> Game.gameState (Session.game s) ->
     Session.transition s = FadeOut (Game.gameState (Session.game s')) /\
     Session.transition s' = FadeIn /\ Session.transitionAlpha s' = 1) /\
    (0 <= dt -> 0 <= Session.transitionAlpha s <= 1 ->
     0 <= Session.transitionAlpha s' <= 1).
Proof.
  intro H. unfold update, transitionSpeed.
  destruct (Session.transition s) as [|pending|] eqn:Et.
  - destruct H as [H|H]; [contradiction|].
    assert (E : match Game.gameState (Session.game s) with
                | menu | settings | chapterSelect | levelSelect | paused => True
                | _ => False
                end).
    { destruct H as [<-|[<-|[<-|[<-|[<-|[]]]]]]; exact I. }
    exists s.
    destruct (Game.gameState (Session.game s)) eqn:Eg; try contradiction;
      (split; [reflexivity|]); rewrite <- Eg, set_flow_same;
      repeat split; auto; try contradiction; intros; lra.
  - destruct (Qgeb (Session.transitionAlpha s + 3 * dt) 1) eqn:E; qprop.
    + eexists. split; [reflexivity|].
      cbn [Session.game Session.set_game Session.set_transition Session.progress
           Session.storage Session.currentLevelInChapter Session.transition
           Session.transitionAlpha Game.gameState Game.set_flow].
      repeat split; auto; try discriminate; intros; lra.
    + eexists. split; [reflexivity|].
      cbn [Session.game Session.set_game Session.set_transition Session.progress
           Session.storage Session.currentLevelInChapter Session.transition
           Session.transitionAlpha].
      rewrite set_flow_same.
      repeat split; auto; try discriminate; try contradiction; intros; lra.
  - destruct (Qleb (Session.transitionAlpha s - 3 * dt) 0) eqn:E; qprop.
    + eexists. split; [reflexivity|].
      cbn [Session.game Session.set_game Session.set_transition Session.progress
           Session.storage Session.currentLevelInChapter Session.transition
           Session.transitionAlpha].
      rewrite set_flow_same.
      repeat split; auto; try discriminate; try contradiction; intros; lra.
    + eexists. split; [reflexivity|].
      cbn [Session.game Session.set_game Session.set_transition Session.progress
           Session.storage Session.currentLevelInChapter Session.transition
           Session.transitionAlpha].
      rewrite set_flow_same.
      repeat split; auto; try discriminate; try contradiction; intros; lra.
Qed.

(** ** Death and respawn *)

Lemma beforeDoor_counters (dt : Q) (g : Game.t) :
  let g4 := animateStep dt (zoneStep dt (triggerStep (physicsStep dt g))) in
  Game.isDead g4 = Game.isDead g /\ Game.deaths g4 = Game.deaths g /\
  Game.levelDeaths g4 = Game.levelDeaths g /\
  Game.currentLevel g4 = Game.currentLevel g /\
  Game.gameState g4 = Game.gameState g /\
  Game.canvas g4 = Game.canvas g /\ Game.door g4 = Game.door g.
Proof. repeat split. Qed.

Lemma dieWrites_counts (g : Game.t) :
  Game.isDead (dieWrites g) = true /\
  Game.deaths (dieWrites g) = (Game.deaths g + if Game.isDead g then 0 else 1)%nat /\
  Game.levelDeaths (dieWrites g) = (Game.levelDeaths g + if Game.isDead g then 0 else 1)%nat /\
  Game.spikes (dieWrites g) = Game.spikes g /\ Game.player (dieWrites g) = Game.player g /\
  Game.canvas (dieWrites g) = Game.canvas g /\ Game.door (dieWrites g) = Game.door g /\
  Game.gameState (dieWrites g) = Game.gameState g /\
  Game.currentLevel (dieWrites g) = Game.currentLevel g /\
  Game.levelCompleteTimer (dieWrites g) = Game.levelCompleteTimer g.
Proof.
  unfold dieWrites. destruct (Game.isDead g) eqn:E; cbn [negb].
  - rewrite E, !Nat.add_0_r. repeat split.
  - cbn. rewrite !Nat.add_1_r. repeat split.
Qed.

(** The death bookkeeping of the playing branch, as the state it writes. *)
Lemma updatePlaying_death (dt : Q) (g : Game.t) :
  Game.isDead g = false ->
  let g' := updatePlaying dt g in
  Game.isDead g'
  = existsb (fun spike => checkCollision (Player.rect (Game.player g')) (Spike.rect spike))
      (Game.spikes g')
    || Qgtb (Player.y (Game.player g')) (Canvas.height (Game.canvas g) + 100) /\
  Game.deaths g' = (Game.deaths g + if Game.isDead g' then 1 else 0)%nat /\
  Game.levelDeaths g' = (Game.levelDeaths g + if Game.isDead g' then 1 else 0)%nat /\
  (Game.isDead g' = true -> Game.deathFlashTimer g' = DEATH_FLASH_DURATION).
Proof.
  intros Halive g'. subst g'.
  rewrite updatePlaying_player, updatePlaying_spikes.
  unfold updatePlaying.
  set (g4 := animateStep dt (zoneStep dt (triggerStep (physicsStep dt g)))).
  destruct (beforeDoor_counters dt g) as (B1 & B2 & B3 & _ & _ & B6 & _).
  fold g4 in B1, B2, B3, B6.
  assert (Hp4 : Game.player g4
                = snd (checkGravityZones dt (Game.gravityZones g) (stepPlayer g dt)))
    by reflexivity.
  assert (Hs4 : Game.spikes g4 = map (spikeFrame (stepPlayer g dt) dt) (Game.spikes g)).
  { unfold g4, animateStep. cbn [Game.spikes Game.set_spikes].
    rewrite zoneStep_spikes. unfold triggerStep, physicsStep.
    cbn [Game.spikes Game.set_spikes Game.player Game.set_player Game.set_levelTime].
    unfold advanceSpikes, checkSpikeTriggers. rewrite map_map. reflexivity. }
  rewrite <- Hp4, <- Hs4.
  set (hit := existsb (fun spike => checkCollision (Player.rect (Game.player g4))
                                      (Spike.rect spike)) (Game.spikes g4)).
  assert (H5 : spikeDeathStep g4 = if hit then dieWrites g4 else g4) by reflexivity.
  set (g5 := spikeDeathStep g4) in *.
  assert (H6 : Game.isDead (doorStep g5) = Game.isDead g5 /\
               Game.deaths (doorStep g5) = Game.deaths g5 /\
               Game.levelDeaths (doorStep g5) = Game.levelDeaths g5 /\
               Game.player (doorStep g5) = Game.player g5 /\
               Game.canvas (doorStep g5) = Game.canvas g5 /\
               Game.deathFlashTimer (doorStep g5) = Game.deathFlashTimer g5).
  { unfold doorStep. destruct (Game.door g5) as [d|]; [|repeat split].
    destruct (checkCollision _ d); repeat split. }
  destruct H6 as (D1 & D2 & D3 & D4 & D5 & D6).
  set (g6 := doorStep g5) in *.
  assert (P5 : Game.player g5 = Game.player g4 /\ Game.canvas g5 = Game.canvas g4).
  { rewrite H5. destruct hit; [|split; reflexivity].
    destruct (dieWrites_counts g4) as (_ & _ & _ & _ & -> & -> & _). split; reflexivity. }
  destruct P5 as [P5 C5].
  unfold fallStep. rewrite D4, D5, P5, C5, B6.
  set (fell := Qgtb (Player.y (Game.player g4)) (Canvas.height (Game.canvas g) + 100)).
  destruct (dieWrites_counts g4) as (A1 & A2 & A3 & _).
  destruct (dieWrites_counts g6) as (F1 & F2 & F3 & _).
  rewrite B1, Halive in A2, A3.
  destruct hit.
  - assert (E5 : g5 = dieWrites g4) by exact H5.
    assert (Hd6 : Game.isDead g6 = true) by (rewrite D1, E5; exact A1).
    rewrite Hd6 in F2, F3.
    assert (Hfl : Game.deathFlashTimer g6 = DEATH_FLASH_DURATION).
    { rewrite D6, E5. unfold dieWrites. rewrite B1, Halive. reflexivity. }
    destruct fell; cbn [orb].
    + rewrite F1, F2, F3, D2, D3, E5, A2, A3, B2, B3.
      repeat split; try lia.
      intros _. unfold dieWrites at 1. rewrite Hd6. exact Hfl.
    + rewrite Hd6, D2, D3, E5, A2, A3, B2, B3. repeat split; try lia. intros _; exact Hfl.
  - assert (E5 : g5 = g4) by exact H5.
    assert (Hd6 : Game.isDead g6 = false) by (rewrite D1, E5, B1; exact Halive).
    rewrite Hd6 in F2, F3.
    destruct fell; cbn [orb].
    + rewrite F1, F2, F3, D2, D3, E5, B2, B3. repeat split; try lia.
      intros _. unfold dieWrites. rewrite Hd6. reflexivity.
    + rewrite Hd6, D2, D3, E5, B2, B3. repeat split; try lia; discriminate.
Qed.

Lemma resetPlayer_fields (g : Game.t) :
  Game.player (resetPlayer g) = spawnedPlayer g /\
  Game.spikes (resetPlayer g) = map resetSpike (Game.spikes g) /\
  Game.isDead (resetPlayer g) = false /\
  Game.deathFlashTimer (resetPlayer g) = 0 /\
  Game.gravityZones (resetPlayer g) = Game.gravityZones g /\
  Game.deaths (resetPlayer g) = Game.deaths g /\
  Game.levelDeaths (resetPlayer g) = Game.levelDeaths g /\
  Game.levelTime (resetPlayer g) = Game.levelTime g /\
  Game.gameState (resetPlayer g) = Game.gameState g /\
  Game.platforms (resetPlayer g) = Game.platforms g /\
  Game.door (resetPlayer g) = Game.door g.
Proof. repeat split. Qed.

(** X11.  While the player is dead (in the playing state, no fade) a frame
    only runs the death flash timer.  The frame in which the timer reaches
    zero respawns: the player is a new one at the spawn point (or at the
    default position when the level has none) with zero velocity and
    normal gravity, every spike is back at its original position and
    untriggered, and the player is alive; the gravity zones keep their
    runtime state (a used one-shot zone stays used) and the death
    counters and the level time are kept. *)
Theorem respawn_after_death_flash (dt : Q) (s : Session.t) :
  Session.transition s = NoTransition ->
  Game.gameState (Session.game s) = playing ->
  Game.isDead (Session.game s) = true ->
  let g := Session.game s in
  exists g',
    update dt s = Ok (Session.set_game s g') /\
    Game.gravityZones g' = Game.gravityZones g /\
    Game.deaths g' = Game.deaths g /\ Game.levelDeaths g' = Game.levelDeaths g /\
    Game.levelTime g' = Game.levelTime g /\ Game.gameState g' = playing /\
    (0 < Game.deathFlashTimer g - dt ->
     g' = Game.set_death g true (Game.deathFlashTimer g - dt)
            (Game.deaths g) (Game.levelDeaths g)) /\
    (Game.deathFlashTimer g - dt <= 0 ->
     Game.isDead g' = false /\
     Game.player g' = spawnedPlayer g /\
     Game.spikes g' = map resetSpike (Game.spikes g) /\
     Forall spikeAtRest (Game.spikes g')).
Proof.
  intros Ht Hs Hd g. subst g. set (g := Session.game s) in *.
  exists (updateDead dt g).
  split.
  { unfold update. rewrite Ht. cbv zeta. fold g. rewrite Hs, Hd. reflexivity. }
  unfold updateDead.
  cbn [Game.deathFlashTimer Game.set_death].
  destruct (Qleb (Game.deathFlashTimer g - dt) 0) eqn:E; qprop.
  - rewrite Hd.
    repeat split; try reflexivity; try lra; try exact Hs.
    cbn [Game.spikes resetPlayer Game.set_death Game.set_spikes Game.set_player].
    apply Forall_forall. intros spike Hin. apply in_map_iff in Hin.
    destruct Hin as (s0 & <- & _). repeat split.
  - rewrite Hd. repeat split; try reflexivity; try lra; try exact Hs.
    all: intro; lra.
Qed.

(** ** Level completion *)

Lemma startLevel_ok (g : Game.t) (level : Level.t) :
  nth_error (levels (Game.chapters g)) (Game.currentLevel g) = Some level ->
  (Game.currentChapter g < List.length (Game.chapters g))%nat ->
  exists zones,
    startLevel g
    = Ok (Game.set_flow
            (resetPlayer (install g (parseGeometry (Game.canvas g) level) zones))
            playing (Game.levelCompleteTimer g)).
Proof.
  intros Hl Hc. unfold startLevel. rewrite parseLevel_parsed. unfold parsed.
  rewrite Hl.
  destruct (nth_error (Game.chapters g) (Game.currentChapter g)) as [chapterData|] eqn:Ec.
  - unfold parseGravityZones. eexists. reflexivity.
  - apply nth_error_None in Ec. lia.
Qed.

(** X12.  In the level-complete state a frame that leaves time on the
    completion timer only lowers that timer: the state stays
    ['levelComplete'], nothing is marked complete again and nothing else
    of the game or of the progress changes, wherever the player is. *)
Theorem completion_countdown_only_counts (dt : Q) (s : Session.t) :
  Session.transition s = NoTransition ->
  Game.gameState (Session.game s) = levelComplete ->
  0 < Game.levelCompleteTimer (Session.game s) - dt ->
  update dt s
  = Ok (Session.set_game s
          (Game.set_flow (Session.game s) levelComplete
             (Game.levelCompleteTimer (Session.game s) - dt))).
Proof.
  intros Ht Hs Htimer. unfold update. rewrite Ht. cbv zeta. rewrite Hs.
  unfold updateLevelComplete. cbv zeta.
  cbn [Session.game Session.set_game Game.levelCompleteTimer Game.set_flow].
  assert (E : Qleb (Game.levelCompleteTimer (Session.game s) - dt) 0 = false)
    by (apply Qleb_false; exact Htimer).
  rewrite E, Hs. reflexivity.
Qed.

(** X13.  When the completion timer runs out in a level that is not the
    last regular level of its chapter, [update] loads the next level of
    the chapter and never throws: the state is ['playing'], the level
    index in the chapter is one more, [currentLevel] is the index of that
    level in [levels], the per-level deaths and time are zero, the total
    deaths and the progress are kept, the player is alive at the spawn
    point and the platforms, door and spikes are those parsed from that
    level. *)
Theorem next_level_loads (dt : Q) (s : Session.t) (chapter : Chapter.t) (next : Level.t) :
  let g := Session.game s in
  let l := Session.currentLevelInChapter s in
  Session.transition s = NoTransition ->
  Game.gameState g = levelComplete ->
  Game.levelCompleteTimer g - dt <= 0 ->
  nth_error (Game.chapters g) (Game.currentChapter g) = Some chapter ->
  nth_error (Chapter.levels chapter) (l + 1) = Some next ->
  exists s',
    update dt s = Ok s' /\
    let g' := Session.game s' in
    Game.gameState g' = playing /\
    Game.currentChapter g' = Game.currentChapter g /\
    Session.currentLevelInChapter s' = (l + 1)%nat /\
    nth_error (levels (Game.chapters g)) (Game.currentLevel g') = Some next /\
    Game.levelDeaths g' = 0%nat /\ Game.levelTime g' = 0 /\
    Game.deaths g' = Game.deaths g /\
    Session.progress s' = Session.progress s /\
    Game.isDead g' = false /\
    Game.player g' = spawnedPlayer g' /\
    Game.platforms g' = Pass1.platforms (parseGeometry (Game.canvas g) next) /\
    Game.door g' = Pass1.door (parseGeometry (Game.canvas g) next) /\
    Game.spawnPoint g' = Pass1.spawnPoint (parseGeometry (Game.canvas g) next) /\
    Game.spikes g' = map resetSpike (Pass1.spikes (parseGeometry (Game.canvas g) next)).
Proof.
  intros g l Ht Hs Htimer Hc Hn. subst g l.
  set (g := Session.game s) in *. set (l := Session.currentLevelInChapter s) in *.
  assert (Hlt : (l + 1 < List.length (Chapter.levels chapter))%nat)
    by (apply nth_error_Some; congruence).
  assert (Htot : (l + 1 < chapterTotalLevels chapter)%nat)
    by (unfold chapterTotalLevels; lia).
  destruct (level_index_round_trip_aux (Game.chapters g) (Game.currentChapter g) (l + 1)
              chapter Hc Htot) as (gi & G1 & _ & _ & G4).
  assert (Hlevel : nth_error (levels (Game.chapters g)) gi = Some next).
  { rewrite G4. unfold chapterAllLevels. rewrite nth_error_app1 by exact Hlt. exact Hn. }
  assert (Hcr : (Game.currentChapter g < List.length (Game.chapters g))%nat)
    by (apply nth_error_Some; congruence).
  set (gt := Game.set_flow g levelComplete (Game.levelCompleteTimer g - dt)).
  destruct (startLevel_ok (selectLevel gt (Game.currentChapter g) gi) next Hlevel Hcr)
    as (zones & Hstart).
  eexists. split.
  { unfold update. rewrite Ht. cbv zeta. fold g. rewrite Hs.
    unfold updateLevelComplete. cbv zeta. fold g. rewrite Hs. fold gt.
    cbn [Session.game Session.set_game Session.currentLevelInChapter].
    assert (E : Qleb (Game.levelCompleteTimer gt) 0 = true)
      by (apply Qleb_true; exact Htimer).
    rewrite E.
    change (Game.chapters gt) with (Game.chapters g).
    change (Game.currentChapter gt) with (Game.currentChapter g).
    rewrite Hc. fold l.
    assert (E2 : (Z.of_nat l <? Z.of_nat (List.length (Chapter.levels chapter)) - 1)%Z = true)
      by (apply Z.ltb_lt; lia).
    rewrite E2. unfold loadLevelFromChapter.
    cbn [Session.game Session.set_game].
    change (Game.chapters gt) with (Game.chapters g).
    rewrite G1, Hstart.
    cbn [Session.game Session.set_level]. unfold updateStats.
    cbn [Game.gameState Game.chapters Game.currentLevel Game.set_flow resetPlayer
         Game.set_death Game.set_spikes Game.set_player install Game.set_gravityZones
         Game.set_geometry selectLevel].
    change (Game.chapters gt) with (Game.chapters g).
    rewrite Hlevel. reflexivity. }
  cbv zeta. cbn [Session.game Session.set_level Session.currentLevelInChapter
                 Session.progress Session.set_game].
  repeat split; try reflexivity. exact Hlevel.
Qed.

(** X14.  When the completion timer runs out in the last regular level of
    a chapter, or in its bonus level, no level is loaded: the state
    becomes ['chapterSelect'] if a later chapter exists and ['menu']
    otherwise, the three level indices are reset to 0 and the level on
    screen and the progress are left as they are.  With [currentChapter]
    out of range the frame throws. *)
Theorem chapter_end_leaves_level (dt : Q) (s : Session.t) :
  let g := Session.game s in
  let l := Session.currentLevelInChapter s in
  Session.transition s = NoTransition ->
  Game.gameState g = levelComplete ->
  Game.levelCompleteTimer g - dt <= 0 ->
  (nth_error (Game.chapters g) (Game.currentChapter g) = None ->
   update dt s = TypeError) /\
  (forall chapter,
     nth_error (Game.chapters g) (Game.currentChapter g) = Some chapter ->
     (List.length (Chapter.levels chapter) <= l + 1)%nat ->
     exists s',
       update dt s = Ok s' /\
       let g' := Session.game s' in
       Game.gameState g'
       = (if (Game.currentChapter g + 1 <? List.length (Game.chapters g))%nat
          then chapterSelect else menu) /\
       Game.currentChapter g' = 0%nat /\ Game.currentLevel g' = 0%nat /\
       Session.currentLevelInChapter s' = 0%nat /\
       Game.player g' = Game.player g /\ Game.spikes g' = Game.spikes g /\
       Game.platforms g' = Game.platforms g /\
       Game.gravityZones g' = Game.gravityZones g /\
       Game.deaths g' = Game.deaths g /\
       Session.progress s' = Session.progress s).
Proof.
  intros g l Ht Hs Htimer. subst g l.
  set (g := Session.game s) in *. set (l := Session.currentLevelInChapter s) in *.
  set (gt := Game.set_flow g levelComplete (Game.levelCompleteTimer g - dt)).
  assert (Hu : update dt s
               = match nth_error (Game.chapters g) (Game.currentChapter g) with
                 | None => TypeError
                 | Some chapter =>
                     if (Z.of_nat l <? Z.of_nat (List.length (Chapter.levels chapter)) - 1)%Z
                     then match loadLevelFromChapter (Game.currentChapter g) (l + 1)
                                  (Session.set_game s gt) with
                          | Ok s =>
                              match updateStats (Session.game s) with
                              | Ok _ => Ok s
                              | TypeError => TypeError
                              end
                          | TypeError => TypeError
                          end
                     else if (Z.of_nat (Game.currentChapter g)
                              <? Z.of_nat (List.length (Game.chapters g)) - 1)%Z
                          then Ok (Session.set_level (Session.set_game s gt)
                                     (leaveChapter gt chapterSelect) 0)
                          else Ok (Session.set_level (Session.set_game s gt)
                                     (leaveChapter gt menu) 0)
                 end).
  { unfold update. rewrite Ht. cbv zeta. fold g. rewrite Hs.
    unfold updateLevelComplete. cbv zeta. fold g. rewrite Hs. fold gt.
    cbn [Session.game Session.set_game Session.currentLevelInChapter].
    assert (E : Qleb (Game.levelCompleteTimer gt) 0 = true)
      by (apply Qleb_true; exact Htimer).
    rewrite E. reflexivity. }
  split.
  - intro Hc. rewrite Hu, Hc. reflexivity.
  - intros chapter Hc Hlast. rewrite Hu, Hc.
    assert (E2 : (Z.of_nat l <? Z.of_nat (List.length (Chapter.levels chapter)) - 1)%Z = false)
      by (apply Z.ltb_ge; lia).
    rewrite E2.
    destruct (Game.currentChapter g + 1 <? List.length (Game.chapters g))%nat eqn:E3.
    + apply Nat.ltb_lt in E3.
      assert (E4 : (Z.of_nat (Game.currentChapter g)
                    <? Z.of_nat (List.length (Game.chapters g)) - 1)%Z = true)
        by (apply Z.ltb_lt; lia).
      rewrite E4. eexists. split; [reflexivity|]. repeat split.
    + apply Nat.ltb_ge in E3.
      assert (E4 : (Z.of_nat (Game.currentChapter g)
                    <? Z.of_nat (List.length (Game.chapters g)) - 1)%Z = false)
        by (apply Z.ltb_ge; lia).
      rewrite E4. eexists. split; [reflexivity|]. repeat split.
Qed.

Lemma doorStep_flow (g : Game.t) :
  Game.gameState (doorStep g) = (if doorHit g then levelComplete else Game.gameState g) /\
  Game.levelCompleteTimer (doorStep g)
  = (if doorHit g then LEVEL_COMPLETE_DURATION else Game.levelCompleteTimer g).
Proof.
  unfold doorStep, doorHit. destruct (Game.door g) as [d|]; [|split; reflexivity].
  destruct (checkCollision _ d); split; reflexivity.
Qed.

Lemma fallStep_flow (g : Game.t) :
  Game.gameState (fallStep g) = Game.gameState g /\
  Game.levelCompleteTimer (fallStep g) = Game.levelCompleteTimer g.
Proof.
  unfold fallStep. destruct (Qgtb _ _); [|split; reflexivity].
  destruct (dieWrites_counts g) as (_ & _ & _ & _ & _ & _ & _ & -> & _ & ->).
  split; reflexivity.
Qed.

Lemma spikeDeathStep_fields (g : Game.t) :
  Game.gameState (spikeDeathStep g) = Game.gameState g /\
  Game.currentLevel (spikeDeathStep g) = Game.currentLevel g /\
  Game.levelCompleteTimer (spikeDeathStep g) = Game.levelCompleteTimer g /\
  Game.door (spikeDeathStep g) = Game.door g.
Proof.
  unfold spikeDeathStep. destruct (existsb _ _); [|repeat split].
  destruct (dieWrites_counts g) as (_ & _ & _ & _ & _ & _ & -> & -> & -> & ->).
  repeat split.
Qed.

Lemma beforeDoor_fields (dt : Q) (g : Game.t) :
  Game.gameState (beforeDoor dt g) = Game.gameState g /\
  Game.currentLevel (beforeDoor dt g) = Game.currentLevel g /\
  Game.levelCompleteTimer (beforeDoor dt g) = Game.levelCompleteTimer g /\
  Game.levelDeaths (beforeDoor dt g)
  = (Game.levelDeaths g
     + if Game.isDead g then 0 else if Game.isDead (beforeDoor dt g) then 1 else 0)%nat.
Proof.
  unfold beforeDoor, beforeSpikes.
  destruct (beforeDoor_counters dt g) as (B1 & _ & B3 & B4 & B5 & _).
  cbv zeta in B1, B3, B4, B5.
  assert (B6 : Game.levelCompleteTimer
                 (animateStep dt (zoneStep dt (triggerStep (physicsStep dt g))))
               = Game.levelCompleteTimer g) by reflexivity.
  set (g4 := animateStep dt (zoneStep dt (triggerStep (physicsStep dt g)))) in *.
  destruct (spikeDeathStep_fields g4) as (S1 & S2 & S3 & _).
  rewrite S1, S2, S3, B4, B5, B6.
  split; [reflexivity|]. split; [reflexivity|]. split; [reflexivity|].
  unfold spikeDeathStep. destruct (existsb _ _).
  - destruct (dieWrites_counts g4) as (A1 & _ & A3 & _).
    rewrite A1, A3, B1, B3. destruct (Game.isDead g); reflexivity.
  - rewrite B1, B3. destruct (Game.isDead g); lia.
Qed.

Lemma updatePlaying_beforeDoor (dt : Q) (g : Game.t) :
  updatePlaying dt g = fallStep (doorStep (beforeDoor dt g)).
Proof. unfold updatePlaying, beforeDoor, beforeSpikes. reflexivity. Qed.

Lemma die_spec (g : Game.t) :
  Game.gameState g = playing \/ Game.gameState g = levelComplete ->
  die g
  = if negb (Game.isDead g) && negb (hasLevel g) then TypeError else Ok (dieWrites g).
Proof.
  intro Hs. unfold die, dieWrites, hasLevel.
  destruct (Game.isDead g); cbn [negb andb]; [reflexivity|].
  unfold updateStats.
  cbn [Game.gameState Game.chapters Game.currentLevel Game.set_death].
  destruct Hs as [-> | ->];
    destruct (nth_error (levels (Game.chapters g)) (Game.currentLevel g)); reflexivity.
Qed.

Lemma dieWrites_dead (g : Game.t) : Game.isDead g = true -> dieWrites g = g.
Proof. intro H. unfold dieWrites. rewrite H. reflexivity. Qed.

Lemma dieWrites_static (g : Game.t) :
  hasLevel (dieWrites g) = hasLevel g /\ Game.isDead (dieWrites g) = true.
Proof.
  unfold dieWrites, hasLevel. destruct (Game.isDead g) eqn:E; cbn [negb]; [|split; reflexivity].
  split; [reflexivity|exact E].
Qed.

Lemma doorStep_static (g : Game.t) :
  hasLevel (doorStep g) = hasLevel g /\ Game.isDead (doorStep g) = Game.isDead g /\
  (Game.gameState g = playing ->
   Game.gameState (doorStep g) = playing \/ Game.gameState (doorStep g) = levelComplete).
Proof.
  unfold doorStep. destruct (Game.door g) as [d|]; [|auto].
  destruct (checkCollision _ d); [|auto].
  split; [reflexivity|]. split; [reflexivity|]. intros _. right. reflexivity.
Qed.

(** The playing branch in full against the state it writes: it throws
    exactly in a frame that kills the player while [levels[currentLevel]]
    is undefined, and otherwise ends in the state of [updatePlaying]. *)
Lemma playing_calls_spec (dt : Q) (g : Game.t) :
  Game.gameState g = playing -> Game.isDead g = false ->
  spikeDeathCall (beforeSpikes dt g)
  = (if Game.isDead (beforeDoor dt g) && negb (hasLevel g) then TypeError
     else Ok (beforeDoor dt g)) /\
  fallCall (doorStep (beforeDoor dt g))
  = (if negb (Game.isDead (beforeDoor dt g)) && Game.isDead (updatePlaying dt g)
        && negb (hasLevel g)
     then TypeError else Ok (updatePlaying dt g)) /\
  (Game.isDead (beforeDoor dt g) = true -> Game.isDead (updatePlaying dt g) = true).
Proof.
  intros Hs Hd. rewrite updatePlaying_beforeDoor. unfold beforeDoor.
  assert (H4 : Game.gameState (beforeSpikes dt g) = playing /\
               Game.isDead (beforeSpikes dt g) = false /\
               hasLevel (beforeSpikes dt g) = hasLevel g).
  { split; [exact Hs|]. split; [exact Hd|reflexivity]. }
  revert H4. generalize (beforeSpikes dt g). intros g4 (S4 & D4 & L4).
  assert (H5 : spikeDeathCall g4
               = (if Game.isDead (spikeDeathStep g4) && negb (hasLevel g)
                  then TypeError else Ok (spikeDeathStep g4)) /\
               hasLevel (spikeDeathStep g4) = hasLevel g /\
               Game.gameState (spikeDeathStep g4) = playing).
  { unfold spikeDeathCall, spikeDeathStep. destruct (existsb _ _).
    - rewrite die_spec by (left; exact S4). rewrite D4, L4.
      destruct (dieWrites_static g4) as [E1 E2]. rewrite E2, E1, L4.
      split; [reflexivity|]. split; [reflexivity|].
      destruct (dieWrites_counts g4) as (_ & _ & _ & _ & _ & _ & _ & E & _).
      rewrite E. exact S4.
    - rewrite D4. split; [reflexivity|]. split; [exact L4|exact S4]. }
  destruct H5 as (C5 & L5 & S5). split; [exact C5|].
  revert L5 S5. generalize (spikeDeathStep g4). intros g5 L5 S5.
  destruct (doorStep_static g5) as (L6 & D6 & S6). specialize (S6 S5).
  rewrite L5 in L6. rewrite <- D6.
  revert L6 S6. generalize (doorStep g5). intros g6 L6 S6.
  unfold fallCall, fallStep.
  destruct (Qgtb _ _).
  - rewrite die_spec by exact S6. rewrite L6.
    destruct (dieWrites_static g6) as [_ E2]. rewrite E2.
    split; [|reflexivity].
    destruct (Game.isDead g6) eqn:E6; cbn [negb andb]; [|reflexivity].
    rewrite (dieWrites_dead g6 E6). reflexivity.
  - split; [|auto].
    destruct (Game.isDead g6); cbn [negb andb]; reflexivity.
Qed.

Lemma updatePlayingSession_spec (dt : Q) (s : Session.t) :
  Game.gameState (Session.game s) = playing -> Game.isDead (Session.game s) = false ->
  let g := Session.game s in
  let g5 := beforeDoor dt g in
  updatePlayingSession dt s
  = if Game.isDead (updatePlaying dt g) && negb (hasLevel g) then TypeError
    else Ok (Session.set_game
               (if doorHit g5 then
                  Session.set_progress s
                    (fst (markLevelComplete (Z.of_nat (Game.currentLevel g5))
                            (Game.levelDeaths g5) (Session.progress s)
                            (Session.storage s)))
                    (snd (markLevelComplete (Z.of_nat (Game.currentLevel g5))
                            (Game.levelDeaths g5) (Session.progress s)
                            (Session.storage s)))
                else s)
               (updatePlaying dt g)).
Proof.
  intros Hs Hd. cbv zeta.
  destruct (playing_calls_spec dt (Session.game s) Hs Hd) as (C5 & C7 & Hmono).
  unfold updatePlayingSession. cbv zeta. rewrite C5.
  revert C7 Hmono. generalize (updatePlaying dt (Session.game s)).
  generalize (beforeDoor dt (Session.game s)). intros g5 g7 C7 Hmono.
  destruct (Game.isDead g5) eqn:E5.
  - rewrite (Hmono eq_refl). cbn [andb negb].
    destruct (hasLevel (Session.game s)); cbn [negb]; [|reflexivity].
    rewrite C7. reflexivity.
  - cbn [andb negb] in *. rewrite C7.
    destruct (Game.isDead g7 && negb (hasLevel (Session.game s))); reflexivity.
Qed.

Lemma update_playing (dt : Q) (s : Session.t) :
  Session.transition s = NoTransition ->
  Game.gameState (Session.game s) = playing ->
  Game.isDead (Session.game s) = false ->
  Session.isPaused s = false ->
  update dt s = updatePlayingSession dt s.
Proof.
  intros Ht Hs Hd Hp. unfold update. rewrite Ht. cbv zeta. rewrite Hs, Hd, Hp.
  reflexivity.
Qed.

Lemma hasLevel_false (g : Game.t) :
  hasLevel g = false
  <-> nth_error (levels (Game.chapters g)) (Game.currentLevel g) = None.
Proof.
  unfold hasLevel. destruct (nth_error _ _); split; congruence.
Qed.

(** X10.  A frame of the playing state that starts alive kills the
    player exactly when the player it produced overlaps a spike as
    animated by that frame or has fallen more than 100 pixels below the
    canvas.  If [levels[currentLevel]] is undefined such a frame throws
    (in the [updateStats] call of [die]); in every other case [update]
    returns, the death is counted once in [deaths] and in [levelDeaths]
    even when both tests succeed, and the death flash timer is started;
    a frame that ends alive leaves both counters alone. *)
Theorem death_is_counted_once (dt : Q) (s : Session.t) :
  Session.transition s = NoTransition ->
  Game.gameState (Session.game s) = playing ->
  Game.isDead (Session.game s) = false ->
  Session.isPaused s = false ->
  let g := Session.game s in
  let g' := updatePlaying dt g in
  let dies :=
    existsb (fun spike => checkCollision (Player.rect (Game.player g')) (Spike.rect spike))
      (Game.spikes g')
    || Qgtb (Player.y (Game.player g')) (Canvas.height (Game.canvas g) + 100) in
  (update dt s = TypeError <->
   dies = true /\
   nth_error (levels (Game.chapters g)) (Game.currentLevel g) = None) /\
  (forall s', update dt s = Ok s' ->
     Session.game s' = g' /\
     Game.isDead g' = dies /\
     Game.deaths g' = (Game.deaths g + if dies then 1 else 0)%nat /\
     Game.levelDeaths g' = (Game.levelDeaths g + if dies then 1 else 0)%nat /\
     (dies = true -> Game.deathFlashTimer g' = DEATH_FLASH_DURATION)).
Proof.
  intros Ht Hs Hd Hp. cbv zeta.
  destruct (updatePlaying_death dt (Session.game s) Hd) as (D1 & D2 & D3 & D4).
  cbv zeta in D1, D2, D3, D4. rewrite <- D1.
  rewrite (update_playing dt s Ht Hs Hd Hp).
  rewrite (updatePlayingSession_spec dt s Hs Hd). cbv zeta.
  rewrite <- hasLevel_false.
  destruct (Game.isDead (updatePlaying dt (Session.game s))) eqn:E;
    destruct (hasLevel (Session.game s)) eqn:El; cbn [andb negb].
  - split; [split; [discriminate|intros [_ H]; discriminate H]|].
    intros s' H. injection H as <-. cbn [Session.game Session.set_game].
    split; [reflexivity|]. split; [reflexivity|].
    split; [exact D2|]. split; [exact D3|exact D4].
  - split; [split; [auto|reflexivity]|]. intros s' H. discriminate H.
  - split; [split; [discriminate|intros [H _]; discriminate H]|].
    intros s' H. injection H as <-. cbn [Session.game Session.set_game].
    split; [reflexivity|]. split; [reflexivity|].
    split; [exact D2|]. split; [exact D3|exact D4].
  - split; [split; [discriminate|intros [H _]; discriminate H]|].
    intros s' H. injection H as <-. cbn [Session.game Session.set_game].
    split; [reflexivity|]. split; [reflexivity|].
    split; [exact D2|]. split; [exact D3|exact D4].
Qed.

(** X15.  A frame of the playing state that starts alive, in a level
    that exists, returns.  Whenever such a frame returns, its game is the
    one [updatePlaying] computes, and if the player, after the physics,
    overlaps the door, the frame ends in the ['levelComplete'] state with
    the completion timer at 1.5 s and records the level: [currentLevel]
    is in the completed set and its rating is at least the rating earned
    with the level's deaths so far, a spike death in this very frame
    included.  A frame without door contact leaves the state
    ['playing'] and the timer and the progress as they were. *)
Theorem door_contact_completes_level (dt : Q) (s : Session.t) :
  Session.transition s = NoTransition ->
  Game.gameState (Session.game s) = playing ->
  Game.isDead (Session.game s) = false ->
  Session.isPaused s = false ->
  let g := Session.game s in
  let g5 := beforeDoor dt g in
  (nth_error (levels (Game.chapters g)) (Game.currentLevel g) <> None ->
   exists s', update dt s = Ok s') /\
  (forall s', update dt s = Ok s' ->
    Session.game s' = updatePlaying dt g /\
    (doorHit g5 = true ->
     Game.gameState (Session.game s') = levelComplete /\
     Game.levelCompleteTimer (Session.game s') = LEVEL_COMPLETE_DURATION /\
     completedHas (Progress.completedLevels (Session.progress s'))
       (Z.of_nat (Game.currentLevel g)) = true /\
     (calculateStars (Game.levelDeaths g5)
      <= starsOf (Progress.levelStars (Session.progress s'))
           (Z.of_nat (Game.currentLevel g)))%nat /\
     (Game.levelDeaths g5
      = Game.levelDeaths g + (if Game.isDead g5 then 1 else 0))%nat) /\
    (doorHit g5 = false ->
     Game.gameState (Session.game s') = playing /\
     Game.levelCompleteTimer (Session.game s') = Game.levelCompleteTimer g /\
     Session.progress s' = Session.progress s /\
     Session.storage s' = Session.storage s)).
Proof.
  intros Ht Hs Hd Hp. cbv zeta.
  rewrite (update_playing dt s Ht Hs Hd Hp).
  rewrite (updatePlayingSession_spec dt s Hs Hd). cbv zeta.
  destruct (beforeDoor_fields dt (Session.game s)) as (S1 & S2 & S3 & S4).
  rewrite Hd in S4.
  rewrite updatePlaying_beforeDoor.
  revert S1 S2 S3 S4.
  generalize (beforeDoor dt (Session.game s)). intros g5 S1 S2 S3 S4.
  split.
  { intro Hl. rewrite <- hasLevel_false in Hl.
    destruct (hasLevel (Session.game s)); [|contradiction Hl; reflexivity].
    rewrite andb_false_r. eexists. reflexivity. }
  intros s' Hu.
  destruct (Game.isDead (fallStep (doorStep g5)) && negb (hasLevel (Session.game s)));
    [discriminate Hu|].
  injection Hu as <-. cbn [Session.game Session.set_game].
  split; [reflexivity|].
  destruct (fallStep_flow (doorStep g5)) as [F1 F2].
  destruct (doorStep_flow g5) as [D1 D2].
  rewrite F1, F2, D1, D2.
  split; intro Hhit; rewrite Hhit.
  - split; [reflexivity|]. split; [reflexivity|].
    cbn [Session.progress Session.set_game Session.set_progress].
    rewrite S2.
    destruct (markLevelComplete_keeps_best_aux
                (Z.of_nat (Game.currentLevel (Session.game s)))
                (Game.levelDeaths g5) (Session.progress s) (Session.storage s))
      as (M1 & M3).
    cbv zeta in M1, M3.
    split; [etransitivity; [apply M1|]; rewrite Z.eqb_refl; apply orb_true_r|].
    split; [|exact S4].
    eapply Nat.le_trans; [|apply Nat.eq_le_incl; symmetry; exact M3]. lia.
  - rewrite S1, S3. split; [exact Hs|].
    split; [reflexivity|]. split; reflexivity.
Qed.

(** ** Pausing, resuming and the menus' arrow keys *)

(** X16.  While the page is hidden the game stands still and the time it
    spends hidden is not simulated: after [pauseGame] every call of
    [gameLoop] leaves all the state as it is, [lastTime] included, and the
    first frame after [resumeGame] steps by the time since the resume,
    whatever [lastTime] was before, in a state whose keys are released and
    whose player has no velocity. *)
Theorem hidden_time_is_not_simulated (times : list Q) (now t : Q) (s : Session.t) :
  let hidden := pauseGame s in
  runFrames times hidden = Ok hidden /\
  Game.keys (Session.game hidden) = Keys.mk false false false false /\
  Player.vx (Game.player (Session.game hidden)) = 0 /\
  Player.vy (Game.player (Session.game hidden)) = 0 /\
  Player.x (Game.player (Session.game hidden)) = Player.x (Game.player (Session.game s)) /\
  Player.y (Game.player (Session.game hidden)) = Player.y (Game.player (Session.game s)) /\
  Game.gameState (Session.game hidden) = Game.gameState (Session.game s) /\
  gameLoopFrame t (resumeGame now hidden)
  = update ((t - now) / 1000) (Session.set_clock hidden false t).
Proof.
  cbv zeta. split.
  { induction times as [|c rest IH]; [reflexivity|].
    cbn [runFrames]. unfold gameLoopFrame at 1. cbn. exact IH. }
  repeat split.
Qed.

Lemma arrowUp_nat (n i : nat) :
  (0 < n)%nat -> arrowUp n i = ((i + n - 1) mod n)%nat.
Proof.
  intro Hn. unfold arrowUp.
  assert (E : (0 <? n)%nat = true) by (apply Nat.ltb_lt; exact Hn).
  rewrite E, Z.rem_mod_nonneg by lia.
  replace (Z.of_nat i - 1 + Z.of_nat n)%Z with (Z.of_nat (i + n - 1)) by lia.
  rewrite <- Nat2Z.inj_mod. apply Nat2Z.id.
Qed.

(** X17.  Arrow keys in a menu with [n > 0] buttons: whatever the index
    was, after one press it is a valid button index; on a valid index
    ArrowDown moves to the next button and wraps from the last to the
    first, ArrowUp does the reverse, and each undoes the other. *)
Theorem arrow_keys_wrap (n i : nat) :
  (0 < n)%nat ->
  (arrowDown n i < n)%nat /\ (arrowUp n i < n)%nat /\
  ((i < n)%nat ->
   arrowDown n i = (if (i + 1 =? n)%nat then 0 else i + 1)%nat /\
   arrowUp n i = (if (i =? 0)%nat then n - 1 else i - 1)%nat /\
   arrowUp n (arrowDown n i) = i /\ arrowDown n (arrowUp n i) = i).
Proof.
  intro Hn.
  assert (E : (0 <? n)%nat = true) by (apply Nat.ltb_lt; exact Hn).
  assert (Hd : arrowDown n i = ((i + 1) mod n)%nat) by (unfold arrowDown; rewrite E; reflexivity).
  assert (Hdown : forall j, (j < n)%nat ->
            arrowDown n j = (if (j + 1 =? n)%nat then 0 else j + 1)%nat).
  { intros j Hj. unfold arrowDown. rewrite E.
    destruct (j + 1 =? n)%nat eqn:Ej.
    - apply Nat.eqb_eq in Ej. rewrite Ej. apply Nat.Div0.mod_same.
    - apply Nat.eqb_neq in Ej. apply Nat.mod_small. lia. }
  assert (Hup : forall j, (j < n)%nat ->
            arrowUp n j = (if (j =? 0)%nat then n - 1 else j - 1)%nat).
  { intros j Hj. rewrite arrowUp_nat by exact Hn.
    destruct (j =? 0)%nat eqn:Ej.
    - apply Nat.eqb_eq in Ej. subst j. apply Nat.mod_small. lia.
    - apply Nat.eqb_neq in Ej.
      replace (j + n - 1)%nat with (j - 1 + 1 * n)%nat by lia.
      rewrite Nat.Div0.mod_add. apply Nat.mod_small. lia. }
  split; [rewrite Hd; apply Nat.mod_upper_bound; lia|].
  split; [rewrite arrowUp_nat by exact Hn; apply Nat.mod_upper_bound; lia|].
  intro Hi. split; [apply Hdown; exact Hi|]. split; [apply Hup; exact Hi|].
  split.
  - rewrite (Hdown i Hi). destruct (i + 1 =? n)%nat eqn:Ei.
    + apply Nat.eqb_eq in Ei. rewrite Hup by lia. cbn. lia.
    + apply Nat.eqb_neq in Ei. rewrite Hup by lia.
      destruct (i + 1 =? 0)%nat eqn:E0; [apply Nat.eqb_eq in E0; lia|lia].
  - rewrite (Hup i Hi). destruct (i =? 0)%nat eqn:Ei.
    + apply Nat.eqb_eq in Ei. subst i. rewrite Hdown by lia.
      destruct (n - 1 + 1 =? n)%nat eqn:E1; [reflexivity|apply Nat.eqb_neq in E1; lia].
    + apply Nat.eqb_neq in Ei. rewrite Hdown by lia.
      destruct (i - 1 + 1 =? n)%nat eqn:E1; [apply Nat.eqb_eq in E1; lia|lia].
Qed.

Lemma arrow_keys_wrap_witness :
  arrowDown 3 2 = 0%nat /\ arrowUp 3 0 = 2%nat /\ arrowUp 3 (arrowDown 3 2) = 2%nat.
Proof.
  destruct (arrow_keys_wrap 3 2) as (_ & _ & H); [lia|].
  destruct H as (H1 & _ & H3 & _); [lia|].
  split; [exact H1|]. split; [reflexivity|exact H3].
Defined.

(** ** Collision and the two resolution phases *)

(** X18.  [checkCollision] does not depend on the order of its arguments,
    is false for rectangles that only share an edge or lie apart on an
    axis, and a rectangle of positive size collides with itself. *)
Theorem collision_is_strict_overlap (r1 r2 : Rect.t) :
  checkCollision r1 r2 = checkCollision r2 r1 /\
  (Rect.x r1 + Rect.width r1 <= Rect.x r2 \/ Rect.y r1 + Rect.height r1 <= Rect.y r2 ->
   checkCollision r1 r2 = false) /\
  (checkCollision r1 r1 = true <-> 0 < Rect.width r1 /\ 0 < Rect.height r1).
Proof.
  split; [|split].
  - unfold checkCollision, Qgtb.
    destruct (Qltb (Rect.x r1) _), (Qltb (Rect.x r2) _),
             (Qltb (Rect.y r1) _), (Qltb (Rect.y r2) _); reflexivity.
  - intros [H|H]; unfold checkCollision.
    + assert (E : Qgtb (Rect.x r1 + Rect.width r1) (Rect.x r2) = false)
        by (apply Qgtb_false; exact H).
      rewrite E. rewrite andb_false_r. reflexivity.
    + assert (E : Qgtb (Rect.y r1 + Rect.height r1) (Rect.y r2) = false)
        by (apply Qgtb_false; exact H).
      rewrite E. apply andb_false_r.
  - unfold checkCollision. split.
    + intro H. qprop. split; lra.
    + intros [Hw Hh]. repeat (apply andb_true_iff; split);
        first [apply Qltb_true | apply Qgtb_true]; lra.
Qed.

Lemma set_x_set_x (p : Player.t) (a b : Q) :
  Player.set_x (Player.set_x p a) b = Player.set_x p b.
Proof. reflexivity. Qed.

Lemma set_x_same (p : Player.t) : Player.set_x p (Player.x p) = p.
Proof. destruct p; reflexivity. Qed.

Lemma fold_resolveHorizontal_cases (solids : list Rect.t) :
  forall player : Player.t,
  let player' := fold_left resolveHorizontal solids player in
  player' = Player.set_x player (Player.x player') /\
  (Player.x player' = Player.x player \/
   exists platform, In platform solids /\
     ((0 < Player.vx player /\
       Player.x player' = Rect.x platform - Player.width player) \/
      (Player.vx player < 0 /\
       Player.x player' = Rect.x platform + Rect.width platform))).
Proof.
  induction solids as [|s rest IH]; intro player; cbv zeta.
  - cbn [fold_left]. split; [symmetry; apply set_x_same | left; reflexivity].
  - cbn [fold_left].
    assert (Hs : resolveHorizontal player s = player \/
                 (0 < Player.vx player /\
                  resolveHorizontal player s
                  = Player.set_x player (Rect.x s - Player.width player)) \/
                 (Player.vx player < 0 /\
                  resolveHorizontal player s
                  = Player.set_x player (Rect.x s + Rect.width s))).
    { unfold resolveHorizontal. destruct (checkCollision _ _); [|left; reflexivity].
      destruct (Qgtb (Player.vx player) 0) eqn:E1.
      - right; left. qprop. split; [exact E1|reflexivity].
      - destruct (Qltb (Player.vx player) 0) eqn:E2; [|left; reflexivity].
        right; right. qprop. split; [exact E2|reflexivity]. }
    destruct Hs as [Hs|[[Hv Hs]|[Hv Hs]]]; rewrite Hs.
    + destruct (IH player) as [I1 I2]. split; [exact I1|].
      destruct I2 as [I2|(p & Hin & Hp)]; [left; exact I2|].
      right. exists p. split; [right; exact Hin|exact Hp].
    + destruct (IH (Player.set_x player (Rect.x s - Player.width player))) as [I1 I2].
      cbv zeta in I1, I2. rewrite set_x_set_x in I1. split; [exact I1|].
      right. destruct I2 as [I2|(p & Hin & Hp)].
      * exists s. split; [left; reflexivity|]. left. split; [exact Hv|exact I2].
      * exists p. split; [right; exact Hin|exact Hp].
    + destruct (IH (Player.set_x player (Rect.x s + Rect.width s))) as [I1 I2].
      cbv zeta in I1, I2. rewrite set_x_set_x in I1. split; [exact I1|].
      right. destruct I2 as [I2|(p & Hin & Hp)].
      * exists s. split; [left; reflexivity|]. right. split; [exact Hv|exact I2].
      * exists p. split; [right; exact Hin|exact Hp].
Qed.


Lemma fold_resolveVertical_cases (solids : list Rect.t) :
  forall player : Player.t,
  let player' := fold_left resolveVertical solids player in
  player' = player \/
  exists platform, In platform solids /\
    checkCollision (Player.rect player) platform = true /\
    ((Qgtb (Player.gravityScale player) 0 = true /\ 0 < Player.vy player /\
      player' = land player (Rect.y platform - Player.height player) true) \/
     (Qgtb (Player.gravityScale player) 0 = true /\ Player.vy player < 0 /\
      player' = land player (Rect.y platform + Rect.height platform) false) \/
     (Qgtb (Player.gravityScale player) 0 = false /\ Player.vy player < 0 /\
      player' = land player (Rect.y platform + Rect.height platform) true) \/
     (Qgtb (Player.gravityScale player) 0 = false /\ 0 < Player.vy player /\
      player' = land player (Rect.y platform - Player.height player) false)).
Proof.
  induction solids as [|s rest IH]; intro player; cbv zeta; [left; reflexivity|].
  cbn [fold_left].
  assert (Hland : forall y' grounded,
            fold_left resolveVertical rest (land player y' grounded)
            = land player y' grounded).
  { intros y' grounded. apply fold_resolveVertical_still.
    unfold land. destruct grounded; cbn; reflexivity. }
  assert (Hskip : resolveVertical player s = player ->
            fold_left resolveVertical rest player = player \/
            exists platform, In platform (s :: rest) /\
              checkCollision (Player.rect player) platform = true /\
              ((Qgtb (Player.gravityScale player) 0 = true /\ 0 < Player.vy player /\
                fold_left resolveVertical rest player
                = land player (Rect.y platform - Player.height player) true) \/
               (Qgtb (Player.gravityScale player) 0 = true /\ Player.vy player < 0 /\
                fold_left resolveVertical rest player
                = land player (Rect.y platform + Rect.height platform) false) \/
               (Qgtb (Player.gravityScale player) 0 = false /\ Player.vy player < 0 /\
                fold_left resolveVertical rest player
                = land player (Rect.y platform + Rect.height platform) true) \/
               (Qgtb (Player.gravityScale player) 0 = false /\ 0 < Player.vy player /\
                fold_left resolveVertical rest player
                = land player (Rect.y platform - Player.height player) false))).
  { intros _. destruct (IH player) as [I|(p & Hin & Hc & Hp)]; [left; exact I|].
    right. exists p. split; [right; exact Hin|]. split; [exact Hc|exact Hp]. }
  assert (Hs : resolveVertical player s = player \/
               (checkCollision (Player.rect player) s = true /\
                ((Qgtb (Player.gravityScale player) 0 = true /\ 0 < Player.vy player /\
                  resolveVertical player s
                  = land player (Rect.y s - Player.height player) true) \/
                 (Qgtb (Player.gravityScale player) 0 = true /\ Player.vy player < 0 /\
                  resolveVertical player s
                  = land player (Rect.y s + Rect.height s) false) \/
                 (Qgtb (Player.gravityScale player) 0 = false /\ Player.vy player < 0 /\
                  resolveVertical player s
                  = land player (Rect.y s + Rect.height s) true) \/
                 (Qgtb (Player.gravityScale player) 0 = false /\ 0 < Player.vy player /\
                  resolveVertical player s
                  = land player (Rect.y s - Player.height player) false)))).
  { unfold resolveVertical.
    destruct (checkCollision (Player.rect player) s) eqn:Ec; [|left; reflexivity].
    destruct (Qgtb (Player.gravityScale player) 0) eqn:Eg.
    - destruct (Qgtb (Player.vy player) 0) eqn:E1.
      + right. split; [reflexivity|]. left. qprop. auto.
      + destruct (Qltb (Player.vy player) 0) eqn:E2; [|left; reflexivity].
        right. split; [reflexivity|]. right; left. qprop. auto.
    - destruct (Qltb (Player.vy player) 0) eqn:E1.
      + right. split; [reflexivity|]. right; right; left. qprop. auto.
      + destruct (Qgtb (Player.vy player) 0) eqn:E2; [|left; reflexivity].
        right. split; [reflexivity|]. right; right; right. qprop. auto. }
  destruct Hs as [Hs|[Ec Hs]]; [rewrite Hs; apply Hskip; exact Hs|].
  right. exists s. split; [left; reflexivity|]. split; [exact Ec|].
  destruct Hs as [(Eg & Hv & Hs)|[(Eg & Hv & Hs)|[(Eg & Hv & Hs)|(Eg & Hv & Hs)]]];
    rewrite Hs, Hland; auto 10.
Qed.

(** X20.  The vertical phase of a frame never writes [x] or [vx].  It ends
    either with the player simply moved by [vy * dt] and off the ground,
    or stopped ([vy = 0]) flush against the top or the underside of a
    platform or invisible platform that the moved player overlaps.  The
    player is on the ground after the phase only when it was stopped while
    moving in the direction of its gravity: downwards onto a top under
    positive [gravityScale], upwards onto an underside otherwise. *)
Theorem grounded_only_by_landing (platforms invisiblePlatforms : list Rect.t)
    (dt : Q) (player : Player.t) :
  let moved :=
    Player.set_onGround
      (Player.set_y player (Player.y player + Player.vy player * dt)) false in
  let player' := moveVertical platforms invisiblePlatforms dt player in
  Player.x player' = Player.x player /\ Player.vx player' = Player.vx player /\
  Player.gravityScale player' = Player.gravityScale player /\
  (player' = moved \/
   Player.vy player' = 0 /\
   exists platform, In platform (platforms ++ invisiblePlatforms) /\
     checkCollision (Player.rect moved) platform = true /\
     (Player.y player' = Rect.y platform - Player.height player \/
      Player.y player' = Rect.y platform + Rect.height platform)) /\
  (Player.onGround player' = true ->
   exists platform, In platform (platforms ++ invisiblePlatforms) /\
     checkCollision (Player.rect moved) platform = true /\
     ((0 < Player.gravityScale player /\ 0 < Player.vy player /\
       Player.y player' = Rect.y platform - Player.height player) \/
      (Player.gravityScale player <= 0 /\ Player.vy player < 0 /\
       Player.y player' = Rect.y platform + Rect.height platform))).
Proof.
  cbv zeta. unfold moveVertical, verticalResolution. rewrite <- fold_left_app.
  cbv zeta.
  set (moved := Player.set_onGround
                  (Player.set_y player (Player.y player + Player.vy player * dt)) false).
  destruct (fold_resolveVertical_cases (platforms ++ invisiblePlatforms) moved)
    as [H|(p & Hin & Hc & H)]; cbv zeta in H.
  - rewrite H. repeat split; [left; reflexivity|]. cbn. discriminate.
  - assert (Hl : forall y' grounded,
              Player.x (land moved y' grounded) = Player.x player /\
              Player.vx (land moved y' grounded) = Player.vx player /\
              Player.gravityScale (land moved y' grounded) = Player.gravityScale player /\
              Player.vy (land moved y' grounded) = 0 /\
              Player.y (land moved y' grounded) = y' /\
              Player.onGround (land moved y' grounded) = grounded).
    { intros y' [|]; cbn; repeat split. }
    destruct H as [(Eg & Hv & H)|[(Eg & Hv & H)|[(Eg & Hv & H)|(Eg & Hv & H)]]];
      rewrite H;
      match goal with
      | |- context [land moved ?y' ?b] =>
          destruct (Hl y' b) as (L1 & L2 & L3 & L4 & L5 & L6)
      end;
      rewrite L1, L2, L3, L4, L5, L6;
      (split; [reflexivity|]); (split; [reflexivity|]); (split; [reflexivity|]);
      (split; [right; split; [reflexivity|]; exists p;
               split; [exact Hin|]; split; [exact Hc|]; cbn; auto|]);
      intro Hg; try discriminate Hg;
      exists p; (split; [exact Hin|]); (split; [exact Hc|]); qprop; cbn in *; auto.
Qed.

(** ** Gravity zones: one pass of the zone check *)

Lemma activateGravityZone_zone (zone : Zone.t) (player : Player.t) :
  let zone' := fst (activateGravityZone zone player) in
  exists hasActivated' cooldownTimer',
    zone' = Zone.set_runtime zone hasActivated' cooldownTimer'.
Proof.
  cbv zeta.
  assert (Hsame : zone = Zone.set_runtime zone (Zone.hasActivated zone)
                           (Zone.cooldownTimer zone)) by (destruct zone; reflexivity).
  destruct (refuses zone) eqn:R.
  - rewrite activateGravityZone_refused by exact R. cbn [fst]. eauto.
  - rewrite activateGravityZone_accepted by exact R. cbv zeta.
    destruct (Qneqb _ _); cbn [fst]; eauto.
Qed.

Lemma sameBody_refl (p : Player.t) : sameBody p p.
Proof. repeat split. Qed.

Lemma sameBody_trans (p q r : Player.t) : sameBody p q -> sameBody q r -> sameBody p r.
Proof.
  unfold sameBody.
  intros (A1 & A2 & A3 & A4 & A5 & A6 & A7 & A8 & A9)
         (B1 & B2 & B3 & B4 & B5 & B6 & B7 & B8 & B9).
  rewrite B1, B2, B3, B4, B5, B6, B7, B8, B9. repeat split; assumption.
Qed.

Lemma applyGravityChange_sameBody (type : string) (player : Player.t) :
  sameBody player (applyGravityChange type player) /\
  Player.currentGravityZone (applyGravityChange type player)
  = Player.currentGravityZone player.
Proof.
  unfold applyGravityChange.
  destruct (String.eqb type "flip"); [repeat split|].
  destruct (String.eqb type "toggle"); [repeat split|].
  destruct (String.eqb type "momentary"); repeat split.
Qed.

(** What an activation can do to the player: nothing to its body or its
    zone membership; and either the gravity scale keeps its value, or the
    activation passed both guards and the zone is marked and cooling. *)
Lemma activateGravityZone_change (zone : Zone.t) (player : Player.t) :
  let result := activateGravityZone zone player in
  sameBody player (snd result) /\
  Player.currentGravityZone (snd result) = Player.currentGravityZone player /\
  (Player.gravityScale (snd result) == Player.gravityScale player \/
   refuses zone = false /\
   Zone.hasActivated (fst result) = true /\
   Zone.cooldownTimer (fst result) = Some (cooldownOrDefault zone)).
Proof.
  cbv zeta. destruct (refuses zone) eqn:R.
  - rewrite activateGravityZone_refused by exact R. cbn [fst snd].
    split; [apply sameBody_refl|]. split; [reflexivity|]. left. reflexivity.
  - rewrite activateGravityZone_accepted by exact R. cbv zeta.
    destruct (applyGravityChange_sameBody (Zone.type zone) player) as [Hb Hz].
    set (changed := applyGravityChange (Zone.type zone) player) in *.
    destruct (Qneqb (Player.gravityScale player) (Player.gravityScale changed)) eqn:E;
      cbn [fst snd].
    + split; [|split].
      * destruct (durationTruthy _); exact Hb.
      * destruct (durationTruthy _); exact Hz.
      * right. split; [reflexivity|]. split; reflexivity.
    + split; [exact Hb|]. split; [exact Hz|]. left. qprop. symmetry. exact E.
Qed.

Lemma deactivateGravityZone_sameBody (zone : Zone.t) (player : Player.t) :
  sameBody player (deactivateGravityZone zone player) /\
  Player.currentGravityZone (deactivateGravityZone zone player)
  = Player.currentGravityZone player /\
  (Player.gravityScale (deactivateGravityZone zone player) == 1).
Proof.
  unfold deactivateGravityZone. destruct (Qneqb _ _) eqn:E.
  - repeat split.
  - qprop. repeat split. exact E.
Qed.

Lemma eqb_enter_contact (trigger : string) :
  String.eqb trigger "enter" = true -> String.eqb trigger "contact" = false.
Proof. intro H. apply String.eqb_eq in H. subst trigger. reflexivity. Qed.

(** The loop body of [checkGravityZones] by the four cases of being and
    having been in the zone. *)
Lemma checkGravityZone_cases (dt : Q) (zone : Zone.t) (player : Player.t) :
  let isInZone := checkCollision (Player.rect player) (Zone.rect zone) in
  let wasInZone := setHas (Player.currentGravityZone player) (Zone.id zone) in
  let timer := cooldownAfter dt (Zone.cooldownTimer zone) in
  let ticked := Zone.set_runtime zone (Zone.hasActivated zone) (Some timer) in
  let ready := Qleb timer 0 && negb (Player.gravityLocked player) in
  let entered :=
    Player.set_currentGravityZone player
      (setAdd (Player.currentGravityZone player) (Zone.id zone)) in
  let left :=
    Player.set_currentGravityZone player
      (setDelete (Player.currentGravityZone player) (Zone.id zone)) in
  checkGravityZone dt zone player
  = if isInZone then
      if wasInZone then
        if String.eqb (Zone.trigger zone) "contact" && ready
        then activateGravityZone ticked player else (ticked, player)
      else
        if (String.eqb (Zone.trigger zone) "enter"
            || String.eqb (Zone.trigger zone) "contact") && ready
        then activateGravityZone ticked entered else (ticked, entered)
    else
      if wasInZone then
        (ticked, if String.eqb (Zone.type zone) "momentary"
                 then deactivateGravityZone ticked left else left)
      else (ticked, player).
Proof.
  cbv zeta. unfold checkGravityZone.
  set (z1 := if timerFalsy (Zone.cooldownTimer zone)
             then Zone.set_runtime zone (Zone.hasActivated zone) (Some 0) else zone).
  set (z2 := match Zone.cooldownTimer z1 with
             | Some t => if Qgtb t 0
                         then Zone.set_runtime z1 (Zone.hasActivated z1) (Some (t - dt))
                         else z1
             | None => z1
             end).
  assert (Hz2 : z2 = Zone.set_runtime zone (Zone.hasActivated zone)
                       (Some (cooldownAfter dt (Zone.cooldownTimer zone)))).
  { subst z2 z1. unfold cooldownAfter, timerFalsy.
    destruct zone as [id x y w h ty tr du co os ia ha [t|]];
      cbn [Zone.cooldownTimer Zone.hasActivated Zone.set_runtime Zone.id Zone.x Zone.y
           Zone.width Zone.height Zone.type Zone.trigger Zone.duration Zone.cooldown
           Zone.oneShot Zone.initialActive].
    - destruct (Qeq_bool t 0);
        cbn [Zone.cooldownTimer Zone.hasActivated Zone.set_runtime Zone.id Zone.x Zone.y
           Zone.width Zone.height Zone.type Zone.trigger Zone.duration Zone.cooldown
           Zone.oneShot Zone.initialActive].
      + reflexivity.
      + destruct (Qgtb t 0); reflexivity.
    - reflexivity. }
  rewrite Hz2. clear z1 z2 Hz2.
  set (timer := cooldownAfter dt (Zone.cooldownTimer zone)).
  set (ticked := Zone.set_runtime zone (Zone.hasActivated zone) (Some timer)).
  cbn [Zone.id Zone.set_runtime].
  change (Zone.id ticked) with (Zone.id zone).
  change (Zone.trigger ticked) with (Zone.trigger zone).
  change (Zone.type ticked) with (Zone.type zone).
  change (timerLe0 (Zone.cooldownTimer ticked)) with (Qleb timer 0).
  set (entered := Player.set_currentGravityZone player
                    (setAdd (Player.currentGravityZone player) (Zone.id zone))).
  set (left := Player.set_currentGravityZone player
                 (setDelete (Player.currentGravityZone player) (Zone.id zone))).
  change (Player.gravityLocked entered) with (Player.gravityLocked player).
  destruct (checkCollision (Player.rect player) (Zone.rect zone));
    destruct (setHas (Player.currentGravityZone player) (Zone.id zone));
    cbn [negb andb]; try reflexivity.
  - rewrite <- andb_assoc. reflexivity.
  - destruct (String.eqb (Zone.trigger zone) "enter") eqn:Ee.
    + rewrite (eqb_enter_contact _ Ee). cbn [orb andb].
      destruct (Qleb timer 0 && negb (Player.gravityLocked player)) eqn:Er.
      2:{ cbv iota beta. change (Zone.trigger ticked) with (Zone.trigger zone).
          rewrite (eqb_enter_contact _ Ee). reflexivity. }
      destruct (activateGravityZone_zone ticked entered) as (ha & ct & Hz).
      cbv zeta in Hz.
      destruct (activateGravityZone ticked entered) as [z3 p3]. cbn [fst] in Hz.
      subst z3. cbn [Zone.trigger Zone.set_runtime].
      change (Zone.trigger ticked) with (Zone.trigger zone).
      rewrite (eqb_enter_contact _ Ee). reflexivity.
    + cbn [orb andb]. rewrite <- andb_assoc. reflexivity.
  - destruct (String.eqb (Zone.type zone) "momentary"); reflexivity.
Qed.

Lemma setHas_setAdd (s : list nat) (k j : nat) :
  setHas (setAdd s k) j = setHas s j || Nat.eqb j k.
Proof.
  unfold setAdd. destruct (setHas s k) eqn:E.
  - destruct (Nat.eqb j k) eqn:Ej; [|rewrite orb_false_r; reflexivity].
    apply Nat.eqb_eq in Ej. subst j. rewrite E. reflexivity.
  - unfold setHas. rewrite existsb_app. cbn. rewrite orb_false_r. reflexivity.
Qed.

Lemma setHas_setDelete (s : list nat) (k j : nat) :
  setHas (setDelete s k) j = setHas s j && negb (Nat.eqb j k).
Proof.
  unfold setHas, setDelete. induction s as [|a s IH]; [reflexivity|].
  cbn [filter existsb]. destruct (Nat.eqb k a) eqn:Ea; cbn [negb existsb].
  - apply Nat.eqb_eq in Ea. subst a. rewrite IH.
    destruct (Nat.eqb j k); cbn [negb orb andb]; [rewrite andb_false_r|]; reflexivity.
  - rewrite IH. destruct (Nat.eqb j a) eqn:Eja; cbn [orb]; [|reflexivity].
    apply Nat.eqb_eq in Eja. subst a. rewrite Nat.eqb_sym, Ea. reflexivity.
Qed.

Lemma checkGravityZone_membership (dt : Q) (zone : Zone.t) (player : Player.t) :
  let result := checkGravityZone dt zone player in
  sameBody player (snd result) /\
  (forall k, setHas (Player.currentGravityZone (snd result)) k
             = if Nat.eqb k (Zone.id zone)
               then checkCollision (Player.rect player) (Zone.rect zone)
               else setHas (Player.currentGravityZone player) k) /\
  exists hasActivated' cooldownTimer',
    fst result = Zone.set_runtime zone hasActivated' cooldownTimer'.
Proof.
  cbv zeta. rewrite checkGravityZone_cases. cbv zeta.
  set (timer := cooldownAfter dt (Zone.cooldownTimer zone)).
  set (ticked := Zone.set_runtime zone (Zone.hasActivated zone) (Some timer)).
  set (entered := Player.set_currentGravityZone player
                    (setAdd (Player.currentGravityZone player) (Zone.id zone))).
  set (left := Player.set_currentGravityZone player
                 (setDelete (Player.currentGravityZone player) (Zone.id zone))).
  assert (Hact : forall p : Player.t,
            sameBody player p ->
            sameBody player (snd (activateGravityZone ticked p)) /\
            Player.currentGravityZone (snd (activateGravityZone ticked p))
            = Player.currentGravityZone p /\
            exists ha ct, fst (activateGravityZone ticked p) = Zone.set_runtime zone ha ct).
  { intros p Hp. destruct (activateGravityZone_change ticked p) as (A1 & A2 & _).
    cbv zeta in A1, A2.
    destruct (activateGravityZone_zone ticked p) as (ha & ct & Hz). cbv zeta in Hz.
    split; [exact (sameBody_trans _ _ _ Hp A1)|]. split; [exact A2|].
    exists ha, ct. rewrite Hz. reflexivity. }
  assert (Hentered : sameBody player entered) by (repeat split).
  assert (Hleft : sameBody player left) by (repeat split).
  assert (Hticked : exists ha ct, ticked = Zone.set_runtime zone ha ct)
    by (exists (Zone.hasActivated zone), (Some timer); reflexivity).
  assert (Hin : forall k, setHas (Player.currentGravityZone entered) k
                          = if Nat.eqb k (Zone.id zone) then true
                            else setHas (Player.currentGravityZone player) k).
  { intro k. subst entered. cbn [Player.currentGravityZone Player.set_currentGravityZone].
    rewrite setHas_setAdd. destruct (Nat.eqb k (Zone.id zone));
      [apply orb_true_r | apply orb_false_r]. }
  assert (Hout : forall k, setHas (Player.currentGravityZone left) k
                           = if Nat.eqb k (Zone.id zone) then false
                             else setHas (Player.currentGravityZone player) k).
  { intro k. subst left. cbn [Player.currentGravityZone Player.set_currentGravityZone].
    rewrite setHas_setDelete. destruct (Nat.eqb k (Zone.id zone));
      [apply andb_false_r | apply andb_true_r]. }
  destruct (checkCollision (Player.rect player) (Zone.rect zone)) eqn:Ein;
    destruct (setHas (Player.currentGravityZone player) (Zone.id zone)) eqn:Ewas.
  - assert (Hk : forall k, setHas (Player.currentGravityZone player) k
                           = if Nat.eqb k (Zone.id zone) then true
                             else setHas (Player.currentGravityZone player) k).
    { intro k. destruct (Nat.eqb k (Zone.id zone)) eqn:Ek; [|reflexivity].
      apply Nat.eqb_eq in Ek. subst k. exact Ewas. }
    destruct (_ && _).
    + destruct (Hact player (sameBody_refl player)) as (A1 & A2 & A3).
      split; [exact A1|]. split; [|exact A3]. intro k. rewrite A2. apply Hk.
    + cbn [fst snd]. split; [apply sameBody_refl|]. split; [exact Hk|exact Hticked].
  - destruct (_ && _).
    + destruct (Hact entered Hentered) as (A1 & A2 & A3).
      split; [exact A1|]. split; [|exact A3]. intro k. rewrite A2. apply Hin.
    + cbn [fst snd]. split; [exact Hentered|]. split; [exact Hin|exact Hticked].
  - cbn [fst snd]. destruct (String.eqb (Zone.type zone) "momentary").
    + destruct (deactivateGravityZone_sameBody ticked left) as (D1 & D2 & _).
      split; [exact (sameBody_trans _ _ _ Hleft D1)|]. split; [|exact Hticked].
      intro k. rewrite D2. apply Hout.
    + split; [exact Hleft|]. split; [exact Hout|exact Hticked].
  - cbn [fst snd]. split; [apply sameBody_refl|]. split; [|exact Hticked].
    intro k. destruct (Nat.eqb k (Zone.id zone)) eqn:Ek; [|reflexivity].
    apply Nat.eqb_eq in Ek. subst k. exact Ewas.
Qed.

Lemma sameBody_rect (p p' : Player.t) : sameBody p p' -> Player.rect p' = Player.rect p.
Proof.
  intros (A1 & A2 & A3 & A4 & _). unfold Player.rect. rewrite A1, A2, A3, A4. reflexivity.
Qed.

Lemma checkGravityZones_membership (dt : Q) (zones : list Zone.t) :
  forall player : Player.t,
  let result := checkGravityZones dt zones player in
  sameBody player (snd result) /\
  map Zone.id (fst result) = map Zone.id zones /\
  map Zone.rect (fst result) = map Zone.rect zones /\
  (forall k, ~ In k (map Zone.id zones) ->
             setHas (Player.currentGravityZone (snd result)) k
             = setHas (Player.currentGravityZone player) k) /\
  (NoDup (map Zone.id zones) ->
   forall zone, In zone zones ->
     setHas (Player.currentGravityZone (snd result)) (Zone.id zone)
     = checkCollision (Player.rect player) (Zone.rect zone)).
Proof.
  induction zones as [|z rest IH]; intro player; cbv zeta.
  - cbn. split; [apply sameBody_refl|]. repeat split; auto. intros _ zone [].
  - cbn [checkGravityZones].
    destruct (checkGravityZone_membership dt z player) as (C1 & C2 & ha & ct & C3).
    cbv zeta in C1, C2, C3.
    destruct (checkGravityZone dt z player) as [z' p1]. cbn [fst snd] in C1, C2, C3.
    destruct (IH p1) as (I1 & I2 & I3 & I4 & I5). cbv zeta in I1, I2, I3, I4, I5.
    destruct (checkGravityZones dt rest p1) as [rest' p2]. cbn [fst snd] in *.
    subst z'. cbn [map Zone.id Zone.rect Zone.set_runtime Zone.x Zone.y Zone.width
                   Zone.height].
    split; [exact (sameBody_trans _ _ _ C1 I1)|].
    split; [rewrite I2; reflexivity|].
    split; [rewrite I3; reflexivity|].
    split.
    + intros k Hk. rewrite I4 by (intro H; apply Hk; right; exact H).
      rewrite C2. destruct (Nat.eqb k (Zone.id z)) eqn:Ek; [|reflexivity].
      apply Nat.eqb_eq in Ek. exfalso. apply Hk. left. symmetry. exact Ek.
    + intros Hnd zone [<-|Hin].
      * inversion Hnd as [|? ? Hnotin Hrest]; subst.
        rewrite I4 by exact Hnotin. rewrite C2, Nat.eqb_refl. reflexivity.
      * inversion Hnd as [|? ? Hnotin Hrest]; subst.
        rewrite (I5 Hrest zone Hin), (sameBody_rect _ _ C1). reflexivity.
Qed.

(** X21.  A pass of [checkGravityZones] over zones with distinct ids
    leaves the player's position, size, horizontal velocity, ground and
    jump flags alone and the zones' ids and rectangles too, and makes the
    membership set mirror the overlaps: afterwards the set holds a zone's
    id exactly when the player overlaps that zone, whatever the set held
    before; ids of no zone keep their membership. *)
Theorem zone_membership_mirrors_overlap (dt : Q) (zones : list Zone.t)
    (player : Player.t) :
  NoDup (map Zone.id zones) ->
  let result := checkGravityZones dt zones player in
  sameBody player (snd result) /\
  map Zone.id (fst result) = map Zone.id zones /\
  map Zone.rect (fst result) = map Zone.rect zones /\
  (forall zone, In zone zones ->
     setHas (Player.currentGravityZone (snd result)) (Zone.id zone)
     = checkCollision (Player.rect player) (Zone.rect zone)) /\
  (forall k, ~ In k (map Zone.id zones) ->
     setHas (Player.currentGravityZone (snd result)) k
     = setHas (Player.currentGravityZone player) k).
Proof.
  intro Hnd. cbv zeta.
  destruct (checkGravityZones_membership dt zones player) as (H1 & H2 & H3 & H4 & H5).
  cbv zeta in H1, H2, H3, H4, H5.
  split; [exact H1|]. split; [exact H2|]. split; [exact H3|].
  split; [exact (H5 Hnd)|exact H4].
Qed.

(** X22.  One zone's step of [checkGravityZones] changes the value of
    [gravityScale] in two situations only.  One is leaving a momentary
    zone, which puts it back to 1.  The other is an activation, which
    needs the player inside the zone, the zone's cooldown timer (after
    this frame's decrement) at or below zero, gravity not locked, the
    one-shot guard open, and the trigger ['contact'], or ['enter'] with
    the player not in the zone before; the zone is then marked activated
    and its cooldown restarted.  So a player that stays inside an
    ['enter'] zone, is outside, or meets a cooling zone keeps its
    gravity. *)
Theorem gravity_changes_only_on_activation_or_exit (dt : Q) (zone : Zone.t)
    (player : Player.t) :
  let isInZone := checkCollision (Player.rect player) (Zone.rect zone) in
  let wasInZone := setHas (Player.currentGravityZone player) (Zone.id zone) in
  let result := checkGravityZone dt zone player in
  Player.gravityScale (snd result) == Player.gravityScale player \/
  (isInZone = false /\ wasInZone = true /\ Zone.type zone = "momentary"%string /\
   Player.gravityScale (snd result) == 1) \/
  (isInZone = true /\
   cooldownAfter dt (Zone.cooldownTimer zone) <= 0 /\
   Player.gravityLocked player = false /\
   Zone.oneShot zone && Zone.hasActivated zone = false /\
   (Zone.trigger zone = "contact"%string \/
    Zone.trigger zone = "enter"%string /\ wasInZone = false) /\
   Zone.hasActivated (fst result) = true /\
   Zone.cooldownTimer (fst result) = Some (cooldownOrDefault zone)).
Proof.
  cbv zeta. rewrite checkGravityZone_cases. cbv zeta.
  set (timer := cooldownAfter dt (Zone.cooldownTimer zone)).
  set (ticked := Zone.set_runtime zone (Zone.hasActivated zone) (Some timer)).
  set (entered := Player.set_currentGravityZone player
                    (setAdd (Player.currentGravityZone player) (Zone.id zone))).
  set (left := Player.set_currentGravityZone player
                 (setDelete (Player.currentGravityZone player) (Zone.id zone))).
  assert (Hact : forall p : Player.t,
            Player.gravityScale p = Player.gravityScale player ->
            Player.gravityScale (snd (activateGravityZone ticked p))
            == Player.gravityScale player \/
            (Zone.oneShot zone && Zone.hasActivated zone = false /\
             Zone.hasActivated (fst (activateGravityZone ticked p)) = true /\
             Zone.cooldownTimer (fst (activateGravityZone ticked p))
             = Some (cooldownOrDefault zone))).
  { intros p Hp. destruct (activateGravityZone_change ticked p) as (_ & _ & [A|A]).
    - left. rewrite <- Hp. exact A.
    - right. destruct A as (R & A1 & A2). unfold refuses in R.
      apply orb_false_iff in R. destruct R as [R _].
      split; [exact R|]. split; [exact A1|exact A2]. }
  destruct (checkCollision (Player.rect player) (Zone.rect zone)) eqn:Ein;
    destruct (setHas (Player.currentGravityZone player) (Zone.id zone)) eqn:Ewas.
  - destruct (String.eqb (Zone.trigger zone) "contact") eqn:Ec; cbn [andb];
      [|left; reflexivity].
    destruct (Qleb timer 0) eqn:Et; cbn [andb]; [|left; reflexivity].
    destruct (Player.gravityLocked player) eqn:El; cbn [negb]; [left; reflexivity|].
    destruct (Hact player eq_refl) as [A|(A0 & A1 & A2)]; [left; exact A|].
    right; right. apply String.eqb_eq in Ec. qprop. auto 10.
  - destruct (String.eqb (Zone.trigger zone) "enter"
              || String.eqb (Zone.trigger zone) "contact") eqn:Ec; cbn [andb];
      [|left; reflexivity].
    destruct (Qleb timer 0) eqn:Et; cbn [andb]; [|left; reflexivity].
    destruct (Player.gravityLocked player) eqn:El; cbn [negb]; [left; reflexivity|].
    destruct (Hact entered eq_refl) as [A|(A0 & A1 & A2)]; [left; exact A|].
    right; right. qprop. apply orb_true_iff in Ec.
    split; [reflexivity|]. split; [exact Et|]. split; [reflexivity|].
    split; [exact A0|]. split; [|split; [exact A1|exact A2]].
    destruct Ec as [Ec|Ec]; apply String.eqb_eq in Ec; auto.
  - cbn [fst snd]. destruct (String.eqb (Zone.type zone) "momentary") eqn:Em;
      [|left; reflexivity].
    destruct (deactivateGravityZone_sameBody ticked left) as (_ & _ & D).
    right; left. apply String.eqb_eq in Em. auto.
  - left. reflexivity.
Qed.

(** ** The jump latch *)

Lemma dieWrites_keys (g : Game.t) : Game.keys (dieWrites g) = Game.keys g.
Proof. unfold dieWrites. destruct (negb _); reflexivity. Qed.

Lemma updatePlaying_keys (dt : Q) (g : Game.t) :
  Game.keys (updatePlaying dt g) = Game.keys g.
Proof.
  unfold updatePlaying.
  assert (F : forall h, Game.keys (fallStep h) = Game.keys h).
  { intro h. unfold fallStep. destruct (Qgtb _ _); [apply dieWrites_keys|reflexivity]. }
  assert (D : forall h, Game.keys (doorStep h) = Game.keys h).
  { intro h. unfold doorStep. destruct (Game.door h); [|reflexivity].
    destruct (checkCollision _ _); reflexivity. }
  assert (S : forall h, Game.keys (spikeDeathStep h) = Game.keys h).
  { intro h. unfold spikeDeathStep. destruct (existsb _ _); [apply dieWrites_keys|reflexivity]. }
  rewrite F, D, S. reflexivity.
Qed.

Lemma applyInput_jump (keys : Keys.t) (dt : Q) (player : Player.t) :
  let jump :=
    Keys.space keys && Player.onGround player && negb (Player.hasJumped player) in
  let player' := applyInput keys dt player in
  Player.hasJumped player'
  = Keys.space keys && (Player.hasJumped player || Player.onGround player) /\
  Player.onGround player' = (if jump then false else Player.onGround player) /\
  Player.vy player'
  = (if jump then JUMP_FORCE * Player.gravityScale player else Player.vy player)
    + GRAVITY * Player.gravityScale player * dt.
Proof.
  cbv zeta. unfold applyInput.
  destruct (Keys.left keys); [|destruct (Keys.right keys)];
    cbn [Player.onGround Player.hasJumped Player.set_vx];
    destruct (Keys.space keys), (Player.onGround player) eqn:Eo,
             (Player.hasJumped player) eqn:Ej;
    cbn [andb orb negb]; pfields; rewrite ?Eo, ?Ej; repeat split.
Qed.

Lemma moveHorizontal_frame (canvas : Canvas.t)
    (platforms invisiblePlatforms : list Rect.t) (dt : Q) (player : Player.t) :
  let player' := moveHorizontal canvas platforms invisiblePlatforms dt player in
  player' = Player.set_x player (Player.x player').
Proof.
  cbv zeta. unfold moveHorizontal, horizontalResolution.
  rewrite <- fold_left_app. cbv zeta.
  set (p1 := Player.set_x player (Player.x player + Player.vx player * dt)).
  set (p2 := if Qltb (Player.x p1) 0 then Player.set_x p1 0 else p1).
  set (p3 := if Qgtb (Player.x p2 + Player.width p2) (Canvas.width canvas)
             then Player.set_x p2 (Canvas.width canvas - Player.width p2) else p2).
  assert (H3 : p3 = Player.set_x player (Player.x p3)).
  { subst p3 p2 p1. destruct (Qltb _ 0); destruct (Qgtb _ _); reflexivity. }
  clearbody p3.
  destruct (fold_resolveHorizontal_cases (platforms ++ invisiblePlatforms) p3) as [F _].
  cbv zeta in F. rewrite F. rewrite H3 at 1. reflexivity.
Qed.

Lemma moveVertical_flags (platforms invisiblePlatforms : list Rect.t)
    (dt : Q) (player : Player.t) :
  Player.hasJumped (moveVertical platforms invisiblePlatforms dt player)
  = Player.hasJumped player.
Proof.
  unfold moveVertical, verticalResolution. rewrite <- fold_left_app. cbv zeta.
  set (moved := Player.set_onGround _ false).
  destruct (fold_resolveVertical_cases (platforms ++ invisiblePlatforms) moved)
    as [H|(p & _ & _ & H)]; cbv zeta in H; [rewrite H; reflexivity|].
  destruct H as [(_ & _ & H)|[(_ & _ & H)|[(_ & _ & H)|(_ & _ & H)]]];
    rewrite H; reflexivity.
Qed.

Lemma updatePlaying_hasJumped (dt : Q) (g : Game.t) :
  Player.hasJumped (Game.player (updatePlaying dt g))
  = Keys.space (Game.keys g)
    && (Player.hasJumped (Game.player g) || Player.onGround (Game.player g)).
Proof.
  rewrite updatePlaying_player.
  destruct (checkGravityZones_membership dt (Game.gravityZones g) (stepPlayer g dt))
    as ((_ & _ & _ & _ & _ & _ & Hj & _) & _).
  cbv zeta in Hj. rewrite Hj. unfold stepPlayer.
  change (if ENABLE_GRAVITY_ZONES then updateGravityTimers dt (Game.player g)
          else Game.player g) with (updateGravityTimers dt (Game.player g)).
  cbv zeta. rewrite moveVertical_flags.
  rewrite moveHorizontal_frame. cbn [Player.hasJumped Player.set_x].
  destruct (applyInput_jump (Game.keys g) dt (updateGravityTimers dt (Game.player g)))
    as (A & _). cbv zeta in A. rewrite A.
  destruct (updateGravityTimers_body dt (Game.player g))
    as (_ & _ & _ & _ & _ & U1 & U2 & _). cbv zeta in U1, U2.
  rewrite U1, U2. reflexivity.
Qed.

(** *** The frames of [update] by what they do to the player *)

Lemma parseLevel_keys (g g' : Game.t) :
  parseLevel g = Ok g' -> Game.keys g' = Game.keys g.
Proof.
  rewrite parseLevel_parsed.
  destruct (parsed _ _ _ _) as [[st zones]|]; [|discriminate].
  intro H. injection H as <-. reflexivity.
Qed.

Lemma resetPlayer_atRest (g : Game.t) : Forall spikeAtRest (Game.spikes (resetPlayer g)).
Proof.
  cbn [Game.spikes resetPlayer Game.set_death Game.set_spikes Game.set_player].
  apply Forall_forall. intros spike Hin. apply in_map_iff in Hin.
  destruct Hin as (s0 & <- & _). repeat split.
Qed.

Lemma startLevel_fields (g g' : Game.t) :
  startLevel g = Ok g' ->
  Game.keys g' = Game.keys g /\
  Game.player g' = spawnedPlayer g' /\
  Forall spikeAtRest (Game.spikes g').
Proof.
  unfold startLevel. destruct (parseLevel g) as [g2|] eqn:Ep; [|discriminate].
  intro H. injection H as <-.
  split; [exact (parseLevel_keys g g2 Ep)|]. split; [reflexivity|].
  apply (resetPlayer_atRest g2).
Qed.

Lemma loadLevelFromChapter_fields (c l : nat) (s s' : Session.t) :
  loadLevelFromChapter c l s = Ok s' ->
  Game.keys (Session.game s') = Game.keys (Session.game s) /\
  Game.player (Session.game s') = spawnedPlayer (Session.game s') /\
  Forall spikeAtRest (Game.spikes (Session.game s')).
Proof.
  unfold loadLevelFromChapter. cbv zeta.
  destruct (getGlobalLevelIndex _ c l) as [gi|]; [|discriminate].
  destruct (startLevel _) as [g2|] eqn:Es; [|discriminate].
  intro H. injection H as <-. cbn [Session.game Session.set_level].
  exact (startLevel_fields _ _ Es).
Qed.

(** What a frame of [update] that returns does to the keys, the player
    and the spikes: a frame of the playing state runs the physics, a frame
    that calls [resetPlayer] leaves a new player and resting spikes, and
    every other frame leaves the player and the spikes as they are. *)
Lemma update_frame_kinds (dt : Q) (s s' : Session.t) :
  update dt s = Ok s' ->
  Game.keys (Session.game s') = Game.keys (Session.game s) /\
  if playingFrame s then
    resetsPlayer dt s = false /\ Session.game s' = updatePlaying dt (Session.game s)
  else if resetsPlayer dt s then
    Game.player (Session.game s') = spawnedPlayer (Session.game s') /\
    Forall spikeAtRest (Game.spikes (Session.game s'))
  else
    Game.player (Session.game s') = Game.player (Session.game s) /\
    Game.spikes (Session.game s') = Game.spikes (Session.game s).
Proof.
  intro Hu. unfold update in Hu. unfold playingFrame, resetsPlayer. cbv zeta in *.
  destruct (Session.transition s) as [|pending|] eqn:Et.
  - destruct (Game.gameState (Session.game s)) eqn:Eg; cbn [andb].
    + injection Hu as <-. repeat split.
    + injection Hu as <-. repeat split.
    + injection Hu as <-. repeat split.
    + injection Hu as <-. repeat split.
    + (* customize *)
      destruct (Game.isDead (Session.game s)) eqn:Ed; cbn [andb negb].
      * injection Hu as <-. cbn [Session.game Session.set_game].
        unfold updateDead. cbn [Game.deathFlashTimer Game.set_death].
        destruct (Qleb (Game.deathFlashTimer (Session.game s) - dt) 0).
        -- split; [reflexivity|]. split; [reflexivity|]. apply resetPlayer_atRest.
        -- repeat split.
      * injection Hu as <-. repeat split.
    + (* playing *)
      destruct (Game.isDead (Session.game s)) eqn:Ed; cbn [andb negb].
      * injection Hu as <-. cbn [Session.game Session.set_game].
        unfold updateDead. cbn [Game.deathFlashTimer Game.set_death].
        destruct (Qleb (Game.deathFlashTimer (Session.game s) - dt) 0).
        -- split; [reflexivity|]. split; [reflexivity|]. apply resetPlayer_atRest.
        -- repeat split.
      * destruct (Session.isPaused s) eqn:Ep; cbn [negb].
        -- injection Hu as <-. repeat split.
        -- rewrite (updatePlayingSession_spec dt s Eg Ed) in Hu. cbv zeta in Hu.
           destruct (_ && _) in Hu; [discriminate Hu|]. injection Hu as <-.
           cbn [Session.game Session.set_game].
           split; [apply updatePlaying_keys|]. split; reflexivity.
    + injection Hu as <-. repeat split.
    + (* levelComplete *)
      unfold updateLevelComplete in Hu. cbv zeta in Hu.
      cbn [Session.game Session.set_game Game.levelCompleteTimer Game.set_flow
           Game.chapters Game.currentChapter Session.currentLevelInChapter] in Hu.
      destruct (Qleb (Game.levelCompleteTimer (Session.game s) - dt) 0); cbn [andb].
      * destruct (nth_error (Game.chapters (Session.game s))
                    (Game.currentChapter (Session.game s))) as [chapter|];
          [|discriminate Hu].
        destruct (Z.of_nat (Session.currentLevelInChapter s)
                  <? Z.of_nat (List.length (Chapter.levels chapter)) - 1)%Z.
        -- destruct (loadLevelFromChapter _ _ _) as [s2|] eqn:El; [|discriminate Hu].
           destruct (updateStats _); [|discriminate Hu]. injection Hu as <-.
           destruct (loadLevelFromChapter_fields _ _ _ _ El) as (K & P & A).
           split; [exact K|]. split; [exact P|exact A].
        -- destruct (_ <? _)%Z; injection Hu as <-; repeat split.
      * injection Hu as <-. repeat split.
  - destruct (Qgeb _ 1); injection Hu as <-; repeat split.
  - destruct (Qleb _ 0); injection Hu as <-; repeat split.
Qed.

Lemma update_keys_run (dts : list Q) :
  forall s s' : Session.t,
  runUpdates dts s = Ok s' ->
  Game.keys (Session.game s') = Game.keys (Session.game s).
Proof.
  induction dts as [|dt rest IH]; intros s s' H.
  - injection H as <-. reflexivity.
  - cbn [runUpdates] in H. destruct (update dt s) as [s1|] eqn:Eu; [|discriminate H].
    rewrite (IH s1 s' H). apply (update_frame_kinds dt s s1 Eu).
Qed.

(** Holding space: the jumps of a run are bounded by the jump still
    available (one unless [hasJumped] is set) plus the calls of
    [resetPlayer] in the run. *)
Lemma jumpCount_bound (dts : list Q) :
  forall s : Session.t,
  Keys.space (Game.keys (Session.game s)) = true ->
  (jumpCount dts s
   <= (if Player.hasJumped (Game.player (Session.game s)) then 0 else 1)
      + resetCount dts s)%nat.
Proof.
  induction dts as [|dt rest IH]; intros s Hs; [cbn; lia|].
  cbn [jumpCount resetCount].
  destruct (update dt s) as [s1|] eqn:Eu.
  2:{ unfold jumps. destruct (playingFrame s); cbn [andb]; [|lia].
      rewrite Hs. cbn [andb].
      destruct (Player.onGround _), (Player.hasJumped _); cbn; lia. }
  destruct (update_frame_kinds dt s s1 Eu) as (K & Hkind).
  assert (Hs1 : Keys.space (Game.keys (Session.game s1)) = true) by (rewrite K; exact Hs).
  specialize (IH s1 Hs1).
  destruct (playingFrame s) eqn:Ep.
  - destruct Hkind as [Hr Hplay]. rewrite Hr. rewrite Hplay in IH.
    rewrite updatePlaying_hasJumped, Hs in IH. cbn [andb] in *.
    unfold jumps. rewrite Hs. cbn [andb].
    destruct (Player.onGround _), (Player.hasJumped _); cbn [andb orb negb] in *; lia.
  - cbn [andb]. destruct (resetsPlayer dt s) eqn:Er.
    + destruct (Player.hasJumped (Game.player (Session.game s1)));
        destruct (Player.hasJumped (Game.player (Session.game s))); lia.
    + destruct Hkind as [Hp _]. rewrite Hp in IH. lia.
Qed.

(** X23.  Holding the jump key jumps once per player.  In a run of frames
    of [update] with the space key held, the frames that start a jump are
    at most one more than the frames that call [resetPlayer] (a respawn
    or the load of the next level, which clear [hasJumped]), and no more
    than those when [hasJumped] is set at the start; with the key up no
    frame starts a jump.  A frame of the playing state that returns ends
    with [hasJumped] set exactly when the key is held and the player had
    jumped already or was on the ground, so a jump sets it and the key up
    clears it.  A frame that starts a jump replaces [vy] by
    [JUMP_FORCE * gravityScale] before gravity is added; any other frame
    of the playing state only adds gravity. *)
Theorem held_space_jumps_once (dts : list Q) (s : Session.t) :
  let g := Session.game s in
  (Keys.space (Game.keys g) = true ->
   (jumpCount dts s <= 1 + resetCount dts s)%nat /\
   (Player.hasJumped (Game.player g) = true ->
    (jumpCount dts s <= resetCount dts s)%nat)) /\
  (Keys.space (Game.keys g) = false -> jumpCount dts s = 0%nat) /\
  (forall dt s', playingFrame s = true -> update dt s = Ok s' ->
     Player.hasJumped (Game.player (Session.game s'))
     = Keys.space (Game.keys g)
       && (Player.hasJumped (Game.player g) || Player.onGround (Game.player g))) /\
  (forall dt,
     let before := updateGravityTimers dt (Game.player g) in
     Player.vy (applyInput (Game.keys g) dt before)
     = (if jumps g then JUMP_FORCE * Player.gravityScale before else Player.vy before)
       + GRAVITY * Player.gravityScale before * dt).
Proof.
  cbv zeta. split; [|split; [|split]].
  - intro Hs. pose proof (jumpCount_bound dts s Hs) as H.
    split.
    + destruct (Player.hasJumped _); lia.
    + intro Hj. rewrite Hj in H. exact H.
  - revert s. induction dts as [|dt rest IH]; intros s Hs; [reflexivity|].
    cbn [jumpCount]. unfold jumps at 1. rewrite Hs, andb_false_r. cbn [andb Nat.add].
    destruct (update dt s) as [s1|] eqn:Eu; [|reflexivity].
    apply IH. destruct (update_frame_kinds dt s s1 Eu) as (K & _). rewrite K. exact Hs.
  - intros dt s' Hp Hu.
    destruct (update_frame_kinds dt s s' Hu) as (_ & Hkind).
    rewrite Hp in Hkind. destruct Hkind as [_ Hplay].
    rewrite Hplay. apply updatePlaying_hasJumped.
  - intro dt.
    destruct (applyInput_jump (Game.keys (Session.game s)) dt
                (updateGravityTimers dt (Game.player (Session.game s))))
      as (_ & _ & A). cbv zeta in A. rewrite A.
    destruct (updateGravityTimers_body dt (Game.player (Session.game s)))
      as (_ & _ & _ & _ & _ & U1 & U2 & _). cbv zeta in U1, U2.
    unfold jumps. rewrite U1, U2. reflexivity.
Qed.

(** ** The moving spike over runs of [update] *)

Lemma totalTime_elapsedTime (frames0 : list (Player.t * Q)) :
  totalTime frames0 == elapsedTime (map snd frames0).
Proof.
  induction frames0 as [|f rest IH]; cbn [totalTime elapsedTime fold_right map].
  - reflexivity.
  - fold (totalTime rest). fold (elapsedTime (map snd rest)). rewrite IH. reflexivity.
Qed.

Lemma spikeRun_cons (player : Player.t) (dt : Q) (frames0 : list (Player.t * Q))
    (spike : Spike.t) :
  spikeRun ((player, dt) :: frames0) spike = spikeRun frames0 (spikeFrame player dt spike).
Proof. reflexivity. Qed.

(** A run of playing frames returns, and does to every spike what
    [spikeRun] does with the players the physics produced. *)
Lemma playingRun_spikes (dts : list Q) :
  forall s : Session.t,
  playingRun dts s ->
  exists (s' : Session.t) (frames0 : list (Player.t * Q)),
    runUpdates dts s = Ok s' /\ map snd frames0 = dts /\
    Game.spikes (Session.game s') = map (spikeRun frames0) (Game.spikes (Session.game s)).
Proof.
  induction dts as [|dt rest IH]; intros s Hrun.
  - exists s, []. split; [reflexivity|]. split; [reflexivity|].
    symmetry. apply map_id.
  - cbn [playingRun] in Hrun. destruct Hrun as [Hp Hrun].
    cbn [runUpdates].
    destruct (update dt s) as [s1|] eqn:Eu; [|contradiction].
    destruct (update_frame_kinds dt s s1 Eu) as [_ Hk]. rewrite Hp in Hk.
    destruct Hk as [_ Hg].
    destruct (IH s1 Hrun) as (s' & frames1 & Hr & Hd & Hs).
    exists s', ((stepPlayer (Session.game s) dt, dt) :: frames1).
    split; [exact Hr|]. split; [cbn [map snd]; rewrite Hd; reflexivity|].
    rewrite Hs, Hg, updatePlaying_spikes, map_map.
    apply map_ext. intro spike. symmetry. apply spikeRun_cons.
Qed.

(** A spike that has moved stays as it is in every frame of [update]
    that does not call [resetPlayer]. *)
Lemma moved_spike_run (j : nat) (spike : Spike.t) (later : list Q) :
  Spike.moved spike = true -> Spike.moving spike = false ->
  forall s t : Session.t,
  nth_error (Game.spikes (Session.game s)) j = Some spike ->
  runUpdates later s = Ok t -> resetCount later s = 0%nat ->
  nth_error (Game.spikes (Session.game t)) j = Some spike.
Proof.
  intros Hm Hv. induction later as [|dt rest IH]; intros s t Hj Hr Hc.
  - cbn in Hr. injection Hr as <-. exact Hj.
  - cbn [runUpdates resetCount] in Hr, Hc.
    destruct (update dt s) as [s1|] eqn:Eu; [|discriminate].
    destruct (update_frame_kinds dt s s1 Eu) as [_ Hk].
    assert (Hreset : resetsPlayer dt s = false).
    { destruct (resetsPlayer dt s); [exfalso; lia|reflexivity]. }
    rewrite Hreset in Hc, Hk. cbn [Nat.add] in Hc.
    apply (IH s1 t); [|exact Hr|exact Hc].
    destruct (playingFrame s).
    + destruct Hk as [_ Hg]. rewrite Hg, updatePlaying_spikes, nth_error_map, Hj.
      cbn [option_map]. rewrite spikeFrame_frozen by assumption. reflexivity.
    + destruct Hk as [_ Hs]. rewrite Hs. exact Hj.
Qed.

(** C2 (as the code has it).  A spike that is triggered and moving, with
    [x = originalX + moveDistance * moveTimer], over a run of frames of
    [update] in the playing state with non-negative delta times.  The run
    returns, and with [progress = moveTimer + 5 * elapsed], the sums taken
    exactly: while [progress < 1] the spike is still moving, at
    [originalX + moveDistance * progress]; once [1 <= progress] (for a
    spike that has just fired: 0.2 s of delta time) it is at
    [originalX + moveDistance] with [moving = false], [moved = true] and
    [moveTimer = 1], and stays exactly so over every later run of [update]
    that does not call [resetPlayer].

    Frame by frame: a playing frame of [update] takes the timer of a
    moving spike to [moveTimer + deltaTime * 5], or to 1 when that sum has
    reached 1, in which case the spike stops and is marked moved, and
    puts the spike at [originalX + moveDistance * moveTimer]; the code's
    double-precision loop follows the same law with its own rounded sum,
    which is where the lock is decided.  A frame of [update] that calls
    [resetPlayer] (respawn, load of the next level) leaves every spike at
    rest: [x = originalX], the three flags cleared, the timer 0. *)
Theorem spike_move_and_lock (dts : list Q) (s : Session.t) (j : nat) (spike : Spike.t) :
  playingRun dts s ->
  Forall (fun dt => 0 <= dt) dts ->
  nth_error (Game.spikes (Session.game s)) j = Some spike ->
  Spike.triggered spike = true -> Spike.moving spike = true ->
  Spike.moveTimer spike < 1 ->
  Spike.x spike == Spike.originalX spike + Spike.moveDistance spike * Spike.moveTimer spike ->
  let progress := Spike.moveTimer spike + 5 * elapsedTime dts in
  (exists (s' : Session.t) (spike' : Spike.t),
     runUpdates dts s = Ok s' /\
     nth_error (Game.spikes (Session.game s')) j = Some spike' /\
     Spike.triggered spike' = true /\
     Spike.originalX spike' = Spike.originalX spike /\
     (progress < 1 ->
        Spike.moving spike' = true /\ Spike.moved spike' = Spike.moved spike /\
        Spike.moveTimer spike' == progress /\
        Spike.x spike' == Spike.originalX spike + Spike.moveDistance spike * progress) /\
     (1 <= progress ->
        Spike.moving spike' = false /\ Spike.moved spike' = true /\
        Spike.moveTimer spike' == 1 /\
        Spike.x spike' == Spike.originalX spike + Spike.moveDistance spike /\
        (forall (later : list Q) (t : Session.t),
           runUpdates later s' = Ok t -> resetCount later s' = 0%nat ->
           nth_error (Game.spikes (Session.game t)) j = Some spike'))) /\
  (forall (dt : Q) (t u : Session.t) (k : nat) (sp : Spike.t),
     playingFrame t = true -> update dt t = Ok u ->
     nth_error (Game.spikes (Session.game t)) k = Some sp ->
     Spike.triggered sp = true -> Spike.moving sp = true ->
     exists sp' : Spike.t,
       nth_error (Game.spikes (Session.game u)) k = Some sp' /\
       let t1 := Spike.moveTimer sp + dt * 5 in
       Spike.moveTimer sp' = (if Qgeb t1 1 then 1 else t1) /\
       Spike.moving sp' = negb (Qgeb t1 1) /\
       Spike.moved sp' = (Qgeb t1 1 || Spike.moved sp) /\
       Spike.x sp' == Spike.originalX sp + Spike.moveDistance sp * Spike.moveTimer sp') /\
  (forall (dt : float) (sp : Doubles.t),
     Doubles.moving sp = true ->
     let t1 := (Doubles.moveTimer sp + dt * 5)%float in
     let sp' := Doubles.advanceSpike dt sp in
     Doubles.moveTimer sp' = (if (1 <=? t1)%float then 1%float else t1) /\
     Doubles.moving sp' = negb (1 <=? t1)%float /\
     Doubles.moved sp' = ((1 <=? t1)%float || Doubles.moved sp)) /\
  (forall (dt : Q) (t u : Session.t),
     update dt t = Ok u -> resetsPlayer dt t = true ->
     Forall spikeAtRest (Game.spikes (Session.game u))) /\
  (forall g : Game.t, Game.spikes (resetPlayer g) = map resetSpike (Game.spikes g)) /\
  (forall sp : Spike.t, spikeAtRest (resetSpike sp) /\
     Spike.originalX (resetSpike sp) = Spike.originalX sp).
Proof.
  intros Hrun Hnn Hj Ht Hm Hlt Hx progress.
  repeat match goal with |- _ /\ _ => split end.
  - destruct (playingRun_spikes dts s Hrun) as (s' & frames0 & Hr & Hd & Hs).
    assert (Hnn0 : Forall (fun f => 0 <= snd f) frames0).
    { apply Forall_forall. intros f Hf.
      rewrite Forall_forall in Hnn. apply Hnn. rewrite <- Hd.
      apply in_map. exact Hf. }
    destruct (spikeRun_moving frames0 spike Ht Hm Hlt Hx Hnn0)
      as (Hox & Htr & Hgo & Hdone).
    assert (Hp : Spike.moveTimer spike + totalTime frames0 * 5 == progress).
    { subst progress. rewrite totalTime_elapsedTime, Hd. ring. }
    exists s', (spikeRun frames0 spike).
    split; [exact Hr|]. split.
    { rewrite Hs, nth_error_map, Hj. reflexivity. }
    split; [exact Htr|]. split; [exact Hox|]. split.
    + intro Hc. destruct Hgo as (G1 & G2 & G3 & G4); [lra|].
      split; [exact G1|]. split; [exact G2|]. split.
      * rewrite G3. exact Hp.
      * rewrite G4, Hp. reflexivity.
    + intro Hc. destruct Hdone as (D1 & D2 & D3 & D4); [lra|].
      split; [exact D1|]. split; [exact D2|]. split; [exact D3|].
      split; [exact D4|].
      intros later t Hl Hc0.
      apply (moved_spike_run j (spikeRun frames0 spike) later D2 D1 s' t);
        [|exact Hl|exact Hc0].
      rewrite Hs, nth_error_map, Hj. reflexivity.
  - intros dt t u k sp Hp Hu Hk Htr Hmv.
    destruct (update_frame_kinds dt t u Hu) as [_ Hkind]. rewrite Hp in Hkind.
    destruct Hkind as [_ Hg].
    exists (spikeFrame (stepPlayer (Session.game t) dt) dt sp). split.
    { rewrite Hg, updatePlaying_spikes, nth_error_map, Hk. reflexivity. }
    unfold spikeFrame. rewrite (checkSpikeTrigger_idle _ sp) by auto.
    cbv zeta. unfold advanceSpike. rewrite Hmv.
    destruct (Qgeb (Spike.moveTimer sp + dt * 5) 1); cbn;
      repeat split; try reflexivity; ring.
  - intros dt sp Hmv. cbv zeta. unfold Doubles.advanceSpike. rewrite Hmv.
    destruct (1 <=? Doubles.moveTimer sp + dt * 5)%float; cbn;
      repeat split; reflexivity.
  - intros dt t u Hu Hreset.
    destruct (update_frame_kinds dt t u Hu) as [_ Hkind].
    destruct (playingFrame t).
    + destruct Hkind as [Hno _]. congruence.
    + rewrite Hreset in Hkind. apply Hkind.
  - intro g. reflexivity.
  - intro sp. split; [|reflexivity]. repeat split; reflexivity.
Qed.

Lemma spike_move_and_lock_witness :
  exists (s' : Session.t) (spike' : Spike.t),
    runUpdates [1 # 10; 1 # 10] (sessionOf playedGame 0) = Ok s' /\
    nth_error (Game.spikes (Session.game s')) 0 = Some spike' /\
    Spike.moved spike' = true /\ Spike.moving spike' = false /\
    Spike.x spike' == 240.
Proof.
  destruct (spike_move_and_lock [1 # 10; 1 # 10] (sessionOf playedGame 0) 0%nat firedSpike)
    as [(s' & spike' & Hr & Hj & _ & _ & _ & Hdone) _].
  - vm_compute. repeat split.
  - repeat constructor; cbn; lra.
  - reflexivity.
  - reflexivity.
  - reflexivity.
  - reflexivity.
  - reflexivity.
  - exists s', spike'. split; [exact Hr|]. split; [exact Hj|].
    destruct Hdone as (Hmv & Hmd & _ & Hx & _).
    + vm_compute. discriminate.
    + split; [exact Hmd|]. split; [exact Hmv|]. rewrite Hx. reflexivity.
Defined.

(** C2, as stated, fails on the 0.2 s: in the code's doubles, ten frames
    of [0.02] s, whose exact sum is above 0.2 s, leave a spike that has
    just fired still moving and not marked moved, its timer at
    [0.9999999999999999]; it locks one frame later. *)
Lemma spike_still_moving_after_a_fifth_of_a_second :
  Prim2SF Doubles.fiftieth = S754_finite false 5764607523034235 (-58) /\
  Doubles.fiftiethValue == 5764607523034235 / inject_Z (2 ^ 58) /\
  1 # 5 <= 10 * Doubles.fiftiethValue /\
  (let spike' := Doubles.advanceFrames 10 Doubles.fiftieth Doubles.firedSpike in
   Doubles.moving spike' = true /\ Doubles.moved spike' = false /\
   Doubles.moveTimer spike' = 0x1.fffffffffffffp-1%float /\
   (Doubles.moveTimer spike' <? 1)%float = true) /\
  (let spike' := Doubles.advanceFrames 11 Doubles.fiftieth Doubles.firedSpike in
   Doubles.moving spike' = false /\ Doubles.moved spike' = true /\
   Doubles.moveTimer spike' = 1%float /\ Doubles.x spike' = 240%float).
Proof.
  split; [vm_compute; reflexivity|].
  split; [vm_compute; reflexivity|].
  split; [vm_compute; discriminate|].
  split; vm_compute; repeat split; reflexivity.
Qed.

(** ** Physics: resolution and the velocity it tests *)







(** ** Parser: the geometry follows the map *)

Lemma last_app_default {A : Type} (a b : list A) (d : A) :
  last (a ++ b) d = last b (last a d).
Proof.
  revert d. induction a as [|x a IH]; intro d; [reflexivity|].
  rewrite <- app_comm_cons, !last_cons. apply IH.
Qed.

Lemma tilesOf_cons (char : ascii) (cell : Z * Z * ascii) (cs : list (Z * Z * ascii)) :
  tilesOf char (cell :: cs) = tilesOf char [cell] ++ tilesOf char cs.
Proof.
  unfold tilesOf. cbn [filter]. destruct cell as [[row col] c].
  destruct (Ascii.eqb c char); reflexivity.
Qed.

Lemma spikeCells_cons (cell : Z * Z * ascii) (cs : list (Z * Z * ascii)) :
  spikeCells (cell :: cs) = spikeCells [cell] ++ spikeCells cs.
Proof.
  unfold spikeCells. cbn [filter]. destruct cell as [[row col] c].
  destruct (isSpikeChar c); reflexivity.
Qed.

Lemma tilesOf_one (char : ascii) (row col : Z) (c : ascii) :
  tilesOf char [(row, col, c)] = if Ascii.eqb c char then [tile row col] else [].
Proof. unfold tilesOf. cbn [filter]. destruct (Ascii.eqb c char); reflexivity. Qed.

Lemma spikeCells_one (row col : Z) (c : ascii) :
  spikeCells [(row, col, c)] = if isSpikeChar c then [(row, col, c)] else [].
Proof. reflexivity. Qed.

(** The characters of the map's vocabulary exclude one another. *)
Lemma char_classes (c : ascii) :
  let test k := Ascii.eqb c k in
  (test "#"%char = true ->
   test "F"%char = false /\ test "I"%char = false /\ test "D"%char = false /\
   test "S"%char = false /\ spikeDistance c = None) /\
  (test "F"%char = true ->
   test "I"%char = false /\ test "D"%char = false /\
   test "S"%char = false /\ spikeDistance c = None) /\
  (test "I"%char = true ->
   test "D"%char = false /\ test "S"%char = false /\ spikeDistance c = None) /\
  (test "D"%char = true -> test "S"%char = false /\ spikeDistance c = None) /\
  (test "S"%char = true -> spikeDistance c = None).
Proof.
  cbv zeta.
  repeat match goal with |- _ /\ _ => split end;
    intro H; apply Ascii.eqb_eq in H; subst c; repeat split.
Qed.

Section Geometry.

Variable canvas : Canvas.t.
Variable customTriggers : list Q.
Variable customTriggerLengths : list (option Q).

Lemma parseCell_fields (st : Pass1.t) (cell : Z * Z * ascii) :
  let st' := parseCell canvas customTriggers customTriggerLengths st cell in
  Pass1.platforms st' = Pass1.platforms st ++ tilesOf "#" [cell] /\
  Pass1.fakeBlocks st' = Pass1.fakeBlocks st ++ tilesOf "F" [cell] /\
  Pass1.invisiblePlatforms st' = Pass1.invisiblePlatforms st ++ tilesOf "I" [cell] /\
  Pass1.door st' = last (map Some (tilesOf "D" [cell])) (Pass1.door st) /\
  Pass1.spawnPoint st'
  = last (map Some (map spawnOf (tilesOf "S" [cell]))) (Pass1.spawnPoint st) /\
  map spikeShape (Pass1.spikes st')
  = map spikeShape (Pass1.spikes st) ++ map cellShape (spikeCells [cell]).
Proof.
  destruct cell as [[row col] c]. destruct st as [pl fb ip sp dr sw si].
  cbv zeta. rewrite !tilesOf_one, spikeCells_one. unfold isSpikeChar.
  destruct (char_classes c) as (C1 & C2 & C3 & C4 & C5). cbv zeta in C1, C2, C3, C4, C5.
  unfold parseCell.
  change (if Ascii.eqb c "^" then Some (TILE_SIZE * 2)
          else match digitValue c with
               | Some d => Some (TILE_SIZE * inject_Z d)
               | None => None
               end) with (spikeDistance c).
  fold (tile row col).
  cbn [Pass1.platforms Pass1.fakeBlocks Pass1.invisiblePlatforms Pass1.door
       Pass1.spawnPoint Pass1.spikes].
  destruct (Ascii.eqb c "#") eqn:E1.
  { destruct (C1 eq_refl) as (-> & -> & -> & -> & ->).
    cbn [Pass1.platforms Pass1.fakeBlocks Pass1.invisiblePlatforms Pass1.door
         Pass1.spawnPoint Pass1.spikes map last].
    rewrite !app_nil_r. repeat split. }
  destruct (Ascii.eqb c "F") eqn:E2.
  { destruct (C2 eq_refl) as (-> & -> & -> & ->).
    cbn [Pass1.platforms Pass1.fakeBlocks Pass1.invisiblePlatforms Pass1.door
         Pass1.spawnPoint Pass1.spikes map last].
    rewrite !app_nil_r. repeat split. }
  destruct (Ascii.eqb c "I") eqn:E3.
  { destruct (C3 eq_refl) as (-> & -> & ->).
    cbn [Pass1.platforms Pass1.fakeBlocks Pass1.invisiblePlatforms Pass1.door
         Pass1.spawnPoint Pass1.spikes map last].
    rewrite !app_nil_r. repeat split. }
  destruct (spikeDistance c) as [md|] eqn:Ed.
  { assert (E4 : Ascii.eqb c "D" = false).
    { destruct (Ascii.eqb c "D") eqn:E; [|reflexivity].
      destruct (C4 eq_refl) as [_ H]. discriminate H. }
    assert (E5 : Ascii.eqb c "S" = false).
    { destruct (Ascii.eqb c "S") eqn:E; [|reflexivity].
      pose proof (C5 eq_refl) as H. discriminate H. }
    rewrite E4, E5.
    cbn [Pass1.platforms Pass1.fakeBlocks Pass1.invisiblePlatforms Pass1.door
         Pass1.spawnPoint Pass1.spikes map last].
    rewrite !app_nil_r, map_app. repeat split.
    cbn [map]. unfold cellShape, spikeShape, makeSpike. rewrite Ed.
    destruct (match nth_error customTriggerLengths si with
              | Some (Some l) => Some l | _ => None end) as [l|];
      [destruct (Qeq_bool l 0); [|destruct (Qgtb l 0)]|]; reflexivity. }
  destruct (Ascii.eqb c "D") eqn:E4.
  { destruct (C4 eq_refl) as (-> & _).
    cbn [Pass1.platforms Pass1.fakeBlocks Pass1.invisiblePlatforms Pass1.door
         Pass1.spawnPoint Pass1.spikes map last].
    rewrite !app_nil_r. repeat split. }
  destruct (Ascii.eqb c "S") eqn:E5;
    cbn [Pass1.platforms Pass1.fakeBlocks Pass1.invisiblePlatforms Pass1.door
         Pass1.spawnPoint Pass1.spikes map last];
    rewrite !app_nil_r; repeat split.
Qed.

Lemma fold_parseCell_fields (cs : list (Z * Z * ascii)) :
  forall st : Pass1.t,
  let st' := fold_left (parseCell canvas customTriggers customTriggerLengths) cs st in
  Pass1.platforms st' = Pass1.platforms st ++ tilesOf "#" cs /\
  Pass1.fakeBlocks st' = Pass1.fakeBlocks st ++ tilesOf "F" cs /\
  Pass1.invisiblePlatforms st' = Pass1.invisiblePlatforms st ++ tilesOf "I" cs /\
  Pass1.door st' = last (map Some (tilesOf "D" cs)) (Pass1.door st) /\
  Pass1.spawnPoint st'
  = last (map Some (map spawnOf (tilesOf "S" cs))) (Pass1.spawnPoint st) /\
  map spikeShape (Pass1.spikes st')
  = map spikeShape (Pass1.spikes st) ++ map cellShape (spikeCells cs).
Proof.
  induction cs as [|cell rest IH]; intro st; cbv zeta.
  - cbn [fold_left]. unfold tilesOf, spikeCells. cbn. rewrite !app_nil_r. repeat split.
  - cbn [fold_left].
    destruct (IH (parseCell canvas customTriggers customTriggerLengths st cell))
      as (I1 & I2 & I3 & I4 & I5 & I6).
    destruct (parseCell_fields st cell) as (P1 & P2 & P3 & P4 & P5 & P6).
    cbv zeta in *.
    rewrite (tilesOf_cons "#" cell rest), (tilesOf_cons "F" cell rest),
      (tilesOf_cons "I" cell rest), (tilesOf_cons "D" cell rest),
      (tilesOf_cons "S" cell rest), (spikeCells_cons cell rest).
    rewrite I1, I2, I3, I4, I5, I6, P1, P2, P3, P4, P5, P6.
    rewrite !map_app, !last_app_default, <- !app_assoc. repeat split.
Qed.

End Geometry.

(** X24.  The first pass of [parseLevel] reads the map cell by cell:
    the platforms, fake blocks and invisible platforms are the tiles of
    the [#], [F] and [I] cells in scan order; the door is the tile of the
    last [D] and the spawn point that of the last [S], shifted 15 pixels
    right (none when the map has none); and there is one spike per [^] or
    digit cell, in scan order, 20 pixels below the top of its tile, moving
    two tiles for [^] and [d] tiles for the digit [d]. *)
Theorem geometry_follows_the_map (canvas : Canvas.t) (levelData : Level.t) :
  let st := parseGeometry canvas levelData in
  let cs := cells (Level.map levelData) in
  Pass1.platforms st = tilesOf "#" cs /\
  Pass1.fakeBlocks st = tilesOf "F" cs /\
  Pass1.invisiblePlatforms st = tilesOf "I" cs /\
  Pass1.door st = lastOf (tilesOf "D" cs) /\
  Pass1.spawnPoint st
  = lastOf (map spawnOf (tilesOf "S" cs)) /\
  map spikeShape (Pass1.spikes st) = map cellShape (spikeCells cs).
Proof.
  cbv zeta. unfold parseGeometry.
  destruct (fold_parseCell_fields canvas (orEmpty (Level.spikeTriggers levelData))
              (orEmpty (Level.spikeTriggerLengths levelData))
              (cells (Level.map levelData)) Pass1.init)
    as (H1 & H2 & H3 & H4 & H5 & H6).
  cbv zeta in *. rewrite H1, H2, H3, H4, H5. repeat split.
  exact H6.
Qed.

(** ** Parser: gravity zones *)

Lemma posHas_cons (processed : list (Z * Z)) (r0 c0 row col : Z) :
  posHas ((r0, c0) :: processed) row col
  = (Z.eqb r0 row && Z.eqb c0 col) || posHas processed row col.
Proof. reflexivity. Qed.

Section ZoneDetection.

Variable levelMap : list string.

Lemma floodFill_grows (fuel : nat) :
  forall (stack : list (Z * Z * ascii)) (processed : list (Z * Z)) (zone : Bounds.t),
  let result := floodFill levelMap fuel stack processed zone in
  (forall r c, posHas processed r c = true -> posHas (snd (fst result)) r c = true) /\
  (forall r c, posHas (snd (fst result)) r c = true ->
               posHas processed r c = true \/ inside (snd result) r c) /\
  (forall r c, inside zone r c -> inside (snd result) r c).
Proof.
  induction fuel as [|fuel IH]; intros stack processed zone; cbv zeta.
  - cbn. auto.
  - cbn [floodFill]. destruct stack as [|[[row col] char] stack]; [cbn; auto|].
    destruct (posHas processed row col) eqn:Ep; [apply IH|].
    set (zone2 := Bounds.mk (Z.min (Bounds.minRow zone) row)
                    (Z.max (Bounds.maxRow zone) row)
                    (Z.min (Bounds.minCol zone) col)
                    (Z.max (Bounds.maxCol zone) col)).
    destruct (IH (pushNeighbours levelMap ((row, col) :: processed) row col stack)
                 ((row, col) :: processed) zone2) as (I1 & I2 & I3).
    cbv zeta in I1, I2, I3.
    assert (Hself : inside zone2 row col) by (unfold inside, zone2; cbn; lia).
    assert (Hmono : forall r c, inside zone r c -> inside zone2 r c)
      by (unfold inside, zone2; cbn; intros; lia).
    split; [|split].
    + intros r c H. apply I1. rewrite posHas_cons, H. apply orb_true_r.
    + intros r c H. destruct (I2 r c H) as [H2|H2]; [|right; exact H2].
      rewrite posHas_cons in H2. apply orb_true_iff in H2.
      destruct H2 as [H2|H2]; [|left; exact H2].
      apply andb_true_iff in H2. destruct H2 as [Hr Hc].
      apply Z.eqb_eq in Hr, Hc. subst r c. right. apply I3. exact Hself.
    + intros r c H. apply I3, Hmono, H.
Qed.

(** The body of [zoneMarkers.forEach]. *)
Lemma detect_step (processed : list (Z * Z)) (detected : list Bounds.t)
    (row col : Z) (char : ascii) :
  let result :=
    if posHas processed row col then (processed, detected)
    else
      let zone := Bounds.mk row row col col in
      let '(_, processed, zone) :=
        floodFill levelMap (floodFuel levelMap) [(row, col, char)] processed zone in
      (processed, detected ++ [zone]) in
  posHas (fst result) row col = true /\
  (forall r c, posHas processed r c = true -> posHas (fst result) r c = true) /\
  (exists extra,
     snd result = detected ++ extra /\ (List.length extra <= 1)%nat /\
     (posHas processed row col = false -> List.length extra = 1%nat) /\
     (forall zone, In zone extra -> inside zone row col) /\
     (forall r c, posHas (fst result) r c = true ->
                  posHas processed r c = true \/ exists zone, In zone extra /\ inside zone r c)).
Proof.
  cbv zeta. destruct (posHas processed row col) eqn:Ep.
  - cbn [fst snd]. split; [exact Ep|]. split; [auto|].
    exists []. rewrite app_nil_r. split; [reflexivity|]. split; [cbn; lia|].
    split; [discriminate|]. split; [intros zone []|]. auto.
  - destruct (floodFill_grows (floodFuel levelMap) [(row, col, char)] processed
                (Bounds.mk row row col col)) as (F1 & F2 & F3).
    cbv zeta in F1, F2, F3.
    assert (Hfirst : posHas (snd (fst (floodFill levelMap (floodFuel levelMap)
                                         [(row, col, char)] processed
                                         (Bounds.mk row row col col)))) row col = true).
    { unfold floodFuel. rewrite Nat.add_comm. cbn [Nat.add floodFill]. rewrite Ep.
      destruct (floodFill_grows (S (4 * List.length (zoneMarkers levelMap)))
                  (pushNeighbours levelMap ((row, col) :: processed) row col [])
                  ((row, col) :: processed)
                  (Bounds.mk (Z.min row row) (Z.max row row)
                     (Z.min col col) (Z.max col col))) as (G1 & _).
      apply G1. rewrite posHas_cons, !Z.eqb_refl. reflexivity. }
    destruct (floodFill levelMap (floodFuel levelMap) [(row, col, char)] processed
                (Bounds.mk row row col col)) as [[stack' processed'] zone'].
    cbn [fst snd] in *.
    split; [exact Hfirst|]. split; [exact F1|].
    exists [zone']. split; [reflexivity|]. split; [cbn; lia|].
    split; [reflexivity|]. split.
    + intros zone [<-|[]]. apply F3. unfold inside. cbn. lia.
    + intros r c H. destruct (F2 r c H) as [H2|H2]; [left; exact H2|].
      right. exists zone'. split; [left; reflexivity|exact H2].
Qed.

Lemma detect_fold (markers : list (Z * Z * ascii)) :
  forall (processed : list (Z * Z)) (detected : list Bounds.t),
  (forall r c, posHas processed r c = true -> exists zone, In zone detected /\ inside zone r c) ->
  (forall zone, In zone detected -> exists r c, inside zone r c) ->
  let result :=
    fold_left
      (fun '(processed, detectedZones) '(row, col, char) =>
         if posHas processed row col then (processed, detectedZones)
         else
           let zone := Bounds.mk row row col col in
           let '(_, processed, zone) :=
             floodFill levelMap (floodFuel levelMap) [(row, col, char)] processed zone in
           (processed, detectedZones ++ [zone]))
      markers (processed, detected) in
  (forall row col char, In (row, col, char) markers ->
     exists zone, In zone (snd result) /\ inside zone row col) /\
  (forall r c, posHas (fst result) r c = true ->
     exists zone, In zone (snd result) /\ inside zone r c) /\
  (forall r c, posHas processed r c = true -> posHas (fst result) r c = true) /\
  (forall zone, In zone (snd result) -> exists r c, inside zone r c) /\
  (List.length detected <= List.length (snd result)
   <= List.length detected + List.length markers)%nat /\
  (markers <> [] -> processed = [] -> (1 <= List.length (snd result))%nat).
Proof.
  induction markers as [|[[row col] char] rest IH]; intros processed detected Hcov Hwf;
    cbv zeta.
  - cbn [fold_left fst snd List.length]. split; [intros ? ? ? []|].
    split; [exact Hcov|]. split; [auto|]. split; [exact Hwf|].
    split; [lia|]. intro H. contradiction H. reflexivity.
  - cbn [fold_left].
    destruct (detect_step processed detected row col char)
      as (S1 & S2 & extra & S3 & S4 & S5 & S6 & S7).
    cbv zeta in S1, S2, S3, S4, S5, S6, S7.
    set (step := if posHas processed row col then (processed, detected)
                 else _) in *.
    destruct step as [p1 d1]. cbn [fst snd] in S1, S2, S3, S4, S5, S6, S7. subst d1.
    assert (Hcov1 : forall r c, posHas p1 r c = true ->
                      exists zone, In zone (detected ++ extra) /\ inside zone r c).
    { intros r c H. destruct (S7 r c H) as [H2|(z & Hz & Hi)].
      - destruct (Hcov r c H2) as (z & Hz & Hi). exists z.
        split; [apply in_or_app; left; exact Hz|exact Hi].
      - exists z. split; [apply in_or_app; right; exact Hz|exact Hi]. }
    assert (Hwf1 : forall zone, In zone (detected ++ extra) -> exists r c, inside zone r c).
    { intros z Hz. apply in_app_or in Hz. destruct Hz as [Hz|Hz]; [apply Hwf; exact Hz|].
      exists row, col. apply S6. exact Hz. }
    destruct (IH p1 (detected ++ extra) Hcov1 Hwf1) as (I1 & I2 & I3 & I4 & I5 & _).
    cbv zeta in I1, I2, I3, I4, I5.
    set (result := fold_left _ rest (p1, detected ++ extra)) in *.
    split; [|split; [exact I2|split; [|split; [exact I4|split]]]].
    + intros r c ch [Heq|Hin]; [|exact (I1 r c ch Hin)].
      injection Heq as <- <- <-. apply I2, I3, S1.
    + intros r c H. apply I3, S2, H.
    + rewrite length_app in I5. cbn [List.length]. lia.
    + intros _ Hp. subst processed. rewrite length_app in I5.
      specialize (S5 eq_refl). lia.
Qed.

Lemma detectZones_spec :
  (forall row col char, In (row, col, char) (zoneMarkers levelMap) ->
     exists zone, In zone (detectZones levelMap) /\ inside zone row col) /\
  (forall zone, In zone (detectZones levelMap) -> exists r c, inside zone r c) /\
  (List.length (detectZones levelMap) <= List.length (zoneMarkers levelMap))%nat /\
  (detectZones levelMap = [] <-> zoneMarkers levelMap = []).
Proof.
  unfold detectZones.
  destruct (detect_fold (zoneMarkers levelMap) [] [])
    as (D1 & _ & _ & D4 & D5 & D6); [discriminate|intros ? []|].
  cbv zeta in D1, D4, D5, D6.
  set (result := fold_left _ (zoneMarkers levelMap) ([], [])) in *.
  split; [exact D1|]. split; [exact D4|]. split; [cbn in D5; lia|].
  split.
  - intro H. destruct (zoneMarkers levelMap) as [|m ms] eqn:Em; [reflexivity|].
    assert (1 <= List.length (snd result))%nat by (apply D6; [discriminate|reflexivity]).
    rewrite H in *. cbn in *. lia.
  - intro H. rewrite H in D5. cbn in D5. destruct (snd result); [reflexivity|cbn in D5; lia].
Qed.

End ZoneDetection.

Lemma indexed_from_ids {A : Type} (l : list A) :
  forall s : nat,
  map (fun p : Z * A => Z.to_nat (fst p))
      (combine (List.map Z.of_nat (seq s (List.length l))) l)
  = seq s (List.length l).
Proof.
  induction l as [|a l IH]; intro s; [reflexivity|].
  cbn [List.length seq List.map combine map fst]. rewrite Nat2Z.id, IH. reflexivity.
Qed.

Lemma inside_covers (chapterData : Chapter.t) (levelData : Level.t) (index : nat)
    (zone : Bounds.t) (row col : Z) :
  inside zone row col -> covers (makeZone chapterData levelData index zone) row col.
Proof.
  intros [[R1 R2] [C1 C2]]. unfold covers, makeZone. cbv zeta.
  cbn [Zone.x Zone.y Zone.width Zone.height]. unfold TILE_SIZE.
  rewrite !inject_Z_plus. unfold Z.sub. rewrite !inject_Z_plus, !inject_Z_opp.
  rewrite Zle_Qle in R1, R2, C1, C2.
  change (inject_Z 1) with 1.
  repeat split; lra.
Qed.

Lemma inside_size (chapterData : Chapter.t) (levelData : Level.t) (index : nat)
    (zone : Bounds.t) (row col : Z) :
  inside zone row col ->
  TILE_SIZE <= Zone.width (makeZone chapterData levelData index zone) /\
  TILE_SIZE <= Zone.height (makeZone chapterData levelData index zone).
Proof.
  intros [[R1 R2] [C1 C2]]. unfold makeZone. cbv zeta.
  cbn [Zone.width Zone.height]. unfold TILE_SIZE.
  rewrite !inject_Z_plus. unfold Z.sub. rewrite !inject_Z_plus, !inject_Z_opp.
  rewrite Zle_Qle in R1, R2, C1, C2.
  change (inject_Z 1) with 1.
  split; lra.
Qed.

Lemma parseGravityZones_throws (chapterData : option Chapter.t)
    (levelData : Level.t) :
  parseGravityZones chapterData levelData = TypeError
  <-> chapterData = None /\ zoneMarkers (Level.map levelData) <> [].
Proof.
  destruct (detectZones_spec (Level.map levelData)) as (_ & _ & _ & D4).
  unfold parseGravityZones. destruct chapterData as [chapter|].
  - split; [discriminate|intros [H _]; discriminate H].
  - destruct (detectZones (Level.map levelData)) as [|z zs] eqn:Ed.
    + split; [discriminate|]. intros [_ H]. exfalso. apply H. apply D4. reflexivity.
    + split; [|reflexivity]. intros _. split; [reflexivity|].
      intro H. apply D4 in H. discriminate H.
Qed.

(** X25.  The gravity zones [parseLevel] builds from a map: they are
    numbered 0, 1, 2, ... in the order they are detected, there are no more
    of them than [G]/[g] cells, the tile of every such cell lies within the
    rectangle of one of the zones, every zone is at least one tile wide and
    high, and every zone starts not activated and with its cooldown timer
    unset.  Zone detection throws exactly when the chapter is undefined
    and the map has a marker. *)
Theorem zones_cover_their_markers (chapterData : option Chapter.t)
    (levelData : Level.t) :
  let markers := zoneMarkers (Level.map levelData) in
  (parseGravityZones chapterData levelData = TypeError
   <-> chapterData = None /\ markers <> []) /\
  forall zones, parseGravityZones chapterData levelData = Ok zones ->
    map Zone.id zones = seq 0 (List.length zones) /\
    (List.length zones <= List.length markers)%nat /\
    (forall row col char, In (row, col, char) markers ->
       exists zone, In zone zones /\ covers zone row col) /\
    (forall zone, In zone zones ->
       TILE_SIZE <= Zone.width zone /\ TILE_SIZE <= Zone.height zone /\
       Zone.hasActivated zone = false /\ Zone.cooldownTimer zone = None).
Proof.
  cbv zeta. split; [apply parseGravityZones_throws|].
  destruct (detectZones_spec (Level.map levelData)) as (D1 & D2 & D3 & D4).
  unfold parseGravityZones.
  destruct chapterData as [chapter|].
  - intros zones Hz. injection Hz as <-.
    set (detected := detectZones (Level.map levelData)) in *.
    assert (Hlen : List.length (indexed detected) = List.length detected).
    { unfold indexed. rewrite length_combine, length_map, length_seq. lia. }
    split; [|split; [|split]].
    + rewrite map_map, length_map, Hlen.
      rewrite <- (indexed_from_ids detected 0). unfold indexed.
      apply map_ext. intros [i z]. reflexivity.
    + rewrite length_map, Hlen. exact D3.
    + intros row col char Hin. destruct (D1 row col char Hin) as (z & Hz & Hi).
      apply In_nth_error in Hz. destruct Hz as [n Hn].
      exists (makeZone chapter levelData n z). split.
      * apply in_map_iff. exists (Z.of_nat n, z). split.
        -- rewrite Nat2Z.id. reflexivity.
        -- apply indexed_In. exact Hn.
      * apply inside_covers. exact Hi.
    + intros zone Hin. apply in_map_iff in Hin. destruct Hin as ([i z] & <- & Hin).
      assert (Hz : In z detected).
      { unfold indexed in Hin. apply in_combine_r in Hin. exact Hin. }
      destruct (D2 z Hz) as (r & c & Hi).
      destruct (inside_size chapter levelData (Z.to_nat i) z r c Hi) as [W H].
      split; [exact W|]. split; [exact H|]. split; reflexivity.
  - destruct (detectZones (Level.map levelData)) as [|z zs] eqn:Ed.
    + intros zones Hz. injection Hz as <-. cbn.
      split; [reflexivity|]. split; [lia|]. split; [|intros ? []].
      intros row col char Hin. destruct (D1 row col char Hin) as (zz & [] & _).
    + intros zones Hz. discriminate Hz.
Qed.

(** X26.  [parseLevel] throws in two cases only: the level index is out
    of range, or the level's map has a gravity marker while the chapter
    index is out of range.  Otherwise it returns, having changed only the
    level's lists, door, spawn point and zones. *)
Theorem parseLevel_throws_iff (g : Game.t) :
  (parseLevel g = TypeError <->
   nth_error (levels (Game.chapters g)) (Game.currentLevel g) = None \/
   exists levelData,
     nth_error (levels (Game.chapters g)) (Game.currentLevel g) = Some levelData /\
     nth_error (Game.chapters g) (Game.currentChapter g) = None /\
     zoneMarkers (Level.map levelData) <> []) /\
  (forall g', parseLevel g = Ok g' ->
     sameDefinition g g' /\ Game.player g' = Game.player g /\
     Game.keys g' = Game.keys g /\ Game.gameState g' = Game.gameState g /\
     Game.deaths g' = Game.deaths g /\ Game.levelDeaths g' = Game.levelDeaths g /\
     Game.levelTime g' = Game.levelTime g /\ Game.isDead g' = Game.isDead g).
Proof.
  unfold parseLevel, ENABLE_GRAVITY_ZONES.
  destruct (nth_error (levels (Game.chapters g)) (Game.currentLevel g))
    as [levelData|] eqn:El.
  - cbn [Game.chapters Game.currentChapter Game.set_geometry].
    pose proof (parseGravityZones_throws
                  (nth_error (Game.chapters g) (Game.currentChapter g)) levelData)
      as Hthrow.
    destruct (parseGravityZones _ levelData) as [zones|] eqn:Ep.
    + split.
      * split; [discriminate|]. intros [H|(l & Hl & Hc & Hm)]; [discriminate H|].
        injection Hl as <-. destruct Hthrow as [_ Hthrow].
        specialize (Hthrow (conj Hc Hm)). discriminate Hthrow.
      * intros g' Hg. injection Hg as <-. repeat split.
    + split.
      * split; [|reflexivity]. intros _. right. exists levelData.
        destruct Hthrow as [Hthrow _]. destruct (Hthrow eq_refl) as [Hc Hm].
        split; [reflexivity|]. split; [exact Hc|exact Hm].
      * intros g' Hg. discriminate Hg.
  - split.
    + split; [left; reflexivity|reflexivity].
    + intros g' Hg. discriminate Hg.
Qed.

(** ** The screen-flow and zone properties at concrete states *)

Lemma update_freezes_game_outside_play_witness :
  update (1 # 60) menuSession = Ok menuSession.
Proof.
  destruct (update_freezes_game_outside_play (1 # 60) menuSession)
    as (s' & Hu & _ & _ & _ & _ & Hsame & _).
  - right. simpl. left. reflexivity.
  - rewrite Hu. f_equal. apply Hsame. reflexivity.
Defined.

Lemma death_is_counted_once_witness :
  exists s' : Session.t,
    update (1 # 60) (sessionOf spikedGame 0) = Ok s' /\
    Game.isDead (Session.game s') = true /\
    Game.deaths (Session.game s') = 4%nat.
Proof.
  destruct (death_is_counted_once (1 # 60) (sessionOf spikedGame 0))
    as [Hthrow Hret].
  - reflexivity.
  - reflexivity.
  - reflexivity.
  - reflexivity.
  - destruct (update (1 # 60) (sessionOf spikedGame 0)) as [s'|].
    + exists s'. split; [reflexivity|].
      destruct (Hret s' eq_refl) as (Hg & Hdead & Hdeaths & _).
      rewrite Hg. split.
      * rewrite Hdead. vm_compute. reflexivity.
      * rewrite Hdeaths. vm_compute. reflexivity.
    + exfalso. destruct Hthrow as [H _]. destruct (H eq_refl) as [_ Hn].
      vm_compute in Hn. discriminate Hn.
Defined.

Lemma respawn_after_death_flash_witness :
  exists g',
    update (1 # 4) deadSession = Ok (Session.set_game deadSession g') /\
    Game.isDead g' = false /\
    Game.player g' = spawnedPlayer (Session.game deadSession) /\
    Game.gravityZones g' = [usedOneShotZone].
Proof.
  destruct (respawn_after_death_flash (1 # 4) deadSession)
    as (g' & Hu & Hz & _ & _ & _ & _ & _ & Hre).
  - reflexivity.
  - reflexivity.
  - reflexivity.
  - destruct Hre as (Ha & Hp & _); [vm_compute; discriminate|].
    exists g'. split; [exact Hu|]. split; [exact Ha|]. split; [exact Hp|exact Hz].
Defined.

Lemma completion_countdown_only_counts_witness :
  update (1 # 2) completedSession
  = Ok (Session.set_game completedSession
          (Game.set_flow bookGame levelComplete ((3 # 2) - (1 # 2)))).
Proof.
  apply (completion_countdown_only_counts (1 # 2) completedSession).
  - reflexivity.
  - reflexivity.
  - reflexivity.
Defined.

Lemma next_level_loads_witness :
  exists s',
    update (1 # 60) expiredSession = Ok s' /\
    Game.gameState (Session.game s') = playing /\
    Session.currentLevelInChapter s' = 1%nat /\
    nth_error (levels bookChapters) (Game.currentLevel (Session.game s'))
    = Some floorLevel.
Proof.
  destruct (next_level_loads (1 # 60) expiredSession
              (Chapter.mk [dropLevel; floorLevel] (Some spikesLevel) None) floorLevel)
    as (s' & Hu & Hs & _ & Hl & Hg & _).
  - reflexivity.
  - reflexivity.
  - vm_compute. discriminate.
  - reflexivity.
  - reflexivity.
  - exists s'. split; [exact Hu|]. split; [exact Hs|]. split; [exact Hl|exact Hg].
Defined.

Lemma chapter_end_leaves_level_witness :
  exists s',
    update (1 # 60) lastLevelSession = Ok s' /\
    Game.gameState (Session.game s') = menu /\
    Game.currentLevel (Session.game s') = 0%nat.
Proof.
  destruct (chapter_end_leaves_level (1 # 60) lastLevelSession) as [_ H].
  - reflexivity.
  - reflexivity.
  - vm_compute. discriminate.
  - destruct (H (Chapter.mk [floorLevel] None None)) as (s' & Hu & Hs & _ & Hl & _).
    + reflexivity.
    + simpl. lia.
    + exists s'. split; [exact Hu|]. split; [exact Hs|exact Hl].
Defined.

Lemma door_contact_completes_level_witness :
  exists s' : Session.t,
    update (1 # 60) doorSession = Ok s' /\
    Game.gameState (Session.game s') = levelComplete /\
    completedHas (Progress.completedLevels (Session.progress s')) 0 = true /\
    (calculateStars 2 <= starsOf (Progress.levelStars (Session.progress s')) 0)%nat.
Proof.
  destruct (door_contact_completes_level (1 # 60) doorSession)
    as [Hreturns Hframe].
  - reflexivity.
  - reflexivity.
  - reflexivity.
  - reflexivity.
  - destruct Hreturns as [s' Hu]; [vm_compute; discriminate|].
    destruct (Hframe s' Hu) as (_ & Hhit & _).
    destruct Hhit as (Hs & _ & Hc & Hstars & _); [vm_compute; reflexivity|].
    exists s'. split; [exact Hu|]. split; [exact Hs|]. split; [exact Hc|exact Hstars].
Defined.

Lemma zone_membership_mirrors_overlap_witness :
  let result := checkGravityZones (1 # 60) [flipZone; contactZone] fallingPlayer in
  setHas (Player.currentGravityZone (snd result)) 0 = true /\
  setHas (Player.currentGravityZone (snd result)) 1 = false /\
  Player.x (snd result) = 130.
Proof.
  destruct (zone_membership_mirrors_overlap (1 # 60) [flipZone; contactZone]
              fallingPlayer) as ((Hx & _) & _ & _ & Hin & _).
  - simpl. constructor; [simpl; intros [H|[]]; discriminate H|].
    constructor; [intros []|constructor].
  - cbv zeta. split; [|split; [|exact Hx]].
    + exact (Hin flipZone (or_introl eq_refl)).
    + exact (Hin contactZone (or_intror (or_introl eq_refl))).
Defined.
